(** * weectl database: argument schema and dispatch of [weectllib/database_cmd.py]

    The file registers six actions under the [database] command of [weectl]
    and binds each to a wrapper that forwards the parsed namespace to
    [weectllib.db_actions].  The development below embeds

    - Python strings as lists of Unicode code points,
    - the namespace as an attribute dictionary,
    - the parts of [argparse] (CPython 3.11) that the schema exercises:
      classification of the argument strings, abbreviation of long options,
      the [--] separator, positionals, defaults, choices, required options,
      sub-parsers and the help action,
    - the six parsers of [add_subparser] and the six dispatch functions,

    and proves the properties of the command group on that embedding. *)

From Stdlib Require Import String Ascii List NArith Bool Arith Lia.
Import ListNotations.

Set Implicit Arguments.

(* ================================================================= *)
(** ** Python strings *)

(** A [str] is its sequence of code points. *)
Abbreviation str := (list N) (only parsing).

(** [py "abc"] is the [str] written ['abc'] in the source. *)
Definition py (s : string) : str := map N_of_ascii (list_ascii_of_string s).
Arguments py s%_string.

Fixpoint str_eqb (s t : str) : bool :=
  match s, t with
  | [], [] => true
  | a :: s', b :: t' => N.eqb a b && str_eqb s' t'
  | _, _ => false
  end.

(** [s.startswith(p)] *)
Fixpoint startswith (s p : str) : bool :=
  match p, s with
  | [], _ => true
  | b :: p', a :: s' => N.eqb a b && startswith s' p'
  | _ :: _, [] => false
  end.

(** [c in s] for a one-character [c] *)
Definition contains (c : N) (s : str) : bool := existsb (N.eqb c) s.

(** [s.split('=', 1)] of a string that holds an ['=']: the text before the
    first ['='] and the text after it. *)
Fixpoint split_eq (s : str) : str * str :=
  match s with
  | [] => ([], [])
  | c :: t =>
      if N.eqb c 61 then ([], t)
      else let (a, b) := split_eq t in (c :: a, b)
  end.

(** The text of an argument string before its first ['='], if it has
    one, and the text after it. *)
Definition option_part (t : str) : str :=
  if contains 61 t then fst (split_eq t) else t.

Definition explicit_part (t : str) : option str :=
  if contains 61 t then Some (snd (split_eq t)) else None.

(** [x in l] for a list of strings *)
Definition str_in (x : str) (l : list str) : bool := existsb (str_eqb x) l.

(** [l.remove(x)], ignoring the [ValueError] of an absent [x] *)
Fixpoint remove_first (x : str) (l : list str) : list str :=
  match l with
  | [] => []
  | y :: l' => if str_eqb y x then l' else y :: remove_first x l'
  end.

(** Lookup in a dictionary keyed by strings, kept in insertion order. *)
Fixpoint lookup {A : Type} (k : str) (d : list (str * A)) : option A :=
  match d with
  | [] => None
  | (k', v) :: d' => if str_eqb k' k then Some v else lookup k d'
  end.

(** The Unicode character database, for the code points outside ASCII:
    the full upper-case mapping used by [str.upper] and the decimal-digit
    class matched by [\d].  Inside ASCII both are written out below. *)
Record unicode_data := {
  ucd_upper : N -> str;
  ucd_decimal : N -> bool
}.

Section Strings.
Variable ucd : unicode_data.

Definition upper_char (c : N) : str :=
  if (97 <=? c)%N && (c <=? 122)%N then [(c - 32)%N]
  else if (c <? 128)%N then [c]
  else ucd_upper ucd c.

(** [s.upper()] *)
Definition upper (s : str) : str := flat_map upper_char s.

Definition is_digit (c : N) : bool :=
  if (c <? 128)%N then (48 <=? c)%N && (c <=? 57)%N else ucd_decimal ucd c.

Fixpoint skip_digits (s : str) : str :=
  match s with
  | c :: t => if is_digit c then skip_digits t else s
  | [] => []
  end.

(** [$]: the end of the string, or just before a final newline *)
Definition at_end (s : str) : bool :=
  match s with
  | [] => true
  | [c] => N.eqb c 10
  | _ => false
  end.

(** [\d+$] at the start of [s] *)
Definition digits_then_end (s : str) : bool :=
  match s with
  | c :: _ => is_digit c && at_end (skip_digits s)
  | [] => false
  end.

(** [re.match(r'^-\d+$|^-\d*\.\d+$', s)] *)
Definition negative_number_matcher (s : str) : bool :=
  match s with
  | c :: t =>
      N.eqb c 45 &&
      (digits_then_end t
       || match skip_digits t with
          | d :: u => N.eqb d 46 && digits_then_end u
          | [] => false
          end)
  | [] => false
  end.
End Strings.

(* ================================================================= *)
(** ** Values, the namespace, exceptions *)

(** The six functions of the module that [set_defaults(func=...)] binds. *)
Inductive dispatch :=
| Fn_create_database
| Fn_drop_daily
| Fn_rebuild_daily
| Fn_add_column
| Fn_rename_column
| Fn_drop_columns.

(** The Python values that occur as attributes of the namespace. *)
Inductive value :=
| VNone
| VBool (b : bool)
| VStr (s : str)
| VList (l : list str)
| VFunc (f : dispatch).

(** [argparse.Namespace]: attribute names to values, as [vars(namespace)]. *)
Definition namespace := list (string * value).

Fixpoint getattr (ns : namespace) (name : string) : option value :=
  match ns with
  | [] => None
  | (k, v) :: ns' => if String.eqb k name then Some v else getattr ns' name
  end.

Definition hasattr (ns : namespace) (name : string) : bool :=
  match getattr ns name with Some _ => true | None => false end.

Fixpoint setattr (ns : namespace) (name : string) (v : value) : namespace :=
  match ns with
  | [] => [(name, v)]
  | (k, w) :: ns' =>
      if String.eqb k name then (k, v) :: ns' else (k, w) :: setattr ns' name v
  end.

Arguments getattr ns name%_string.
Arguments hasattr ns name%_string.
Arguments setattr ns name%_string v.

(** [for key, value in vars(sub).items(): setattr(ns, key, value)] *)
Definition update (ns sub : namespace) : namespace :=
  fold_left (fun acc kv => setattr acc (fst kv) (snd kv)) sub ns.

Inductive usage_error :=
| AmbiguousOption
| ExpectedOneArgument
| ExpectedAtLeastOneArgument
| IgnoredExplicitArgument
| InvalidChoice
| UnknownParser
| RequiredArguments
| UnrecognizedArguments.

Inductive exn :=
| HelpExit                        (* print_help(); exit(0) *)
| UsageError (e : usage_error)    (* error(): usage message, exit(2) *)
| AttributeError
| IndexError
| LoopBound.                      (* the bound of the parsing loop was hit *)

Inductive result (A : Type) :=
| Ok (a : A)
| Raise (e : exn).
Arguments Raise {A} e.

Definition bind {A B : Type} (r : result A) (k : A -> result B) : result B :=
  match r with
  | Ok a => k a
  | Raise e => Raise e
  end.

Notation "x <- r ;; k" := (bind r (fun x => k))
  (at level 61, r at next level, right associativity).
Notation "' pat <- r ;; k" := (bind r (fun x => match x with pat => k end))
  (at level 61, pat pattern, r at next level, right associativity).

(* ================================================================= *)
(** ** The argument schema *)

Inductive nargs_spec :=
| NargsNone       (* nargs=None: one argument *)
| NargsZero       (* nargs=0: store_true and help *)
| ONE_OR_MORE     (* nargs='+' *)
| PARSER.         (* nargs='A...': the sub-parser action *)

Inductive action_class :=
| StoreAction
| StoreTrueAction
| HelpAction
| SubParsersAction.

(** [dest] and [default] are [None] where argparse has [SUPPRESS]. *)
Record action := {
  option_strings : list str;
  dest : option string;
  nargs : nargs_spec;
  cls : action_class;
  default : option value;
  choices : option (list str);
  required : bool
}.

Record parser := {
  actions : list action;                  (* _actions, in order of declaration *)
  defaults : list (string * value)        (* _defaults, from set_defaults *)
}.

(** An action together with its position in [_actions], which stands for
    the identity of the Python object. *)
Definition iaction := (nat * action)%type.

Definition actions_indexed (p : parser) : list iaction :=
  combine (seq 0 (length (actions p))) (actions p).

(** [_option_string_actions] *)
Definition option_string_actions (p : parser) : list (str * iaction) :=
  flat_map (fun ia => map (fun o => (o, ia)) (option_strings (snd ia)))
           (actions_indexed p).

Definition is_positional (a : action) : bool :=
  match option_strings a with [] => true | _ => false end.

(** [_get_positional_actions()].  No parser of this file declares more
    than one positional, so the list is kept as its single element. *)
Definition get_positional_actions (p : parser) : option iaction :=
  find (fun ia => is_positional (snd ia)) (actions_indexed p).

(* ================================================================= *)
(** ** argparse: classification of the argument strings *)

(** The triple returned by [_parse_optional]: the action (or [None] for a
    string that looks like an option this parser does not have), the option
    string and the explicit argument after ['=']. *)
Inductive option_tuple :=
| OptionTuple (a : option iaction) (option_string : str)
              (explicit_arg : option str).

(** A letter of [arg_strings_pattern]: ['A'], ['-'] or ['O']; with ['O']
    goes the entry of [option_string_indices]. *)
Inductive pattern :=
| PA
| PDash
| PO (t : option_tuple).

(** An argument string with its pattern letter. *)
Abbreviation token := (str * pattern)%type (only parsing).

Definition is_PA (t : token) : bool :=
  match snd t with PA => true | _ => false end.
Definition is_PDash (t : token) : bool :=
  match snd t with PDash => true | _ => false end.
Definition is_PO (t : token) : bool :=
  match snd t with PO _ => true | _ => false end.

Fixpoint count_while {A : Type} (f : A -> bool) (l : list A) : nat :=
  match l with
  | x :: l' => if f x then S (count_while f l') else 0
  | [] => 0
  end.

Record state := {
  st_namespace : namespace;
  seen_actions : list nat;
  extras : list str;
  positionals : option iaction;
  unrecognized_args : list str       (* namespace._unrecognized_args *)
}.

Definition with_namespace (st : state) (ns : namespace) : state :=
  {| st_namespace := ns; seen_actions := seen_actions st;
     extras := extras st; positionals := positionals st;
     unrecognized_args := unrecognized_args st |}.

Definition with_seen (st : state) (i : nat) : state :=
  {| st_namespace := st_namespace st; seen_actions := i :: seen_actions st;
     extras := extras st; positionals := positionals st;
     unrecognized_args := unrecognized_args st |}.

Definition with_extras (st : state) (l : list str) : state :=
  {| st_namespace := st_namespace st; seen_actions := seen_actions st;
     extras := extras st ++ l; positionals := positionals st;
     unrecognized_args := unrecognized_args st |}.

Definition without_positionals (st : state) : state :=
  {| st_namespace := st_namespace st; seen_actions := seen_actions st;
     extras := extras st; positionals := None;
     unrecognized_args := unrecognized_args st |}.

Definition with_unrecognized (st : state) (l : list str) : state :=
  {| st_namespace := st_namespace st; seen_actions := seen_actions st;
     extras := extras st; positionals := positionals st;
     unrecognized_args := unrecognized_args st ++ l |}.

(** What a sub-parser is to the parser that holds it: its
    [parse_known_args]. *)
Definition subparser := list str -> result (namespace * list str).

Section ArgumentParser.
Variable ucd : unicode_data.
Variable name_parser_map : list (str * subparser).
Variable p : parser.

Definition has_negative_number_optionals : bool :=
  existsb (fun oa => negative_number_matcher ucd (fst oa))
          (option_string_actions p).

(** [_get_option_tuples], called on a string of two characters or more
    that starts with ['-']; [allow_abbrev] is on. *)
Definition get_option_tuples (option_string : str) : list option_tuple :=
  match option_string with
  | _ :: c1 :: short_explicit_arg =>
      if N.eqb c1 45 then
        let option_prefix := option_part option_string in
        let explicit_arg := explicit_part option_string in
        flat_map (fun oa =>
                    if startswith (fst oa) option_prefix
                    then [OptionTuple (Some (snd oa)) (fst oa) explicit_arg]
                    else [])
                 (option_string_actions p)
      else
        let short_option_prefix := firstn 2 option_string in
        flat_map (fun oa =>
                    if str_eqb (fst oa) short_option_prefix
                    then [OptionTuple (Some (snd oa)) (fst oa)
                                      (Some short_explicit_arg)]
                    else if startswith (fst oa) option_string
                    then [OptionTuple (Some (snd oa)) (fst oa) None]
                    else [])
                 (option_string_actions p)
  | _ => []
  end.

(** [_parse_optional]: [Ok None] is Python's [None] (a positional). *)
Definition parse_optional (arg_string : str)
  : result (option option_tuple) :=
  match arg_string with
  | [] => Ok None
  | c0 :: _ =>
      if negb (N.eqb c0 45) then Ok None else
      match lookup arg_string (option_string_actions p) with
      | Some a => Ok (Some (OptionTuple (Some a) arg_string None))
      | None =>
          if length arg_string =? 1 then Ok None else
          match (if contains 61 arg_string
                 then lookup (fst (split_eq arg_string))
                             (option_string_actions p)
                 else None) with
          | Some a =>
              Ok (Some (OptionTuple (Some a) (fst (split_eq arg_string))
                                    (Some (snd (split_eq arg_string)))))
          | None =>
              match get_option_tuples arg_string with
              | _ :: _ :: _ => Raise (UsageError AmbiguousOption)
              | [option_tuple] => Ok (Some option_tuple)
              | [] =>
                  if negative_number_matcher ucd arg_string
                     && negb has_negative_number_optionals
                  then Ok None
                  else if contains 32 arg_string then Ok None
                  else Ok (Some (OptionTuple None arg_string None))
              end
          end
      end
  end.

(** The first loop of [_parse_known_args]: the pattern letter of every
    argument string; everything after the first [--] is an ['A']. *)
Fixpoint classify (arg_strings : list str) : result (list token) :=
  match arg_strings with
  | [] => Ok []
  | arg_string :: rest =>
      if str_eqb arg_string (py "--")
      then Ok ((arg_string, PDash) :: map (fun s => (s, PA)) rest)
      else
        option_tuple <- parse_optional arg_string ;;
        toks <- classify rest ;;
        Ok ((arg_string,
             match option_tuple with None => PA | Some t => PO t end)
              :: toks)
  end.

(** [re.match(_get_nargs_pattern(action), pattern)]: the length of the
    match, if any.  For nargs None the pattern is: dashes, one A, dashes;
    for nargs 0: dashes; for nargs '+': dashes, one A, then As and
    dashes; for the sub-parser action: dashes, one A, then any letters.
    An optional action has the dashes struck out of its pattern. *)
Definition match_nargs (a : action) (toks : list token) : option nat :=
  let opt := negb (is_positional a) in
  let d := if opt then 0 else count_while is_PDash toks in
  match nargs a, skipn d toks with
  | NargsZero, _ => Some d
  | NargsNone, t :: r =>
      if is_PA t
      then Some (d + 1 + (if opt then 0 else count_while is_PDash r))
      else None
  | ONE_OR_MORE, t :: r =>
      if is_PA t
      then Some (d + 1 + count_while
                           (fun t => is_PA t || (negb opt && is_PDash t)) r)
      else None
  | PARSER, t :: r =>
      if is_PA t
      then Some (d + 1 + (if opt
                          then count_while (fun t => is_PA t || is_PO t) r
                          else length r))
      else None
  | _, [] => None
  end.

(** [_match_argument] *)
Definition match_argument (a : action) (toks : list token) : result nat :=
  match match_nargs a toks with
  | Some n => Ok n
  | None =>
      Raise (UsageError (match nargs a with
                         | ONE_OR_MORE => ExpectedAtLeastOneArgument
                         | _ => ExpectedOneArgument
                         end))
  end.

(** [_check_value] *)
Definition check_value (a : action) (v : str) : result unit :=
  match choices a with
  | Some c => if str_in v c then Ok tt else Raise (UsageError InvalidChoice)
  | None => Ok tt
  end.

Fixpoint check_values (a : action) (l : list str) : result unit :=
  match l with
  | [] => Ok tt
  | v :: l' => _ <- check_value a v ;; check_values a l'
  end.

(** [_get_values]; no action of this file has a [type], so [_get_value]
    returns the argument string itself. *)
Definition get_values (a : action) (arg_strings : list str) : result value :=
  match nargs a with
  | PARSER =>
      match arg_strings with
      | v0 :: _ => _ <- check_value a v0 ;; Ok (VList arg_strings)
      | [] => Raise IndexError
      end
  | NargsNone =>
      match remove_first (py "--") arg_strings with
      | [arg_string] => _ <- check_value a arg_string ;; Ok (VStr arg_string)
      | l => _ <- check_values a l ;; Ok (VList l)
      end
  | _ =>
      let l := remove_first (py "--") arg_strings in
      _ <- check_values a l ;; Ok (VList l)
  end.

Definition set_dest (a : action) (ns : namespace) (v : value) : namespace :=
  match dest a with
  | Some d => setattr ns d v
  | None => ns
  end.

(** [action(self, namespace, argument_values, option_string)], one case
    per action class. *)
Definition call_action (st : state) (a : action) (values : value)
  : result state :=
  match cls a with
  | StoreAction => Ok (with_namespace st (set_dest a (st_namespace st) values))
  | StoreTrueAction =>
      Ok (with_namespace st (set_dest a (st_namespace st) (VBool true)))
  | HelpAction => Raise HelpExit
  | SubParsersAction =>
      match values with
      | VList (parser_name :: arg_strings) =>
          let ns := set_dest a (st_namespace st) (VStr parser_name) in
          match lookup parser_name name_parser_map with
          | None => Raise (UsageError UnknownParser)
          | Some sub =>
              '(subnamespace, arg_strings') <- sub arg_strings ;;
              Ok (with_unrecognized
                    (with_namespace st (update ns subnamespace))
                    arg_strings')
          end
      | _ => Raise IndexError
      end
  end.

Definition take_action (st : state) (ia : iaction)
           (argument_strings : list str) : result state :=
  argument_values <- get_values (snd ia) argument_strings ;;
  call_action (with_seen st (fst ia)) (snd ia) argument_values.

Fixpoint take_actions (st : state) (l : list (iaction * list str))
  : result state :=
  match l with
  | [] => Ok st
  | (ia, args) :: l' => st' <- take_action st ia args ;; take_actions st' l'
  end.

(** The [while True] loop of [consume_optional] as long as there is an
    explicit argument: the action tuples gathered, and the action left
    to match against the following strings once the explicit argument
    is used up by single-dash flags. *)
Fixpoint explicit_loop (ia : iaction) (option_string explicit_arg : str)
         (action_tuples : list (iaction * list str))
  : result (list (iaction * list str) * option iaction) :=
  match match_nargs (snd ia) [(explicit_arg, PA)] with
  | None => Raise (UsageError ExpectedOneArgument)
  | Some arg_count =>
      match explicit_arg with
      | c :: new_explicit_arg =>
          if (arg_count =? 0) && negb (N.eqb (nth 1 option_string 0%N) 45)
          then
            let action_tuples := action_tuples ++ [(ia, [])] in
            let option_string := [hd 45%N option_string; c] in
            match lookup option_string (option_string_actions p) with
            | Some ia' =>
                match new_explicit_arg with
                | [] => Ok (action_tuples, Some ia')
                | _ => explicit_loop ia' option_string new_explicit_arg
                                     action_tuples
                end
            | None => Raise (UsageError IgnoredExplicitArgument)
            end
          else if arg_count =? 1
          then Ok (action_tuples ++ [(ia, [explicit_arg])], None)
          else Raise (UsageError IgnoredExplicitArgument)
      | [] =>
          if arg_count =? 1
          then Ok (action_tuples ++ [(ia, [explicit_arg])], None)
          else Raise (UsageError IgnoredExplicitArgument)
      end
  end.

(** [consume_optional(start_index)], on the argument strings from
    [start_index] on; returns how many of them it used. *)
Definition consume_optional (st : state) (toks : list token)
  : result (state * nat) :=
  match toks with
  | (arg_string, PO (OptionTuple None _ _)) :: _ =>
      Ok (with_extras st [arg_string], 1)
  | (arg_string, PO (OptionTuple (Some ia) option_string explicit_arg))
      :: following =>
      '(action_tuples, pending) <-
        match explicit_arg with
        | Some e => explicit_loop ia option_string e []
        | None => Ok ([], Some ia)
        end ;;
      '(action_tuples, stop) <-
        match pending with
        | None => Ok (action_tuples, 1)
        | Some ia' =>
            arg_count <- match_argument (snd ia') following ;;
            Ok (action_tuples
                  ++ [(ia', map fst (firstn arg_count following))],
                1 + arg_count)
        end ;;
      st' <- take_actions st action_tuples ;;
      Ok (st', stop)
  | _ => Raise IndexError
  end.

(** [consume_positionals(start_index)] *)
Definition consume_positionals (st : state) (toks : list token)
  : result (state * nat) :=
  match positionals st with
  | None => Ok (st, 0)
  | Some ia =>
      match match_nargs (snd ia) toks with
      | None => Ok (st, 0)
      | Some arg_count =>
          st' <- take_action st ia (map fst (firstn arg_count toks)) ;;
          Ok (without_positionals st', arg_count)
      end
  end.

(** The loop [while start_index <= max_option_string_index]: [toks] are
    the argument strings from [start_index] on.  It runs as long as an
    option is left and returns the strings after the last option. *)
Fixpoint parse_loop (bound : nat) (st : state) (toks : list token)
  : result (state * list token) :=
  if negb (existsb is_PO toks) then Ok (st, toks) else
  match bound with
  | 0 => Raise LoopBound
  | S bound' =>
      let next_option_string_index :=
        count_while (fun t => negb (is_PO t)) toks in
      '(st, consumed) <-
        (if next_option_string_index =? 0 then Ok (st, 0)
         else consume_positionals st toks) ;;
      if 0 <? consumed then parse_loop bound' st (skipn consumed toks)
      else
        let strings := map fst (firstn next_option_string_index toks) in
        let toks := skipn next_option_string_index toks in
        '(st, stop) <- consume_optional (with_extras st strings) toks ;;
        parse_loop bound' st (skipn stop toks)
  end.

(** The namespace before parsing: the defaults of the actions, then
    those of [set_defaults], each only where the attribute is absent. *)
Definition initial_namespace : namespace :=
  let ns :=
    fold_left (fun ns a =>
                 match dest a, default a with
                 | Some d, Some v => if hasattr ns d then ns
                                     else setattr ns d v
                 | _, _ => ns
                 end) (actions p) [] in
  fold_left (fun ns kv => if hasattr ns (fst kv) then ns
                          else setattr ns (fst kv) (snd kv))
            (defaults p) ns.

Definition initial_state : state :=
  {| st_namespace := initial_namespace; seen_actions := [];
     extras := []; positionals := get_positional_actions p;
     unrecognized_args := [] |}.

Definition missing_required (seen : list nat) : bool :=
  existsb (fun ia => negb (existsb (Nat.eqb (fst ia)) seen)
                     && required (snd ia))
          (actions_indexed p).

(** The body of [_parse_known_args] after the classification: the
    loop, the positionals that follow the last option, the extras. *)
Definition consume_all (toks : list token) : result state :=
  '(st, rest) <- parse_loop (length toks) initial_state toks ;;
  '(st, stop_index) <- consume_positionals st rest ;;
  Ok (with_extras st (map fst (skipn stop_index rest))).

(** [parse_known_args]: the namespace and the strings left over. *)
Definition parse_known_args (args : list str)
  : result (namespace * list str) :=
  toks <- classify args ;;
  st <- consume_all toks ;;
  if missing_required (seen_actions st)
  then Raise (UsageError RequiredArguments)
  else Ok (st_namespace st, extras st ++ unrecognized_args st).

(** [parse_args] *)
Definition parse_args (args : list str) : result namespace :=
  '(ns, argv) <- parse_known_args args ;;
  match argv with
  | [] => Ok ns
  | _ => Raise (UsageError UnrecognizedArguments)
  end.
End ArgumentParser.

(* ================================================================= *)
(** ** The schema of [add_subparser] *)

(** The [-h/--help] action every [ArgumentParser] starts with. *)
Definition help_action : action :=
  {| option_strings := [py "-h"; py "--help"]; dest := None;
     nargs := NargsZero; cls := HelpAction; default := None;
     choices := None; required := false |}.

(** [add_argument(flag, dest=..., default=..., choices=..., required=...)]
    with the default action, ['store']. *)
Definition store (flag : string) (dest : string) (default : value)
           (choices : option (list str)) (required : bool) : action :=
  {| option_strings := [py flag]; dest := Some dest; nargs := NargsNone;
     cls := StoreAction; default := Some default; choices := choices;
     required := required |}.
Arguments store flag%_string dest%_string default choices required.

(** [add_argument(flag, action='store_true')] *)
Definition store_true (flag : string) (dest : string) : action :=
  {| option_strings := [py flag]; dest := Some dest; nargs := NargsZero;
     cls := StoreTrueAction; default := Some (VBool false);
     choices := None; required := false |}.
Arguments store_true flag%_string dest%_string.

(** [add_argument(dest, nargs=...)]: a positional, which is required. *)
Definition positional (dest : string) (n : nargs_spec) : action :=
  {| option_strings := []; dest := Some dest; nargs := n;
     cls := StoreAction; default := Some VNone; choices := None;
     required := true |}.
Arguments positional dest%_string n.

Definition func (f : dispatch) : list (string * value) :=
  [("func"%string, VFunc f)].

(** The three options every action takes. *)
Definition config_option : action := store "--config" "config" VNone None false.
Definition binding_option : action :=
  store "--binding" "binding" (VStr (py "wx_binding")) None false.
Definition dry_run_option : action := store_true "--dry-run" "dry_run".

Definition database_create_parser : parser :=
  {| actions := [help_action; config_option; binding_option; dry_run_option];
     defaults := func Fn_create_database |}.

Definition database_drop_daily_parser : parser :=
  {| actions := [help_action; config_option; binding_option; dry_run_option];
     defaults := func Fn_drop_daily |}.

Definition database_rebuild_parser : parser :=
  {| actions := [help_action; config_option; binding_option;
                 store "--date" "date" VNone None false;
                 store "--from" "from_date" VNone None false;
                 store "--to" "to_date" VNone None false;
                 dry_run_option];
     defaults := func Fn_rebuild_daily |}.

Definition column_type_choices : list str :=
  [py "REAL"; py "INTEGER"; py "real"; py "integer"; py "int"].

Definition add_column_parser : parser :=
  {| actions := [help_action;
                 positional "column_name" NargsNone;
                 store "--type" "column_type" (VStr (py "REAL"))
                       (Some column_type_choices) false;
                 config_option; binding_option; dry_run_option];
     defaults := func Fn_add_column |}.

(** The source binds the next two parsers to the variable
    [add_column_parser] again; they are named after their action here. *)
Definition rename_column_parser : parser :=
  {| actions := [help_action;
                 positional "column_name" NargsNone;
                 store "--to-name" "new_name" VNone None true;
                 config_option; binding_option; dry_run_option];
     defaults := func Fn_rename_column |}.

Definition drop_columns_parser : parser :=
  {| actions := [help_action;
                 positional "column_names" ONE_OR_MORE;
                 config_option; binding_option; dry_run_option];
     defaults := func Fn_drop_columns |}.

(** The parsers of [action_parser], under their names. *)
Definition action_parsers : list (str * parser) :=
  [(py "create", database_create_parser);
   (py "drop-daily", database_drop_daily_parser);
   (py "rebuild-daily", database_rebuild_parser);
   (py "add-column", add_column_parser);
   (py "rename-column", rename_column_parser);
   (py "drop-columns", drop_columns_parser)].

(** [database_parser.add_subparsers(dest='action', ...)]: the sub-parser
    action; [required] is left at its default, [False]. *)
Definition action_parser : action :=
  {| option_strings := []; dest := Some "action"%string; nargs := PARSER;
     cls := SubParsersAction; default := Some VNone;
     choices := Some (map fst action_parsers); required := false |}.

Definition database_parser : parser :=
  {| actions := [help_action; action_parser]; defaults := [] |}.

Section Database.
Variable ucd : unicode_data.

(** A parser of one action has no sub-parsers of its own. *)
Definition action_parse_known_args (p : parser) : subparser :=
  parse_known_args ucd [] p.

Definition name_parser_map : list (str * subparser) :=
  map (fun np => (fst np, action_parse_known_args (snd np))) action_parsers.

(** What [parse_args] of [weectl] makes of the argument strings that
    follow [database]: its sub-parser action hands all of them to
    [database_parser]. *)
Definition database_parse_args (args : list str) : result namespace :=
  parse_args ucd name_parser_map database_parser args.
End Database.

(* ================================================================= *)
(** ** The dispatch functions *)

(** A call of a function of [weectllib.db_actions], with its arguments as
    the callee receives them. *)
Inductive db_actions_call :=
| Call_create_database (config db_binding dry_run : value)
| Call_drop_daily (config db_binding dry_run : value)
| Call_rebuild_daily (config db_binding date from_date to_date dry_run : value)
| Call_add_column (config db_binding column_name column_type dry_run : value)
| Call_rename_column (config db_binding column_name new_name dry_run : value)
| Call_drop_columns (config db_binding column_names dry_run : value).

(** [namespace.name] *)
Definition attr (ns : namespace) (name : string) : result value :=
  match getattr ns name with
  | Some v => Ok v
  | None => Raise AttributeError
  end.
Arguments attr ns name%_string.

Definition create_database (ns : namespace) : result db_actions_call :=
  config <- attr ns "config" ;;
  binding <- attr ns "binding" ;;
  dry_run <- attr ns "dry_run" ;;
  Ok (Call_create_database config binding dry_run).

Definition drop_daily (ns : namespace) : result db_actions_call :=
  config <- attr ns "config" ;;
  binding <- attr ns "binding" ;;
  dry_run <- attr ns "dry_run" ;;
  Ok (Call_drop_daily config binding dry_run).

Definition rebuild_daily (ns : namespace) : result db_actions_call :=
  config <- attr ns "config" ;;
  binding <- attr ns "binding" ;;
  date <- attr ns "date" ;;
  from_date <- attr ns "from_date" ;;
  to_date <- attr ns "to_date" ;;
  dry_run <- attr ns "dry_run" ;;
  Ok (Call_rebuild_daily config binding date from_date to_date dry_run).

Section Dispatch.
Variable ucd : unicode_data.

(** [v.upper()]: only a [str] has the method. *)
Definition upper_method (v : value) : result str :=
  match v with
  | VStr s => Ok (upper ucd s)
  | _ => Raise AttributeError
  end.

Definition add_column (ns : namespace) : result db_actions_call :=
  v <- attr ns "column_type" ;;
  column_type <- upper_method v ;;
  let column_type :=
    if str_eqb column_type (py "INT") then py "INTEGER" else column_type in
  config <- attr ns "config" ;;
  binding <- attr ns "binding" ;;
  column_name <- attr ns "column_name" ;;
  dry_run <- attr ns "dry_run" ;;
  Ok (Call_add_column config binding column_name (VStr column_type) dry_run).
End Dispatch.

Definition rename_column (ns : namespace) : result db_actions_call :=
  config <- attr ns "config" ;;
  binding <- attr ns "binding" ;;
  column_name <- attr ns "column_name" ;;
  new_name <- attr ns "new_name" ;;
  dry_run <- attr ns "dry_run" ;;
  Ok (Call_rename_column config binding column_name new_name dry_run).

Definition drop_columns (ns : namespace) : result db_actions_call :=
  config <- attr ns "config" ;;
  binding <- attr ns "binding" ;;
  column_names <- attr ns "column_names" ;;
  dry_run <- attr ns "dry_run" ;;
  Ok (Call_drop_columns config binding column_names dry_run).

(** [f(namespace)] for the function object [f] bound to [func]. *)
Definition call (ucd : unicode_data) (f : dispatch) (ns : namespace)
  : result db_actions_call :=
  match f with
  | Fn_create_database => create_database ns
  | Fn_drop_daily => drop_daily ns
  | Fn_rebuild_daily => rebuild_daily ns
  | Fn_add_column => add_column ucd ns
  | Fn_rename_column => rename_column ns
  | Fn_drop_columns => drop_columns ns
  end.


(* ================================================================= *)
(** ** Notions used to state the properties *)

(** The argument of a call that the callee names [db_binding]. *)
Definition call_db_binding (c : db_actions_call) : value :=
  match c with
  | Call_create_database _ b _ => b
  | Call_drop_daily _ b _ => b
  | Call_rebuild_daily _ b _ _ _ _ => b
  | Call_add_column _ b _ _ _ => b
  | Call_rename_column _ b _ _ _ => b
  | Call_drop_columns _ b _ _ => b
  end.

(** The argument of a call that the callee names [dry_run]. *)
Definition call_dry_run (c : db_actions_call) : value :=
  match c with
  | Call_create_database _ _ d => d
  | Call_drop_daily _ _ d => d
  | Call_rebuild_daily _ _ _ _ _ d => d
  | Call_add_column _ _ _ _ d => d
  | Call_rename_column _ _ _ _ d => d
  | Call_drop_columns _ _ _ d => d
  end.

(** The attributes of the namespace that a dispatch function reads. *)
Definition reads (f : dispatch) : list string :=
  match f with
  | Fn_create_database => ["config"; "binding"; "dry_run"]
  | Fn_drop_daily => ["config"; "binding"; "dry_run"]
  | Fn_rebuild_daily =>
      ["config"; "binding"; "date"; "from_date"; "to_date"; "dry_run"]
  | Fn_add_column =>
      ["column_type"; "config"; "binding"; "column_name"; "dry_run"]
  | Fn_rename_column =>
      ["config"; "binding"; "column_name"; "new_name"; "dry_run"]
  | Fn_drop_columns => ["config"; "binding"; "column_names"; "dry_run"]
  end%string.

Definition lowercase_letter (c : N) : bool := (97 <=? c)%N && (c <=? 122)%N.

(** [--flag=value] when a value is given, no argument string otherwise;
    the value that the namespace then holds. *)
Definition option_arg (flag : string) (v : option str) : list str :=
  match v with
  | Some s => [py flag ++ 61%N :: s]
  | None => []
  end.
Arguments option_arg flag%_string v.

Definition optional_value (v : option str) : value :=
  match v with
  | Some s => VStr s
  | None => VNone
  end.

(** A value other than the string [--], which argparse strikes out of
    the arguments of every action. *)
Definition not_dashes (v : option str) : bool :=
  match v with
  | Some s => negb (str_eqb s (py "--"))
  | None => true
  end.

(** The namespace of [add-column NAME --type TYPE] with nothing else
    on the command line. *)
Definition add_column_namespace (name type : str) : namespace :=
  [("action", VStr (py "add-column"));
   ("column_name", VStr name);
   ("column_type", VStr type);
   ("config", VNone);
   ("binding", VStr (py "wx_binding"));
   ("dry_run", VBool false);
   ("func", VFunc Fn_add_column)]%string.

(** The mapping of the namespace onto the parameters of the collaborator
    call as the specification lists it, for the five actions that forward
    every field as it is: [field] gives the value of an attribute.  (For
    [add-column] the column type is normalized first; the table has it
    unchanged.) *)
Definition forwarded_call (f : dispatch) (field : string -> value)
  : db_actions_call :=
  match f with
  | Fn_create_database =>
      Call_create_database (field "config") (field "binding")
                           (field "dry_run")
  | Fn_drop_daily =>
      Call_drop_daily (field "config") (field "binding") (field "dry_run")
  | Fn_rebuild_daily =>
      Call_rebuild_daily (field "config") (field "binding") (field "date")
                         (field "from_date") (field "to_date")
                         (field "dry_run")
  | Fn_add_column =>
      Call_add_column (field "config") (field "binding")
                      (field "column_name") (field "column_type")
                      (field "dry_run")
  | Fn_rename_column =>
      Call_rename_column (field "config") (field "binding")
                         (field "column_name") (field "new_name")
                         (field "dry_run")
  | Fn_drop_columns =>
      Call_drop_columns (field "config") (field "binding")
                        (field "column_names") (field "dry_run")
  end%string.

(** The attribute [name] of [ns], [None] when it is missing. *)
Definition field_of (ns : namespace) (name : string) : value :=
  match getattr ns name with
  | Some v => v
  | None => VNone
  end.

(** Once the action [ia] has been taken, the attribute [d] holds a list
    that is not empty. *)
Definition names_taken (ia : iaction) (d : string) (st : state) : Prop :=
  In (fst ia) (seen_actions st) ->
  exists l, l <> [] /\ getattr (st_namespace st) d = Some (VList l).

(** What argparse itself ends a parse with: the exit after the help
    text, or a usage error. *)
Definition argparse_exit (e : exn) : bool :=
  match e with
  | HelpExit | UsageError _ => true
  | _ => false
  end.

(** A sub-parser action gathers the remaining argument strings. *)
Definition subparsers_ok (p : parser) : bool :=
  forallb (fun a => match cls a, nargs a with
                    | SubParsersAction, PARSER => true
                    | SubParsersAction, _ => false
                    | _, _ => true
                    end) (actions p).

(** An action of the parser [p], with argument strings that its
    [_get_values] can take. *)
Definition takes (p : parser) (t : iaction * list str) : Prop :=
  In (fst t) (actions_indexed p)
  /\ (nargs (snd (fst t)) = PARSER -> snd t <> []).

(** The options among [toks] are options of the parser, and so is the
    positional that is pending. *)
Definition known_options (p : parser) (toks : list token) : Prop :=
  forall s ia os e,
    In (s, PO (OptionTuple (Some ia) os e)) toks ->
    In ia (actions_indexed p).

Definition known_positional (p : parser) (st : state) : Prop :=
  forall ia, positionals st = Some ia -> In ia (actions_indexed p).

(** Letter case, on ASCII. *)
Definition ascii_lower (c : N) : N :=
  if (65 <=? c)%N && (c <=? 90)%N then (c + 32)%N else c.

(** [s] is the word [w] in some letter case. *)
Definition eq_ignoring_case (s w : str) : bool :=
  str_eqb (map ascii_lower s) (map ascii_lower w).

(** A string that does not start with a dash: argparse takes it for an
    argument whatever the options of the parser are. *)
Definition plain (s : str) : bool :=
  match s with
  | c :: _ => negb (N.eqb c 45)
  | [] => true
  end.

(** The argument strings before the first [--]: only these can be
    options. *)
Fixpoint options_zone (args : list str) : list str :=
  match args with
  | [] => []
  | a :: rest => if str_eqb a (py "--") then [] else a :: options_zone rest
  end.

(** [t] spells the long option [o], in full or abbreviated, with or
    without an [=value]. *)
Definition abbreviates (t o : str) : bool :=
  (2 <? length (option_part t)) && startswith o (option_part t).

(** Some argument string of the invocation spells the option [o]. *)
Definition mentions (o : string) (args : list str) : bool :=
  existsb (fun t => abbreviates t (py o)) (options_zone args).
Arguments mentions o%_string args.

(** A table that knows ASCII only: enough to evaluate on ASCII input. *)
Definition ascii_only : unicode_data :=
  {| ucd_upper := fun c => [c]; ucd_decimal := fun _ => false |}.

(** In the parser [p] the long option [o] is the only action that stores
    into the attribute [d], and [--] alone abbreviates no option because
    the parser has two long options or more. *)
Definition sets_only (p : parser) (o : str) (d : string) : bool :=
  forallb (fun a =>
             match dest a with
             | Some d' =>
                 if String.eqb d' d
                 then match option_strings a with
                      | [o'] => str_eqb o' o
                      | _ => false
                      end
                 else true
             | None => true
             end) (actions p)
  && (2 <=? length (filter (fun oa => startswith (fst oa) (py "--"))
                           (option_string_actions p)))
  && startswith o (py "--")
  && (2 <? length o)
  && negb (contains 61 o).

(** Every action of [p] that stores into the attribute [d] satisfies
    [ok]. *)
Definition stores_into (d : string) (a : action) : bool :=
  match dest a with
  | Some d' => String.eqb d' d
  | None => false
  end.
Arguments stores_into d%_string a.

Definition every_action_into (p : parser) (d : string)
           (ok : action -> bool) : bool :=
  forallb (fun a => if stores_into d a then ok a else true) (actions p).
Arguments every_action_into p d%_string ok.

Definition is_store_true (a : action) : bool :=
  match cls a with StoreTrueAction => true | _ => false end.

Definition is_store_one_of (c : list str) (a : action) : bool :=
  match cls a, nargs a, choices a with
  | StoreAction, NargsNone, Some c' =>
      forallb (fun x => str_in x c) c'
  | _, _, _ => false
  end.

Definition is_one_or_more (a : action) : bool :=
  match cls a, nargs a, option_strings a with
  | StoreAction, ONE_OR_MORE, [] => true
  | _, _, _ => false
  end.

Definition no_parser_action (p : parser) : bool :=
  forallb (fun a => match nargs a, cls a with
                    | PARSER, _ => false
                    | _, SubParsersAction => false
                    | _, _ => true
                    end) (actions p).

(** An action that has a one-letter option. *)
Definition short_option (p : parser) (ia : iaction) : Prop :=
  exists o, length o = 2 /\ lookup o (option_string_actions p) = Some ia.

(** The actions that can be taken while the argument strings [toks] are
    consumed with the positional [pos] pending: the positional, the
    actions of the options among [toks], and those of the one-letter
    options, which can ride on another one-letter option. *)
Definition fires (p : parser) (toks : list token) (pos : option iaction)
           (ia : iaction) : Prop :=
  pos = Some ia
  \/ (exists s os e, In (s, PO (OptionTuple (Some ia) os e)) toks)
  \/ short_option p ia.

(** After the first [--] every string is an argument; before it, no
    argument is the string [--] itself. *)
Fixpoint well_formed (toks : list token) : bool :=
  match toks with
  | [] => true
  | (s, PA) :: r => negb (str_eqb s (py "--")) && well_formed r
  | (_, PO _) :: r => well_formed r
  | (_, PDash) :: r => forallb is_PA r
  end.

(** ** Proof steps *)

(* ================================================================= *)
(** ** Notions used for whole command lines *)

(** The first argument of a call, the path of the configuration file. *)
Definition call_config (c : db_actions_call) : value :=
  match c with
  | Call_create_database cfg _ _ => cfg
  | Call_drop_daily cfg _ _ => cfg
  | Call_rebuild_daily cfg _ _ _ _ _ => cfg
  | Call_add_column cfg _ _ _ _ => cfg
  | Call_rename_column cfg _ _ _ _ => cfg
  | Call_drop_columns cfg _ _ _ => cfg
  end.

(** [--flag] when the flag is given, no argument string otherwise. *)
Definition flag_arg (flag : string) (b : bool) : list str :=
  if b then [py flag] else [].
Arguments flag_arg flag%_string b.

(** The binding of the namespace: the one given, ['wx_binding']
    otherwise. *)
Definition binding_value (b : option str) : value :=
  match b with
  | Some s => VStr s
  | None => VStr (py "wx_binding")
  end.

(** The column type that stands for a spelling: ['REAL'] for the two
    spellings of it, ['INTEGER'] for the others. *)
Definition normalized_type (t : str) : str :=
  if str_in t [py "REAL"; py "real"] then py "REAL" else py "INTEGER".

(** Every [--] among the tokens is the string [--]. *)
Definition dash_strings (toks : list token) : bool :=
  forallb (fun t => match snd t with
                    | PDash => str_eqb (fst t) (py "--")
                    | _ => true
                    end) toks.

(** A positional that stores one argument string as it is. *)
Definition is_one_argument (a : action) : bool :=
  match cls a, nargs a, option_strings a, choices a with
  | StoreAction, NargsNone, [], None => true
  | _, _, _, _ => false
  end.

(** Once the action [ia] has been taken, the attribute [d] holds one of
    the strings [args]. *)
Definition argument_taken (ia : iaction) (d : string) (args : list str)
           (st : state) : Prop :=
  In (fst ia) (seen_actions st) ->
  exists s, In s args /\ getattr (st_namespace st) d = Some (VStr s).

(** A long option that the parser [p] does not have: the string starts
    with [--], holds no [=] and no space, and starts no option string of
    [p]. *)
Definition unknown_option (p : parser) (s : str) : bool :=
  startswith s (py "--")
  && (2 <? length s)
  && negb (contains 61 s)
  && negb (contains 32 s)
  && forallb (fun oa => negb (startswith (fst oa) s))
             (option_string_actions p).

(* ================================================================= *)
(** ** Options as an invocation gives them *)

(** One option of an invocation: [--option=VALUE] in one argument
    string, [--option VALUE] in two, or a flag [--option]. *)
Inductive setting :=
| Assigned (o v : str)
| Followed (o v : str)
| Switched (o : str).

Definition setting_option (s : setting) : str :=
  match s with
  | Assigned o _ | Followed o _ | Switched o => o
  end.

Definition setting_args (s : setting) : list str :=
  match s with
  | Assigned o v => [o ++ 61%N :: v]
  | Followed o v => [o; v]
  | Switched o => [o]
  end.

Definition settings_args (ss : list setting) : list str :=
  flat_map setting_args ss.

(** What the action of a setting stores. *)
Definition setting_value (s : setting) : value :=
  match s with
  | Assigned _ v | Followed _ v => VStr v
  | Switched _ => VBool true
  end.

Definition is_store_one (a : action) : bool :=
  match cls a, nargs a with
  | StoreAction, NargsNone => true
  | _, _ => false
  end.

Definition is_flag (a : action) : bool :=
  match cls a, nargs a with
  | StoreTrueAction, NargsZero => true
  | _, _ => false
  end.

Definition choice_ok (a : action) (v : str) : bool :=
  match choices a with
  | Some c => str_in v c
  | None => true
  end.

(** The parser [p] takes the setting [s] as it stands: its option is an
    option string of [p], written in full; a value is for an option that
    stores one argument, is one of its choices, and is not the string
    [--] after the [=] nor a string that starts with a dash when it
    follows the option; a flag is for a [store_true] option. *)
Definition accepts (p : parser) (s : setting) : bool :=
  match lookup (setting_option s) (option_string_actions p) with
  | Some ia =>
      negb (plain (setting_option s))
      && negb (str_eqb (setting_option s) (py "--"))
      && negb (contains 61 (setting_option s))
      && match s with
         | Assigned _ v =>
             is_store_one (snd ia) && negb (str_eqb v (py "--"))
             && choice_ok (snd ia) v
         | Followed _ v =>
             is_store_one (snd ia) && plain v && choice_ok (snd ia) v
         | Switched _ => is_flag (snd ia)
         end
  | None => false
  end.

(** No option string of the parser holds an [=]. *)
Definition no_equals (p : parser) : bool :=
  forallb (fun oa => negb (contains 61 (fst oa))) (option_string_actions p).

(** The tokens of a setting. *)
Definition setting_tokens (p : parser) (s : setting) : list token :=
  match lookup (setting_option s) (option_string_actions p) with
  | Some ia =>
      match s with
      | Assigned o v =>
          [(o ++ 61%N :: v, PO (OptionTuple (Some ia) o (Some v)))]
      | Followed o v => [(o, PO (OptionTuple (Some ia) o None)); (v, PA)]
      | Switched o => [(o, PO (OptionTuple (Some ia) o None))]
      end
  | None => []
  end.

Definition settings_tokens (p : parser) (ss : list setting) : list token :=
  flat_map (setting_tokens p) ss.

(** The state once the action of a setting has been taken. *)
Definition take_setting (p : parser) (st : state) (s : setting) : state :=
  match lookup (setting_option s) (option_string_actions p) with
  | Some ia =>
      with_namespace (with_seen st (fst ia))
                     (set_dest (snd ia) (st_namespace st) (setting_value s))
  | None => st
  end.

Definition take_settings (p : parser) (st : state) (ss : list setting)
  : state :=
  fold_left (take_setting p) ss st.

(** The value of the attribute [d] after the settings [ss]: what the
    last setting that stores into [d] stores, [v] when there is none. *)
Definition given (p : parser) (d : string) (ss : list setting) (v : value)
  : value :=
  fold_left (fun acc s =>
               match lookup (setting_option s) (option_string_actions p) with
               | Some ia =>
                   if stores_into d (snd ia) then setting_value s else acc
               | None => acc
               end) ss v.
Arguments given p d%_string ss v.

(** Some setting of [ss] is for the option [o]. *)
Definition sets (o : string) (ss : list setting) : bool :=
  existsb (fun s => str_eqb (setting_option s) (py o)) ss.
Arguments sets o%_string ss.

(** The positional [a] takes the words [names]: one word, or one word at
    least for [nargs='+']. *)
Definition takes_names (a : action) (names : list str) : bool :=
  match cls a, option_strings a, choices a with
  | StoreAction, [], None =>
      match nargs a with
      | NargsNone => length names =? 1
      | ONE_OR_MORE => 1 <=? length names
      | _ => false
      end
  | _, _, _ => false
  end.

(** What the positional stores for them. *)
Definition names_value (a : action) (names : list str) : value :=
  match nargs a, names with
  | NargsNone, [x] => VStr x
  | _, _ => VList names
  end.

(** The state once a positional has taken its words. *)
Definition take_names (st : state) (ia : iaction) (names : list str)
  : state :=
  without_positionals
    (with_namespace (with_seen st (fst ia))
                    (set_dest (snd ia) (st_namespace st)
                              (names_value (snd ia) names))).

(** Once the action [ia] has been taken, the attribute [d] holds a list
    that is not empty and is made of the strings [args]. *)
Definition names_given (ia : iaction) (d : string) (args : list str)
           (st : state) : Prop :=
  In (fst ia) (seen_actions st) ->
  exists l, l <> [] /\ (forall x, In x l -> In x args)
            /\ getattr (st_namespace st) d = Some (VList l).

Ltac inv_bind H :=
  match type of H with
  | bind ?r _ = Ok _ =>
      let E := fresh "E" in
      destruct r eqn:E; simpl in H; [|discriminate H]
  end.

Ltac letters := unfold is_PA, is_PDash, is_PO in *; simpl in *.
(* ================================================================= *)
(** * Properties *)

(** ** Strings and namespaces *)

Lemma str_eqb_eq (s t : str) : str_eqb s t = true <-> s = t.
Proof.
  revert t; induction s as [|a s IH]; intros [|b t]; simpl;
    try (split; [discriminate|discriminate]); try tauto.
  rewrite andb_true_iff, N.eqb_eq, IH.
  split; [intros [-> ->]; reflexivity | intros H; inversion H; auto].
Qed.

Lemma str_eqb_refl (s : str) : str_eqb s s = true.
Proof. apply str_eqb_eq; reflexivity. Qed.

Lemma str_eqb_neq (s t : str) : str_eqb s t = false <-> s <> t.
Proof.
  rewrite <- str_eqb_eq. destruct (str_eqb s t); split; congruence.
Qed.

Lemma str_in_In (x : str) (l : list str) : str_in x l = true <-> In x l.
Proof.
  unfold str_in. rewrite existsb_exists. split.
  - intros (y & Hy & E). apply str_eqb_eq in E. subst; assumption.
  - intros H. exists x. split; [assumption | apply str_eqb_refl].
Qed.

Lemma lookup_In {A : Type} (k : str) (d : list (str * A)) (v : A) :
  lookup k d = Some v -> In (k, v) d.
Proof.
  induction d as [|[k' w] d IH]; simpl; [discriminate|].
  destruct (str_eqb k' k) eqn:E.
  - apply str_eqb_eq in E. intros [= ->]. subst. left; reflexivity.
  - intros H. right. apply IH, H.
Qed.

Lemma getattr_setattr_eq (ns : namespace) (k : string) (v : value) :
  getattr (setattr ns k v) k = Some v.
Proof.
  induction ns as [|[k' w] ns IH]; simpl.
  - rewrite String.eqb_refl. reflexivity.
  - destruct (String.eqb k' k) eqn:E; simpl; rewrite E; auto.
Qed.

Lemma getattr_setattr_neq (ns : namespace) (k k' : string) (v : value) :
  k <> k' -> getattr (setattr ns k v) k' = getattr ns k'.
Proof.
  intros Hne. induction ns as [|[k0 w] ns IH]; simpl.
  - destruct (String.eqb k k') eqn:E; [apply String.eqb_eq in E; congruence|].
    reflexivity.
  - destruct (String.eqb k0 k) eqn:E; simpl.
    + apply String.eqb_eq in E. subst k0.
      destruct (String.eqb k k') eqn:E'; [|reflexivity].
      apply String.eqb_eq in E'. congruence.
    + rewrite IH. reflexivity.
Qed.

Lemma setattr_keys (ns : namespace) (k : string) (v : value) :
  map fst (setattr ns k v)
  = if hasattr ns k then map fst ns else map fst ns ++ [k].
Proof.
  unfold hasattr. induction ns as [|[k' w] ns IH]; simpl; [reflexivity|].
  destruct (String.eqb k' k) eqn:E; simpl; [reflexivity|].
  rewrite IH. destruct (getattr ns k); reflexivity.
Qed.

Lemma hasattr_In (ns : namespace) (k : string) :
  hasattr ns k = true <-> In k (map fst ns).
Proof.
  unfold hasattr. induction ns as [|[k' w] ns IH]; simpl.
  - split; [discriminate | tauto].
  - destruct (String.eqb k' k) eqn:E.
    + apply String.eqb_eq in E. split; auto.
    + apply String.eqb_neq in E. rewrite IH. split; [auto | intros [H|H]; congruence].
Qed.

Lemma setattr_NoDup (ns : namespace) (k : string) (v : value) :
  NoDup (map fst ns) -> NoDup (map fst (setattr ns k v)).
Proof.
  intros H. rewrite setattr_keys. destruct (hasattr ns k) eqn:E; [assumption|].
  apply NoDup_app; [assumption | repeat constructor; simpl; tauto |].
  intros x Hx [<-|[]]. apply hasattr_In in Hx. congruence.
Qed.

Lemma update_NoDup (sub ns : namespace) :
  NoDup (map fst ns) -> NoDup (map fst (update ns sub)).
Proof.
  unfold update. revert ns.
  induction sub as [|[k v] sub IH]; simpl; intros ns H; [assumption|].
  apply IH, setattr_NoDup, H.
Qed.

Lemma getattr_update (sub ns : namespace) (k : string) :
  NoDup (map fst sub) ->
  getattr (update ns sub) k
  = match getattr sub k with Some v => Some v | None => getattr ns k end.
Proof.
  unfold update. revert ns.
  induction sub as [|[k' v] sub IH]; simpl; intros ns Hnd; [reflexivity|].
  inversion Hnd as [|? ? Hnotin Hnd']; subst.
  rewrite (IH _ Hnd').
  destruct (String.eqb k' k) eqn:E.
  - apply String.eqb_eq in E. subst k'.
    destruct (getattr sub k) eqn:G.
    + exfalso. apply Hnotin, hasattr_In. unfold hasattr. rewrite G. reflexivity.
    + apply getattr_setattr_eq.
  - apply String.eqb_neq in E.
    destruct (getattr sub k); [reflexivity|].
    apply getattr_setattr_neq, E.
Qed.

(** ** Matching the argument pattern *)

Lemma count_while_le {A : Type} (f : A -> bool) (l : list A) :
  count_while f l <= length l.
Proof.
  induction l as [|x l IH]; simpl; [lia|]. destruct (f x); simpl; lia.
Qed.

Lemma count_while_firstn {A : Type} (f : A -> bool) (l : list A) :
  forallb f (firstn (count_while f l) l) = true.
Proof.
  induction l as [|x l IH]; simpl; [reflexivity|].
  destruct (f x) eqn:E; simpl; [rewrite E, IH|]; reflexivity.
Qed.

Lemma count_while_all {A : Type} (f : A -> bool) (l : list A) :
  forallb f l = true -> count_while f l = length l.
Proof.
  induction l as [|x l IH]; simpl; [reflexivity|].
  destruct (f x); simpl; [intros H; rewrite IH; auto | discriminate].
Qed.

Lemma forallb_weaken {A : Type} (f g : A -> bool) (l : list A) :
  (forall x, f x = true -> g x = true) ->
  forallb f l = true -> forallb g l = true.
Proof.
  intros Hfg. rewrite !forallb_forall. auto.
Qed.

Lemma In_firstn {A : Type} (n : nat) (l : list A) (x : A) :
  In x (firstn n l) -> In x l.
Proof.
  revert l; induction n as [|n IH]; intros [|y l]; simpl; try tauto.
  intros [H|H]; [left; assumption | right; apply IH, H].
Qed.

Lemma In_skipn {A : Type} (n : nat) (l : list A) (x : A) :
  In x (skipn n l) -> In x l.
Proof.
  revert l; induction n as [|n IH]; intros [|y l]; simpl; try tauto.
  intros H. right. apply IH, H.
Qed.

Lemma In_firstn_skipn {A : Type} (n : nat) (l : list A) (x : A) :
  In x l -> In x (firstn n l) \/ In x (skipn n l).
Proof.
  intros H. rewrite <- (firstn_skipn n l) in H. apply in_app_or, H.
Qed.

Lemma forallb_firstn {A : Type} (f : A -> bool) (n : nat) (l : list A) :
  forallb f l = true -> forallb f (firstn n l) = true.
Proof.
  rewrite !forallb_forall. intros H x Hx. apply H.
  eapply In_firstn; eassumption.
Qed.

Lemma firstn_add_forallb {A : Type} (f : A -> bool) (d m : nat) (l : list A) :
  forallb f (firstn d l) = true ->
  forallb f (firstn m (skipn d l)) = true ->
  forallb f (firstn (d + m) l) = true.
Proof.
  revert l; induction d as [|d IH]; intros l; simpl; [auto|].
  destruct l as [|x l]; simpl; [auto|].
  rewrite !andb_true_iff. intros [Hx Hd] Hm. split; [assumption|].
  apply IH; assumption.
Qed.

Lemma match_nargs_le (a : action) (toks : list token) (n : nat) :
  match_nargs a toks = Some n -> n <= length toks.
Proof.
  unfold match_nargs.
  set (d := if negb (is_positional a) then 0 else count_while is_PDash toks).
  assert (Hd : d <= length toks).
  { subst d. destruct (negb (is_positional a)); [lia | apply count_while_le]. }
  assert (Hs : length (skipn d toks) = length toks - d) by apply length_skipn.
  destruct (nargs a); destruct (skipn d toks) as [|t r] eqn:Es; simpl in Hs;
    try discriminate; try (intros [= <-]; lia);
    (destruct (is_PA t); [|discriminate]); intros [= <-].
  - destruct (negb (is_positional a)); [lia|].
    pose proof (count_while_le is_PDash r). lia.
  - pose proof (count_while_le
                  (fun t => is_PA t || (negb (negb (is_positional a)) && is_PDash t)) r).
    lia.
  - destruct (negb (is_positional a)); [|lia].
    pose proof (count_while_le (fun t => is_PA t || is_PO t) r). lia.
Qed.

(** An option never takes the [--] among its arguments. *)
Lemma match_nargs_optional_no_dash (a : action) (toks : list token) (n : nat) :
  is_positional a = false ->
  match_nargs a toks = Some n ->
  forallb (fun t => negb (is_PDash t)) (firstn n toks) = true.
Proof.
  unfold match_nargs. intros ->. simpl.
  destruct (nargs a); destruct toks as [|t r]; simpl;
    try discriminate; try (intros [= <-]; reflexivity);
    (destruct (is_PA t) eqn:Et; [|discriminate]); intros [= <-]; simpl;
    (assert (Ht : negb (is_PDash t) = true)
      by (destruct t as [s []]; letters; congruence)); rewrite Ht; simpl.
  - destruct r; reflexivity.
  - eapply forallb_weaken; [|apply count_while_firstn].
    intros [s []]; letters; auto.
  - eapply forallb_weaken; [|apply count_while_firstn].
    intros [s []]; letters; auto.
Qed.

(** Only the sub-parser action takes options among its arguments. *)
Lemma match_nargs_no_option (a : action) (toks : list token) (n : nat) :
  nargs a <> PARSER ->
  match_nargs a toks = Some n ->
  forallb (fun t => negb (is_PO t)) (firstn n toks) = true.
Proof.
  unfold match_nargs. intros Hn.
  set (d := if negb (is_positional a) then 0 else count_while is_PDash toks).
  assert (Hd : forallb (fun t => negb (is_PO t)) (firstn d toks) = true).
  { subst d. destruct (negb (is_positional a)); [reflexivity|].
    eapply forallb_weaken; [|apply count_while_firstn].
    intros [s []]; letters; auto. }
  destruct (nargs a); try congruence;
    destruct (skipn d toks) as [|t r] eqn:Es;
    try discriminate;
    try (intros [= <-]; assumption);
    (destruct (is_PA t) eqn:Et; [|discriminate]); intros [= <-];
    rewrite <- Nat.add_assoc; apply firstn_add_forallb; try assumption;
    rewrite Es; simpl;
    (assert (Ht : negb (is_PO t) = true)
      by (destruct t as [s []]; letters; congruence)); rewrite Ht; simpl.
  - destruct (negb (is_positional a)); simpl.
    + destruct r; reflexivity.
    + eapply forallb_weaken; [|apply count_while_firstn].
      intros [s []]; letters; auto.
  - eapply forallb_weaken; [|apply count_while_firstn].
    intros [s []]; letters; try discriminate; auto.
    destruct (negb (negb (is_positional a))); discriminate.
Qed.

(** ** Consuming an option *)

Section Consumption.
Variable npm : list (str * subparser).
Variable p : parser.

Lemma take_actions_app (st : state) (l1 l2 : list (iaction * list str)) :
  take_actions npm st (l1 ++ l2)
  = (st' <- take_actions npm st l1 ;; take_actions npm st' l2).
Proof.
  revert st; induction l1 as [|[ia args] l1 IH]; intros st; simpl;
    [reflexivity|].
  destruct (take_action npm st ia args); simpl; [apply IH | reflexivity].
Qed.

(** What the loop over an explicit argument gathers: the option's own
    action first, then actions of one-letter options. *)
Lemma explicit_loop_inv (e : str) :
  forall ia os acc tuples pending,
    explicit_loop p ia os e acc = Ok (tuples, pending) ->
    exists args new,
      tuples = acc ++ (ia, args) :: new
      /\ (forall ia' args', In (ia', args') new -> short_option p ia')
      /\ match pending with
         | Some ia' => short_option p ia'
         | None => True
         end.
Proof.
  induction e as [|c e IH]; intros ia os acc tuples pending; simpl.
  - destruct (match_nargs _ _) as [n|]; [|simpl; intros; discriminate].
    destruct (n =? 1); [|simpl; intros; discriminate].
    intros [= <- <-]. exists [[]], []. simpl. repeat split; auto; intros; contradiction.
  - destruct (match_nargs _ _) as [n|]; [|simpl; intros; discriminate].
    destruct ((n =? 0) && negb (N.eqb (nth 1 os 0%N) 45)).
    + destruct (lookup [hd 45%N os; c] (option_string_actions p))
        as [ia'|] eqn:L; [|simpl; intros; discriminate].
      assert (Hs : short_option p ia') by (exists [hd 45%N os; c]; auto).
      destruct e as [|c' e'].
      * intros [= <- <-]. exists [], []. simpl. repeat split; auto; intros; contradiction.
      * intros H. apply IH in H.
        destruct H as (args & new & -> & Hnew & Hp).
        exists [], ((ia', args) :: new). rewrite <- app_assoc. simpl.
        split; [reflexivity|]. split; [|assumption].
        intros ia2 a2 [[= <- <-]|H]; [assumption | eapply Hnew, H].
    + destruct (n =? 1); [|simpl; intros; discriminate].
      intros [= <- <-]. exists [c :: e], []. simpl. repeat split; auto; intros; contradiction.
Qed.

(** Consuming a known option: the actions taken start with the action
    of the option, any other rides on a one-letter option; the strings
    used after the option are arguments matched by one of them. *)
Lemma consume_optional_inv (st st' : state) (s os : str) (ia : iaction)
      (e : option str) (fol : list token) (stop : nat) :
  consume_optional npm p st ((s, PO (OptionTuple (Some ia) os e)) :: fol)
  = Ok (st', stop) ->
  exists args tuples n,
    take_actions npm st ((ia, args) :: tuples) = Ok st'
    /\ stop = S n
    /\ (forall ia' args', In (ia', args') tuples -> short_option p ia')
    /\ (n = 0 \/ exists ia', (ia' = ia \/ short_option p ia')
                            /\ match_nargs (snd ia') fol = Some n).
Proof.
  unfold consume_optional. intros H.
  destruct e as [e|].
  - inv_bind H. destruct a as [tuples pending].
    apply explicit_loop_inv in E.
    destruct E as (args & new & -> & Hnew & Hp). simpl in *.
    destruct pending as [ia'|]; simpl in H.
    + unfold match_argument in H.
      destruct (match_nargs (snd ia') fol) as [n|] eqn:M; simpl in H;
        [|simpl; intros; discriminate].
      inv_bind H. injection H as <- <-.
      exists args, (new ++ [(ia', map fst (firstn n fol))]), n.
      split; [assumption|]. split; [reflexivity|]. split.
      * intros ia2 a2 Hin. apply in_app_or in Hin.
        destruct Hin as [Hin|[[= <- <-]|[]]]; [eapply Hnew, Hin | assumption].
      * right. exists ia'. auto.
    + inv_bind H. injection H as <- <-.
      exists args, new, 0. repeat split; auto.
  - simpl in H. unfold match_argument in H.
    destruct (match_nargs (snd ia) fol) as [n|] eqn:M; simpl in H;
      [|simpl; intros; discriminate].
    inv_bind H. injection H as <- <-.
    exists (map fst (firstn n fol)), [], n.
    split; [assumption|]. split; [reflexivity|]. split; [intros ? ? []|].
    right. exists ia. auto.
Qed.
End Consumption.

(** ** Invariants of the parsing loop *)

Lemma take_action_frame (npm : list (str * subparser)) (st st' : state)
      (ia : iaction) (args : list str) :
  take_action npm st ia args = Ok st' ->
  positionals st' = positionals st
  /\ extras st' = extras st
  /\ seen_actions st' = fst ia :: seen_actions st.
Proof.
  unfold take_action, call_action. intros H. inv_bind H.
  destruct (cls (snd ia)); try discriminate;
    try (injection H as <-; simpl; auto).
  destruct a as [| | |[|parser_name arg_strings]|]; try discriminate.
  destruct (lookup parser_name npm); [|discriminate].
  inv_bind H. destruct a as [subns ex]. injection H as <-. simpl. auto.
Qed.

Lemma take_actions_frame (npm : list (str * subparser))
      (l : list (iaction * list str)) (st st' : state) :
  take_actions npm st l = Ok st' ->
  positionals st' = positionals st /\ extras st' = extras st.
Proof.
  revert st; induction l as [|[ia args] l IH]; intros st; simpl.
  - intros [= <-]. auto.
  - intros H. inv_bind H. apply take_action_frame in E.
    apply IH in H. destruct E as (E1 & E2 & _). destruct H as (H1 & H2).
    split; congruence.
Qed.

Lemma first_option (toks : list token) :
  existsb is_PO toks = true ->
  exists s t fol,
    skipn (count_while (fun t => negb (is_PO t)) toks) toks = (s, PO t) :: fol.
Proof.
  induction toks as [|[s pat] toks IH]; simpl; [discriminate|].
  destruct pat; letters; auto. intros _. eauto.
Qed.

Lemma no_option_count (toks : list token) :
  existsb is_PO toks = false ->
  count_while (fun t => negb (is_PO t)) toks = length toks.
Proof.
  induction toks as [|[s pat] toks IH]; simpl; [reflexivity|].
  destruct pat; letters; try discriminate; intros H; rewrite IH; auto.
Qed.

Lemma no_option_skipn (n : nat) (toks : list token) :
  existsb is_PO toks = false -> existsb is_PO (skipn n toks) = false.
Proof.
  intros H. destruct (existsb is_PO (skipn n toks)) eqn:E; [|reflexivity].
  apply existsb_exists in E. destruct E as (x & Hx & Px).
  assert (existsb is_PO toks = true); [|congruence].
  apply existsb_exists. exists x. split; [eapply In_skipn, Hx | assumption].
Qed.

Section Loop.
Variable npm : list (str * subparser).
Variable p : parser.

Lemma parse_loop_rest (bound : nat) :
  forall st toks st' rest,
    parse_loop npm p bound st toks = Ok (st', rest) ->
    existsb is_PO rest = false.
Proof.
  induction bound as [|bound IH]; intros st toks st' rest; simpl;
    destruct (existsb is_PO toks) eqn:E; simpl;
    try (intros [= <- <-]; assumption); try discriminate.
  intros H. inv_bind H. destruct a as [st1 consumed].
  destruct (0 <? consumed); [eapply IH, H|].
  inv_bind H. destruct a as [st2 stop]. eapply IH, H.
Qed.

(** The induction principle of the loop, for a property of the state
    and of the argument strings still to be consumed. *)
Section LoopInvariant.
Variable I : state -> list token -> Prop.

Hypothesis Hpos : forall st toks ia n st',
    I st toks ->
    positionals st = Some ia ->
    match_nargs (snd ia) toks = Some n ->
    take_action npm st ia (map fst (firstn n toks)) = Ok st' ->
    I (without_positionals st') (skipn n toks).

Hypothesis Hext : forall st toks k,
    I st toks ->
    k = count_while (fun t => negb (is_PO t)) toks ->
    I (with_extras st (map fst (firstn k toks))) (skipn k toks).

Hypothesis Hopt : forall st st' s t fol stop,
    I st ((s, PO t) :: fol) ->
    consume_optional npm p st ((s, PO t) :: fol) = Ok (st', stop) ->
    I st' (skipn stop ((s, PO t) :: fol)).

Lemma consume_positionals_inv (st st' : state) (toks : list token)
      (n : nat) :
  I st toks ->
  consume_positionals npm st toks = Ok (st', n) ->
  I st' (skipn n toks).
Proof.
  unfold consume_positionals. intros HI.
  destruct (positionals st) as [ia|] eqn:P;
    [|intros [= <- <-]; assumption].
  destruct (match_nargs (snd ia) toks) as [m|] eqn:M;
    [|intros [= <- <-]; assumption].
  intros H. inv_bind H. injection H as <- <-.
  eapply Hpos; eassumption.
Qed.

Lemma parse_loop_inv (bound : nat) :
  forall st toks st' rest,
    I st toks ->
    parse_loop npm p bound st toks = Ok (st', rest) ->
    I st' rest.
Proof.
  induction bound as [|bound IH]; intros st toks st' rest HI; simpl;
    destruct (existsb is_PO toks) eqn:E; simpl;
    try (intros [= <- <-]; assumption); try discriminate.
  intros H. inv_bind H. destruct a as [st1 consumed].
  assert (H1 : I st1 (skipn consumed toks)).
  { destruct (count_while (fun t => negb (is_PO t)) toks =? 0).
    - injection E0 as <- <-. assumption.
    - eapply consume_positionals_inv; eassumption. }
  destruct (0 <? consumed) eqn:C; [eapply IH; eassumption|].
  apply Nat.ltb_ge in C. assert (consumed = 0) by lia. subst consumed.
  simpl in H1.
  inv_bind H. destruct a as [st2 stop].
  destruct (first_option toks E) as (s & t & fol & Es).
  rewrite Es in *.
  eapply IH; [|eassumption].
  eapply Hopt; [|eassumption].
  rewrite <- Es. apply Hext; auto.
Qed.

Lemma consume_all_inv (toks : list token) (st : state) :
  I (initial_state p) toks ->
  consume_all npm p toks = Ok st ->
  I st [].
Proof.
  unfold consume_all. intros HI H.
  inv_bind H. destruct a as [st1 rest].
  inv_bind H. destruct a as [st2 n]. injection H as <-.
  pose proof E as Hrest. apply parse_loop_rest in Hrest.
  eapply parse_loop_inv in E; [|eassumption].
  eapply consume_positionals_inv in E0; [|eassumption].
  eapply Hext in E0; [|reflexivity].
  rewrite (@no_option_count (skipn n rest)) in E0
    by (apply no_option_skipn, Hrest).
  rewrite firstn_all, skipn_all in E0. assumption.
Qed.
End LoopInvariant.
End Loop.

Lemma fires_skipn (p : parser) (n : nat) (toks : list token)
      (pos : option iaction) (ia : iaction) :
  fires p (skipn n toks) pos ia -> fires p toks pos ia.
Proof.
  intros [H|[(s & os & e & H)|H]]; [left; assumption | | right; right; assumption].
  right; left. exists s, os, e. eapply In_skipn, H.
Qed.

Lemma fires_no_positional (p : parser) (toks : list token)
      (pos : option iaction) (ia : iaction) :
  fires p toks None ia -> fires p toks pos ia.
Proof.
  intros [H|[H|H]]; [discriminate | right; left; assumption
                     | right; right; assumption].
Qed.

Section StateInvariant.
Variable npm : list (str * subparser).
Variable p : parser.

(** A property of the state that every action taken preserves holds
    when the argument strings are used up; [F] bounds the actions that
    have to preserve it. *)
Variable J : state -> Prop.
Variable F : iaction -> Prop.

Hypothesis Htake : forall st ia args st',
    F ia -> J st -> take_action npm st ia args = Ok st' -> J st'.
Hypothesis Hextras : forall st l, J st -> J (with_extras st l).
Hypothesis Hnopos : forall st, J st -> J (without_positionals st).

Lemma take_actions_state (l : list (iaction * list str)) :
  forall st st',
    (forall ia args, In (ia, args) l -> F ia) ->
    J st -> take_actions npm st l = Ok st' -> J st'.
Proof.
  induction l as [|[ia args] l IH]; intros st st' HF HJ; simpl.
  - intros [= <-]. assumption.
  - intros H. inv_bind H. eapply IH; [| |eassumption].
    + intros ia' args' Hin. eapply HF. right. eassumption.
    + eapply Htake; [|eassumption|eassumption]. eapply HF. left. reflexivity.
Qed.

Lemma consume_all_state (toks : list token) (st : state) :
  (forall ia, fires p toks (get_positional_actions p) ia -> F ia) ->
  J (initial_state p) ->
  consume_all npm p toks = Ok st ->
  J st.
Proof.
  intros HF HJ H.
  apply (@consume_all_inv npm p
           (fun st toks =>
              J st /\ forall ia, fires p toks (positionals st) ia -> F ia))
    in H; [tauto | | | | auto].
  - intros st0 toks0 ia n st' [HJ0 HF0] Hp M T. split.
    + apply Hnopos. eapply Htake; [|eassumption|eassumption].
      apply HF0. left. assumption.
    + simpl. intros ia' Hf. apply HF0.
      apply fires_no_positional. eapply fires_skipn, Hf.
  - intros st0 toks0 k [HJ0 HF0] _. split; [apply Hextras, HJ0|].
    simpl. intros ia' Hf. apply HF0. eapply fires_skipn, Hf.
  - intros st0 st' s [a os e] fol stop [HJ0 HF0] C.
    assert (Hsub : forall ia, fires p (skipn stop ((s, PO (OptionTuple a os e)) :: fol))
                               (positionals st0) ia -> F ia).
    { intros ia' Hf. apply HF0. eapply fires_skipn, Hf. }
    destruct a as [ia|].
    + apply consume_optional_inv in C.
      destruct C as (args & tuples & n & T & -> & Hshort & _).
      destruct (take_actions_frame _ _ _ T) as [Hp _].
      rewrite Hp. split; [|assumption].
      eapply take_actions_state; [|eassumption|eassumption].
      intros ia' args' [[= <- <-]|Hin]; apply HF0.
      * right; left. exists s, os, e. left. reflexivity.
      * right; right. eapply Hshort, Hin.
    + simpl in C. injection C as <- <-. split; [apply Hextras, HJ0|].
      simpl. assumption.
Qed.
End StateInvariant.

(** ** Classification of the argument strings *)

Lemma startswith_refl (s : str) : startswith s s = true.
Proof. induction s as [|c s IH]; simpl; [|rewrite N.eqb_refl]; auto. Qed.

Lemma split_eq_prefix (s : str) : startswith s (fst (split_eq s)) = true.
Proof.
  induction s as [|c s IH]; simpl; [reflexivity|].
  destruct (N.eqb c 61); simpl; [reflexivity|].
  destruct (split_eq s) as [a b]. simpl in *. rewrite N.eqb_refl. assumption.
Qed.

Lemma flat_map_filter_length {A B : Type} (c : A -> bool) (g : A -> B)
      (l : list A) :
  length (flat_map (fun x => if c x then [g x] else []) l)
  = length (filter c l).
Proof.
  induction l as [|x l IH]; simpl; [reflexivity|].
  destruct (c x); simpl; rewrite IH; reflexivity.
Qed.

Lemma in_flat_map_if {A B : Type} (c : A -> bool) (g : A -> B)
      (l : list A) (y : B) :
  In y (flat_map (fun x => if c x then [g x] else []) l) ->
  exists x, In x l /\ c x = true /\ y = g x.
Proof.
  rewrite in_flat_map. intros (x & Hx & Hy). exists x.
  destruct (c x); simpl in Hy; [|contradiction].
  destruct Hy as [<-|[]]. auto.
Qed.

Section Classification.
Variable ucd : unicode_data.
Variable p : parser.

Lemma option_string_actions_In (o : str) (ia : iaction) :
  In (o, ia) (option_string_actions p) ->
  In ia (actions_indexed p) /\ In o (option_strings (snd ia)).
Proof.
  unfold option_string_actions. rewrite in_flat_map.
  intros (ia' & Hin & Hm). apply in_map_iff in Hm.
  destruct Hm as (o' & [= <- <-] & Ho). auto.
Qed.

Lemma get_option_tuples_In (s os : str) (a : option iaction)
      (e : option str) :
  In (OptionTuple a os e) (get_option_tuples p s) ->
  exists ia, a = Some ia /\ In (os, ia) (option_string_actions p).
Proof.
  unfold get_option_tuples.
  destruct s as [|c0 [|c1 r]]; try (intros []).
  destruct (N.eqb c1 45); intros H;
    apply in_flat_map in H; destruct H as ([o ia] & Hin & H);
    cbn [fst snd] in H.
  - destruct (startswith o _); [|contradiction].
    destruct H as [[= <- <- <-]|[]]; eauto.
  - destruct (str_eqb o _).
    + destruct H as [[= <- <- <-]|[]]; eauto.
    + destruct (startswith o _); [|contradiction].
      destruct H as [[= <- <- <-]|[]]; eauto.
Qed.

(** Whatever [_parse_optional] finds is an entry of
    [_option_string_actions]. *)
Lemma parse_optional_In (s os : str) (ia : iaction) (e : option str) :
  parse_optional ucd p s = Ok (Some (OptionTuple (Some ia) os e)) ->
  In (os, ia) (option_string_actions p).
Proof.
  unfold parse_optional. destruct s as [|c0 r]; [discriminate|].
  destruct (negb (N.eqb c0 45)); [discriminate|].
  destruct (lookup (c0 :: r) (option_string_actions p)) as [a|] eqn:L.
  { intros [= <- <- <-]. apply lookup_In, L. }
  destruct (length (c0 :: r) =? 1); [discriminate|].
  destruct (if contains 61 (c0 :: r) then _ else _) as [a|] eqn:L2.
  { intros [= <- <- <-].
    destruct (contains 61 (c0 :: r)); [|discriminate]. apply lookup_In, L2. }
  destruct (get_option_tuples p (c0 :: r)) as [|t [|t' l]] eqn:G.
  - destruct (_ && _); [discriminate|].
    destruct (contains 32 _); discriminate.
  - intros [= ->].
    assert (Hin : In (OptionTuple (Some ia) os e) (get_option_tuples p (c0 :: r)))
      by (rewrite G; left; reflexivity).
    apply get_option_tuples_In in Hin. destruct Hin as (ia' & [= <-] & H).
    assumption.
  - discriminate.
Qed.

Lemma option_part_dashes (r : str) :
  exists q, option_part (45%N :: 45%N :: r) = 45%N :: 45%N :: q.
Proof.
  unfold option_part.
  destruct (contains 61 (45%N :: 45%N :: r)); [|eauto].
  cbn [split_eq]. change (N.eqb 45 61) with false. cbn iota.
  destruct (split_eq r). cbn [fst]. eauto.
Qed.

Section LongOption.
Variables (os : str) (ia : iaction) (e : option str).
Hypothesis Hlong :
  2 <= length (filter (fun oa => startswith (fst oa) (py "--"))
                      (option_string_actions p)).
Hypothesis Hos : startswith os (py "--") = true.
Hypothesis Hlen : (2 <? length os) = true.
Hypothesis Hne : contains 61 os = false.

Lemma get_option_tuples_abbreviates (r : str) :
  get_option_tuples p (45%N :: r) = [OptionTuple (Some ia) os e] ->
  abbreviates (45%N :: r) os = true.
Proof.
  intros G.
  assert (Hin : In (OptionTuple (Some ia) os e)
                   (get_option_tuples p (45%N :: r)))
    by (rewrite G; left; reflexivity).
  unfold get_option_tuples in G, Hin.
  destruct r as [|c1 r]; [destruct Hin|].
  destruct (N.eqb c1 45) eqn:C1.
  - apply N.eqb_eq in C1. subst c1. unfold abbreviates.
    apply in_flat_map_if in Hin.
    destruct Hin as (oa & _ & Hsw & [= _ -> _]).
    rewrite Hsw, andb_true_r. apply Nat.ltb_lt.
    destruct (option_part_dashes r) as ([|d q] & Ep); rewrite Ep in *;
      [|simpl; lia].
    exfalso. apply (f_equal (@length _)) in G.
    rewrite flat_map_filter_length in G. simpl in G.
    change [45%N; 45%N] with (py "--") in G. lia.
  - exfalso. apply in_flat_map in Hin.
    destruct Hin as ([o ia'] & _ & H). cbn [fst snd] in H.
    assert (Ho : startswith o (py "--") = true -> False).
    { intros Ho. change (py "--") with [45%N; 45%N] in Ho.
      destruct (str_eqb o (firstn 2 (45%N :: c1 :: r))) eqn:E1.
      - apply str_eqb_eq in E1. subst o. simpl in Ho.
        rewrite C1 in Ho. discriminate.
      - destruct (startswith o (45%N :: c1 :: r)) eqn:E2; [|destruct H].
        destruct o as [|o0 [|o1 o']]; simpl in Ho; try discriminate;
          [rewrite andb_false_r in Ho; discriminate|].
        simpl in E2.
        destruct (N.eqb o0 45); [|discriminate].
        destruct (N.eqb o1 45) eqn:O1; [|discriminate].
        apply N.eqb_eq in O1. subst o1.
        rewrite N.eqb_sym, C1 in E2. discriminate. }
    apply Ho.
    destruct (str_eqb o _); [|destruct (startswith o _); [|destruct H]];
      destruct H as [[= _ <- _]|[]]; exact Hos.
Qed.

(** A long option is found only for a string that spells it: in
    full, abbreviated to three characters or more, with or without
    [=value].  Two characters would match every long option at once. *)
Lemma parse_optional_abbreviates (s : str) :
  parse_optional ucd p s = Ok (Some (OptionTuple (Some ia) os e)) ->
  abbreviates s os = true.
Proof.
  unfold parse_optional. destruct s as [|c0 r]; [discriminate|].
  destruct (negb (N.eqb c0 45)) eqn:C0; [discriminate|].
  apply negb_false_iff, N.eqb_eq in C0. subst c0.
  destruct (lookup (45%N :: r) (option_string_actions p)) as [a|] eqn:L.
  { intros [= _ <- _]. unfold abbreviates, option_part.
    rewrite Hne, Hlen, startswith_refl. reflexivity. }
  destruct (length (45%N :: r) =? 1); [discriminate|].
  remember (fst (split_eq (45%N :: r))) as pre eqn:Epre.
  pose proof (get_option_tuples_abbreviates r) as HG.
  destruct (contains 61 (45%N :: r)) eqn:C61.
  - destruct (lookup pre (option_string_actions p)) as [a|] eqn:L2.
    + intros [= _ <- _]. unfold abbreviates, option_part.
      rewrite C61, <- Epre, Hlen, startswith_refl. reflexivity.
    + destruct (get_option_tuples p (45%N :: r)) as [|t [|t' l]];
        [destruct (_ && _); try discriminate;
         destruct (contains 32 _); discriminate | | discriminate].
      intros [= ->]. apply HG. reflexivity.
  - destruct (get_option_tuples p (45%N :: r)) as [|t [|t' l]];
      [destruct (_ && _); try discriminate;
       destruct (contains 32 _); discriminate | | discriminate].
    intros [= ->]. apply HG. reflexivity.
Qed.
End LongOption.

Lemma classify_strings (args : list str) :
  forall toks, classify ucd p args = Ok toks -> map fst toks = args.
Proof.
  induction args as [|a args IH]; intros toks; simpl.
  - intros [= <-]. reflexivity.
  - destruct (str_eqb a (py "--")).
    + intros [= <-]. simpl. f_equal. rewrite map_map. simpl. apply map_id.
    + intros H. inv_bind H. inv_bind H. injection H as <-. simpl.
      f_equal. apply IH. reflexivity.
Qed.

(** An option among the classified strings comes from a string before
    the [--], as [_parse_optional] sees it. *)
Lemma classify_option (args : list str) :
  forall toks s t,
    classify ucd p args = Ok toks ->
    In (s, PO t) toks ->
    In s (options_zone args) /\ parse_optional ucd p s = Ok (Some t).
Proof.
  induction args as [|a args IH]; intros toks s t; simpl.
  - intros [= <-] [].
  - destruct (str_eqb a (py "--")).
    + intros [= <-] [H|H]; [discriminate|].
      apply in_map_iff in H. destruct H as (x & [=] & _).
    + intros H. inv_bind H. inv_bind H. injection H as <-.
      intros [H|H].
      * destruct a0 as [t0|]; [|discriminate].
        injection H as <- <-. split; [left; reflexivity | assumption].
      * destruct (IH _ _ _ eq_refl H). split; [right|]; assumption.
Qed.

(** A string before the [--] that is an option string of the parser is
    classified as that option. *)
Lemma classify_exact (args : list str) :
  forall toks s ia,
    classify ucd p args = Ok toks ->
    In s (options_zone args) ->
    lookup s (option_string_actions p) = Some ia ->
    plain s = false ->
    In (s, PO (OptionTuple (Some ia) s None)) toks.
Proof.
  induction args as [|a args IH]; intros toks s ia; simpl.
  - intros _ [].
  - destruct (str_eqb a (py "--")); [intros _ []|].
    intros H. inv_bind H. inv_bind H. injection H as <-.
    intros [->|Hin] L Hdash.
    + left. unfold parse_optional in E.
      destruct s as [|c0 r]; [discriminate|]. simpl in Hdash.
      rewrite Hdash in E.
      rewrite L in E. injection E as <-. reflexivity.
    + right. eapply IH; eauto.
Qed.

Lemma classify_well_formed (args : list str) :
  forall toks, classify ucd p args = Ok toks -> well_formed toks = true.
Proof.
  induction args as [|a args IH]; intros toks; simpl.
  - intros [= <-]. reflexivity.
  - destruct (str_eqb a (py "--")) eqn:E.
    + intros [= <-]. simpl. apply forallb_forall.
      intros x Hx. apply in_map_iff in Hx. destruct Hx as (y & <- & _).
      reflexivity.
    + intros H. inv_bind H. inv_bind H. injection H as <-.
      destruct a0; simpl; [|rewrite E; simpl]; apply IH; reflexivity.
Qed.
End Classification.

(** ** What an action does to the namespace *)

Lemma getattr_set_dest_other (a : action) (ns : namespace) (v : value)
      (d : string) :
  dest a <> Some d -> getattr (set_dest a ns v) d = getattr ns d.
Proof.
  unfold set_dest. destruct (dest a) as [d'|]; [|reflexivity].
  intros H. apply getattr_setattr_neq. congruence.
Qed.

Lemma getattr_set_dest_same (a : action) (ns : namespace) (v : value)
      (d : string) :
  dest a = Some d -> getattr (set_dest a ns v) d = Some v.
Proof.
  unfold set_dest. intros ->. apply getattr_setattr_eq.
Qed.

(** Without sub-parsers, an action that returns has stored a value: the
    one [_get_values] made of its arguments, or [True]. *)
Lemma take_action_leaf (st st' : state) (ia : iaction) (args : list str) :
  take_action [] st ia args = Ok st' ->
  exists v,
    st_namespace st' = set_dest (snd ia) (st_namespace st) v
    /\ ((cls (snd ia) = StoreAction /\ get_values (snd ia) args = Ok v)
        \/ (cls (snd ia) = StoreTrueAction /\ v = VBool true)).
Proof.
  unfold take_action, call_action. intros H. inv_bind H.
  destruct (cls (snd ia)); try discriminate.
  - injection H as <-. exists a. simpl. auto.
  - injection H as <-. exists (VBool true). simpl. auto.
  - destruct a as [| | |[|parser_name arg_strings]|]; discriminate.
Qed.

Lemma parse_known_args_inv (ucd : unicode_data)
      (npm : list (str * subparser)) (p : parser) (args : list str)
      (ns : namespace) (ex : list str) :
  parse_known_args ucd npm p args = Ok (ns, ex) ->
  exists toks st,
    classify ucd p args = Ok toks
    /\ consume_all npm p toks = Ok st
    /\ missing_required p (seen_actions st) = false
    /\ ns = st_namespace st
    /\ ex = extras st ++ unrecognized_args st.
Proof.
  unfold parse_known_args. intros H. inv_bind H. inv_bind H.
  destruct (missing_required p (seen_actions a0)) eqn:M; [discriminate|].
  injection H as <- <-. eauto 10.
Qed.

(** ** The actions of a parser *)

Lemma actions_indexed_nth (p : parser) (i : nat) (a : action) :
  In (i, a) (actions_indexed p) -> nth_error (actions p) i = Some a.
Proof.
  unfold actions_indexed.
  assert (G : forall l k, In (i, a) (combine (seq k (length l)) l) ->
                          k <= i /\ nth_error l (i - k) = Some a).
  { induction l as [|x l IH]; intros k; simpl; [tauto|].
    intros [[= <- <-]|H].
    - rewrite Nat.sub_diag. auto.
    - apply IH in H. destruct H as [Hle H]. split; [lia|].
      replace (i - k) with (S (i - S k)) by lia. assumption. }
  intros H. apply G in H. rewrite Nat.sub_0_r in H. tauto.
Qed.

Lemma actions_indexed_unique (p : parser) (ia ia' : iaction) :
  In ia (actions_indexed p) -> In ia' (actions_indexed p) ->
  fst ia = fst ia' -> ia = ia'.
Proof.
  destruct ia as [i a], ia' as [i' a']. simpl. intros H H' <-.
  apply actions_indexed_nth in H, H'. congruence.
Qed.

Lemma actions_indexed_action (p : parser) (ia : iaction) :
  In ia (actions_indexed p) -> In (snd ia) (actions p).
Proof.
  destruct ia as [i a]. intros H. eapply in_combine_r, H.
Qed.

Lemma get_positional_actions_In (p : parser) (ia : iaction) :
  get_positional_actions p = Some ia ->
  In ia (actions_indexed p) /\ option_strings (snd ia) = [].
Proof.
  unfold get_positional_actions. intros H. apply find_some in H.
  destruct H as [Hin H]. split; [assumption|].
  unfold is_positional in H. destruct (option_strings (snd ia));
    [reflexivity | discriminate].
Qed.

Lemma short_option_In (p : parser) (ia : iaction) :
  short_option p ia ->
  In ia (actions_indexed p)
  /\ exists o, length o = 2 /\ In o (option_strings (snd ia)).
Proof.
  intros (o & Hlen & L). apply lookup_In, option_string_actions_In in L.
  destruct L. eauto.
Qed.

(** Every action that can be taken is an action of the parser. *)
Lemma fires_In (ucd : unicode_data) (p : parser) (args : list str)
      (toks : list token) (ia : iaction) :
  classify ucd p args = Ok toks ->
  fires p toks (get_positional_actions p) ia ->
  In ia (actions_indexed p).
Proof.
  intros C [H|[(s & os & e & H)|H]].
  - apply get_positional_actions_In in H. tauto.
  - eapply classify_option in H; [|eassumption].
    destruct H as [_ H]. apply parse_optional_In, option_string_actions_In in H.
    tauto.
  - apply short_option_In in H. tauto.
Qed.

Lemma missing_required_seen (p : parser) (seen : list nat) (ia : iaction) :
  missing_required p seen = false ->
  In ia (actions_indexed p) ->
  required (snd ia) = true ->
  In (fst ia) seen.
Proof.
  unfold missing_required. intros M Hin Hreq.
  destruct (existsb (Nat.eqb (fst ia)) seen) eqn:E.
  - apply existsb_exists in E. destruct E as (i & Hi & E).
    apply Nat.eqb_eq in E. subst. assumption.
  - exfalso. assert (existsb (fun ia => negb (existsb (Nat.eqb (fst ia)) seen)
                                        && required (snd ia))
                             (actions_indexed p) = true); [|congruence].
    apply existsb_exists. exists ia. rewrite E, Hreq. auto.
Qed.

(** ** An option that the invocation does not mention *)

Section Omitted.
Variable ucd : unicode_data.
Variable p : parser.
Variable o : string.
Variable d : string.
Hypothesis Hsole : sets_only p (py o) d = true.

Lemma sets_only_option_strings (a : action) :
  In a (actions p) -> dest a = Some d -> option_strings a = [py o].
Proof.
  intros Hin Hd. unfold sets_only in Hsole.
  repeat (apply andb_true_iff in Hsole; destruct Hsole as [Hsole ?]).
  rewrite forallb_forall in Hsole. specialize (Hsole a Hin).
  rewrite Hd, String.eqb_refl in Hsole.
  destruct (option_strings a) as [|o' [|? ?]]; try discriminate.
  apply str_eqb_eq in Hsole. congruence.
Qed.

(** No action taken stores into [d] when no argument string spells
    [o]. *)
Lemma omitted_fires (args : list str) (toks : list token) (ia : iaction) :
  mentions o args = false ->
  classify ucd p args = Ok toks ->
  fires p toks (get_positional_actions p) ia ->
  dest (snd ia) <> Some d.
Proof.
  intros Hm C Hf Hd.
  pose proof Hf as Hin. eapply fires_In in Hin; [|eassumption].
  assert (Hos : option_strings (snd ia) = [py o])
    by (apply sets_only_option_strings;
        [apply actions_indexed_action|]; assumption).
  unfold sets_only in Hsole.
  repeat (apply andb_true_iff in Hsole; destruct Hsole as [Hsole ?]).
  destruct Hf as [H'|[(s & os & e & H')|H']].
  - apply get_positional_actions_In in H'. destruct H' as [_ H'].
    congruence.
  - eapply classify_option in H'; [|eassumption]. destruct H' as [Hz Hp].
    pose proof Hp as Hosa. apply parse_optional_In in Hosa.
    apply option_string_actions_In in Hosa. destruct Hosa as [_ Hosa].
    rewrite Hos in Hosa. destruct Hosa as [<-|[]].
    apply parse_optional_abbreviates in Hp;
      [ | apply Nat.leb_le; assumption | assumption | assumption
        | apply negb_true_iff; assumption ].
    assert (mentions o args = true); [|congruence].
    unfold mentions. apply existsb_exists. eauto.
  - apply short_option_In in H'. destruct H' as [_ (o2 & Hlen & Ho2)].
    rewrite Hos in Ho2. destruct Ho2 as [<-|[]].
    rewrite Hlen in *. discriminate.
Qed.

(** The attribute keeps its default. *)
Lemma omitted_default (args : list str) (ns : namespace) (ex : list str) :
  mentions o args = false ->
  parse_known_args ucd [] p args = Ok (ns, ex) ->
  getattr ns d = getattr (initial_namespace p) d.
Proof.
  intros Hm H. apply parse_known_args_inv in H.
  destruct H as (toks & st & C & A & _ & -> & _).
  apply (@consume_all_state [] p
           (fun st => getattr (st_namespace st) d
                      = getattr (initial_namespace p) d)
           (fun ia => dest (snd ia) <> Some d)) with (toks := toks);
    auto.
  - intros st0 ia args0 st' HF HJ T. apply take_action_leaf in T.
    destruct T as (v & -> & _). rewrite getattr_set_dest_other; assumption.
  - intros ia Hf. eapply omitted_fires; eassumption.
Qed.

(** A required option that is not mentioned makes the parser fail. *)
Lemma omitted_required (npm : list (str * subparser)) (ia : iaction)
      (args : list str) (r : namespace * list str) :
  In ia (actions_indexed p) ->
  dest (snd ia) = Some d ->
  required (snd ia) = true ->
  mentions o args = false ->
  parse_known_args ucd npm p args <> Ok r.
Proof.
  intros Hin Hd Hreq Hm H. destruct r as [ns ex].
  apply parse_known_args_inv in H.
  destruct H as (toks & st & C & A & M & _ & _).
  assert (Hseen : In (fst ia) (seen_actions st))
    by (eapply missing_required_seen; eassumption).
  assert (HJ : forall i, In i (seen_actions st) ->
                         exists ia', fst ia' = i
                                     /\ dest (snd ia') <> Some d
                                     /\ In ia' (actions_indexed p)).
  { apply (@consume_all_state npm p
             (fun st => forall i, In i (seen_actions st) ->
                                  exists ia', fst ia' = i
                                              /\ dest (snd ia') <> Some d
                                              /\ In ia' (actions_indexed p))
             (fun ia' => dest (snd ia') <> Some d
                         /\ In ia' (actions_indexed p)))
      with (toks := toks); auto.
    - intros st0 ia' args0 st' [HF1 HF2] HJ T. apply take_action_frame in T.
      destruct T as (_ & _ & ->). intros i [<-|Hi]; [eauto | auto].
    - intros ia' Hf.
      split; [eapply omitted_fires | eapply fires_In]; eassumption.
    - intros i []. }
  destruct (HJ _ Hseen) as (ia' & Hi & Hd' & Hin').
  apply Hd'. assert (ia' = ia) as ->
      by (eapply actions_indexed_unique; eassumption).
  assumption.
Qed.
End Omitted.

(** ** An option that the invocation holds *)

Lemma take_actions_seen (npm : list (str * subparser))
      (l : list (iaction * list str)) :
  forall st st',
    take_actions npm st l = Ok st' ->
    (forall i, In i (seen_actions st) -> In i (seen_actions st'))
    /\ (forall ia args, In (ia, args) l -> In (fst ia) (seen_actions st')).
Proof.
  induction l as [|[ia args] l IH]; intros st st'; simpl.
  - intros [= <-]. split; [auto | intros ? ? []].
  - intros H. inv_bind H. apply take_action_frame in E.
    destruct E as (_ & _ & E). apply IH in H. destruct H as [H1 H2].
    split.
    + intros i Hi. apply H1. rewrite E. right. assumption.
    + intros ia' args' [[= <- <-]|Hin]; [|eapply H2, Hin].
      apply H1. rewrite E. left. reflexivity.
Qed.

Lemma In_skipn_no_option (n : nat) (toks : list token) (s : str)
      (t : option_tuple) :
  forallb (fun t => negb (is_PO t)) (firstn n toks) = true ->
  In (s, PO t) toks -> In (s, PO t) (skipn n toks).
Proof.
  intros Hf Hin. apply (In_firstn_skipn n) in Hin.
  destruct Hin as [Hin|Hin]; [|assumption].
  rewrite forallb_forall in Hf. apply Hf in Hin. discriminate.
Qed.

Section Present.
Variable npm : list (str * subparser).
Variable p : parser.
Hypothesis Hleaf : forall a, In a (actions p) -> nargs a <> PARSER.

(** In a parser without sub-parsers no option is skipped: when the
    parser returns, the action of every option among the argument
    strings has been taken. *)
Lemma option_seen (toks : list token) (st : state) (s os : str)
      (ia : iaction) (e : option str) :
  (forall s' ia' os' e',
      In (s', PO (OptionTuple (Some ia') os' e')) toks ->
      In ia' (actions_indexed p)) ->
  consume_all npm p toks = Ok st ->
  In (s, PO (OptionTuple (Some ia) os e)) toks ->
  In (fst ia) (seen_actions st).
Proof.
  intros Hact A Hin.
  set (tok := (s, PO (OptionTuple (Some ia) os e))) in *.
  assert (HI : (In tok (@nil token) \/ In (fst ia) (seen_actions st))
               /\ (forall ia2, positionals st = Some ia2 ->
                               In ia2 (actions_indexed p))
               /\ (forall s' ia' os' e',
                      In (s', PO (OptionTuple (Some ia') os' e')) (@nil token) ->
                      In ia' (actions_indexed p))).
  { apply (@consume_all_inv npm p
             (fun st toks =>
                (In tok toks \/ In (fst ia) (seen_actions st))
                /\ (forall ia2, positionals st = Some ia2 ->
                                In ia2 (actions_indexed p))
                /\ (forall s' ia' os' e',
                       In (s', PO (OptionTuple (Some ia') os' e')) toks ->
                       In ia' (actions_indexed p))))
      with (toks := toks); [| | | |exact A].
    - intros st0 toks0 ia2 n st' (H1 & H2 & H3) P M T.
      apply take_action_frame in T. destruct T as (_ & _ & T).
      split; [|split].
      + destruct H1 as [H1|H1].
        * left. apply In_skipn_no_option; [|assumption].
          eapply match_nargs_no_option; [|eassumption].
          apply Hleaf, actions_indexed_action, H2, P.
        * right. simpl. rewrite T. right. assumption.
      + simpl. discriminate.
      + intros s' ia' os' e' H. eapply H3, In_skipn, H.
    - intros st0 toks0 k (H1 & H2 & H3) ->. split; [|split].
      + destruct H1 as [H1|H1]; [left | right; assumption].
        apply In_skipn_no_option; [apply count_while_firstn | assumption].
      + assumption.
      + intros s' ia' os' e' H. eapply H3, In_skipn, H.
    - intros st0 st' s0 [a0 os0 e0] fol stop (H1 & H2 & H3) C.
      destruct a0 as [ia0|].
      + apply consume_optional_inv in C.
        destruct C as (args & tuples & n & T & -> & Hshort & Hn).
        pose proof T as Hfr. apply take_actions_frame in Hfr.
        destruct Hfr as [Hfr _].
        apply take_actions_seen in T. destruct T as [T1 T2].
        split; [|split].
        * destruct H1 as [[H1|H1]|H1].
          -- right. injection H1 as <- <- <- <-.
             eapply T2. left. reflexivity.
          -- left. simpl. destruct Hn as [->|(ia' & Hia' & M)];
               [assumption|].
             apply In_skipn_no_option; [|assumption].
             eapply match_nargs_no_option; [|eassumption].
             apply Hleaf, actions_indexed_action.
             destruct Hia' as [->|Hia'].
             ++ eapply H3. left. reflexivity.
             ++ apply short_option_In in Hia'. tauto.
          -- right. apply T1, H1.
        * rewrite Hfr. assumption.
        * intros s' ia' os' e' H. eapply H3, In_skipn, H.
      + simpl in C. injection C as <- <-. simpl. split; [|split].
        * destruct H1 as [[H1|H1]|H1]; [discriminate | auto | auto].
        * assumption.
        * intros s' ia' os' e' H. eapply H3. right. eassumption.
    - split; [left; assumption | split; [|assumption]].
      simpl. intros ia2 H. apply get_positional_actions_In in H. tauto. }
  destruct HI as [[[]|HI] _]. assumption.
Qed.
End Present.

(** ** The namespace of a parser without sub-parsers *)

Lemma every_action_into_spec (p : parser) (d : string) (ok : action -> bool)
      (a : action) :
  every_action_into p d ok = true ->
  In a (actions p) -> dest a = Some d -> ok a = true.
Proof.
  unfold every_action_into, stores_into. rewrite forallb_forall.
  intros H Hin Hd. specialize (H a Hin).
  rewrite Hd, String.eqb_refl in H. assumption.
Qed.

Lemma hasattr_setattr (ns : namespace) (k k' : string) (v : value) :
  hasattr ns k' = true -> hasattr (setattr ns k v) k' = true.
Proof.
  rewrite !hasattr_In, setattr_keys.
  destruct (hasattr ns k); [auto | intros H; apply in_or_app; auto].
Qed.

Lemma hasattr_set_dest (a : action) (ns : namespace) (k : string)
      (v : value) :
  hasattr ns k = true -> hasattr (set_dest a ns v) k = true.
Proof.
  unfold set_dest. destruct (dest a); [apply hasattr_setattr | auto].
Qed.

Lemma set_dest_NoDup (a : action) (ns : namespace) (v : value) :
  NoDup (map fst ns) -> NoDup (map fst (set_dest a ns v)).
Proof.
  unfold set_dest. destruct (dest a); [apply setattr_NoDup | auto].
Qed.

Lemma initial_namespace_NoDup (p : parser) :
  NoDup (map fst (initial_namespace p)).
Proof.
  unfold initial_namespace.
  assert (G1 : forall l ns,
             NoDup (map fst ns) ->
             NoDup (map fst
                      (fold_left
                         (fun ns a =>
                            match dest a, default a with
                            | Some d, Some v =>
                                if hasattr ns d then ns else setattr ns d v
                            | _, _ => ns
                            end) l ns))).
  { induction l as [|a l IH]; intros ns H; simpl; [assumption|].
    apply IH. destruct (dest a), (default a); try assumption.
    destruct (hasattr ns s); [assumption | apply setattr_NoDup, H]. }
  assert (G2 : forall (l : list (string * value)) ns,
             NoDup (map fst ns) ->
             NoDup (map fst
                      (fold_left
                         (fun ns kv =>
                            if hasattr ns (fst kv) then ns
                            else setattr ns (fst kv) (snd kv)) l ns))).
  { induction l as [|a l IH]; intros ns H; simpl; [assumption|].
    apply IH. destruct (hasattr ns (fst a));
                [assumption | apply setattr_NoDup, H]. }
  apply G2, G1. constructor.
Qed.

Lemma get_values_one_of (a : action) (c : list str) (args : list str)
      (v : value) :
  is_store_one_of c a = true ->
  get_values a args = Ok v ->
  (exists s, v = VStr s /\ In s c) \/ (exists l, v = VList l).
Proof.
  unfold is_store_one_of, get_values.
  destruct (cls a); try discriminate.
  destruct (nargs a); try discriminate.
  destruct (choices a) as [c'|] eqn:Ec; [|discriminate].
  intros Hc.
  destruct (remove_first (py "--") args) as [|x [|y l]].
  - intros H. inv_bind H. injection H as <-. eauto.
  - unfold check_value. rewrite Ec.
    destruct (str_in x c') eqn:Ex; [|discriminate].
    simpl. intros [= <-]. left. exists x. split; [reflexivity|].
    apply str_in_In. rewrite forallb_forall in Hc. apply Hc.
    apply str_in_In, Ex.
  - intros H. inv_bind H. injection H as <-. eauto.
Qed.

Section Leaf.
Variable ucd : unicode_data.
Variable p : parser.

(** A property of the namespace that every action of the parser
    preserves holds of the namespace returned. *)
Lemma leaf_invariant (J : namespace -> Prop) (args : list str)
      (ns : namespace) (ex : list str) :
  (forall a ns v,
      In a (actions p) -> J ns ->
      (forall args, cls a = StoreAction -> get_values a args = Ok v ->
                    J (set_dest a ns v))
      /\ (cls a = StoreTrueAction -> J (set_dest a ns (VBool true)))) ->
  J (initial_namespace p) ->
  parse_known_args ucd [] p args = Ok (ns, ex) ->
  J ns.
Proof.
  intros Hstep Hinit H. apply parse_known_args_inv in H.
  destruct H as (toks & st & C & A & _ & -> & _).
  apply (@consume_all_state [] p (fun st => J (st_namespace st))
           (fun ia => In ia (actions_indexed p))) with (toks := toks);
    auto.
  - intros st0 ia args0 st' HF HJ T. apply take_action_leaf in T.
    apply actions_indexed_action in HF.
    destruct T as (v & -> & [[Hc Hv]|[Hc ->]]).
    + destruct (Hstep (snd ia) (st_namespace st0) v HF HJ) as [H1 _].
      eapply H1; eassumption.
    + destruct (Hstep (snd ia) (st_namespace st0) (VBool true) HF HJ)
        as [_ H2]. apply H2, Hc.
  - intros ia Hf. eapply fires_In; eassumption.
Qed.

Variables (args : list str) (ns : namespace) (ex : list str).
Hypothesis Hparse : parse_known_args ucd [] p args = Ok (ns, ex).

Lemma leaf_hasattr (k : string) :
  hasattr (initial_namespace p) k = true -> hasattr ns k = true.
Proof.
  intros Hinit.
  apply (@leaf_invariant (fun ns => hasattr ns k = true) args ns ex);
    auto.
  intros a ns0 v _ HJ. split; intros; apply hasattr_set_dest, HJ.
Qed.

Lemma leaf_NoDup : NoDup (map fst ns).
Proof.
  apply (@leaf_invariant (fun ns => NoDup (map fst ns)) args ns ex);
    auto using initial_namespace_NoDup.
  intros a ns0 v _ HJ. split; intros; apply set_dest_NoDup, HJ.
Qed.

(** An attribute that no action stores into keeps its initial value. *)
Lemma leaf_untouched (d : string) :
  every_action_into p d (fun _ => false) = true ->
  getattr ns d = getattr (initial_namespace p) d.
Proof.
  intros Hd.
  apply (@leaf_invariant
           (fun ns => getattr ns d = getattr (initial_namespace p) d)
           args ns ex); auto.
  intros a ns0 v Hin HJ.
  assert (Hne : dest a <> Some d).
  { intros E. pose proof (every_action_into_spec _ _ _ Hd Hin E).
    discriminate. }
  split; intros; rewrite getattr_set_dest_other; assumption.
Qed.

(** A flag is a boolean. *)
Lemma leaf_flag (d : string) :
  every_action_into p d is_store_true = true ->
  getattr (initial_namespace p) d = Some (VBool false) ->
  exists b, getattr ns d = Some (VBool b).
Proof.
  intros Hd Hinit.
  apply (@leaf_invariant
           (fun ns => exists b, getattr ns d = Some (VBool b))
           args ns ex); eauto.
  intros a ns0 v Hin HJ.
  destruct (stores_into d a) eqn:Es.
  - unfold stores_into in Es. destruct (dest a) as [d'|] eqn:Ed;
      [|discriminate]. apply String.eqb_eq in Es. subst d'.
    pose proof (every_action_into_spec _ _ _ Hd Hin Ed) as Hc.
    unfold is_store_true in Hc. split.
    + intros args0 Hcls. rewrite Hcls in Hc. discriminate.
    + intros _. exists true. apply getattr_set_dest_same, Ed.
  - assert (Hne : dest a <> Some d).
    { unfold stores_into in Es. intros E. rewrite E, String.eqb_refl in Es.
      discriminate. }
    split; intros; rewrite getattr_set_dest_other; assumption.
Qed.

(** An option with choices holds one of them, or a list. *)
Lemma leaf_one_of (d : string) (c : list str) :
  every_action_into p d (is_store_one_of c) = true ->
  (exists s, getattr (initial_namespace p) d = Some (VStr s) /\ In s c) ->
  (exists s, getattr ns d = Some (VStr s) /\ In s c)
  \/ (exists l, getattr ns d = Some (VList l)).
Proof.
  intros Hd Hinit.
  apply (@leaf_invariant
           (fun ns => (exists s, getattr ns d = Some (VStr s) /\ In s c)
                      \/ (exists l, getattr ns d = Some (VList l)))
           args ns ex); auto.
  intros a ns0 v Hin HJ.
  destruct (stores_into d a) eqn:Es.
  - unfold stores_into in Es. destruct (dest a) as [d'|] eqn:Ed;
      [|discriminate]. apply String.eqb_eq in Es. subst d'.
    pose proof (every_action_into_spec _ _ _ Hd Hin Ed) as Hc.
    split.
    + intros args0 _ Hv. rewrite (getattr_set_dest_same _ _ _ Ed).
      destruct (get_values_one_of _ _ _ Hc Hv) as [(s & -> & Hs)|(l & ->)];
        eauto.
    + intros Hcls. unfold is_store_one_of in Hc. rewrite Hcls in Hc.
      discriminate.
  - assert (Hne : dest a <> Some d).
    { unfold stores_into in Es. intros E. rewrite E, String.eqb_refl in Es.
      discriminate. }
    split; intros; rewrite getattr_set_dest_other; assumption.
Qed.
End Leaf.

(** ** A flag that the invocation holds *)

Lemma no_parser_action_spec (p : parser) (a : action) :
  no_parser_action p = true -> In a (actions p) ->
  nargs a <> PARSER.
Proof.
  unfold no_parser_action. rewrite forallb_forall. intros H Hin.
  specialize (H a Hin). destruct (nargs a); congruence.
Qed.

Lemma classified_options (ucd : unicode_data) (p : parser) (args : list str)
      (toks : list token) (s os : str) (ia : iaction) (e : option str) :
  classify ucd p args = Ok toks ->
  In (s, PO (OptionTuple (Some ia) os e)) toks ->
  In ia (actions_indexed p) /\ is_positional (snd ia) = false.
Proof.
  intros C H. eapply classify_option in H; [|eassumption].
  destruct H as [_ H]. apply parse_optional_In, option_string_actions_In in H.
  destruct H as [H1 H2]. split; [assumption|].
  unfold is_positional. destruct (option_strings (snd ia)); [destruct H2|].
  reflexivity.
Qed.

Lemma leaf_flag_present (ucd : unicode_data) (p : parser) (o d : string)
      (ia : iaction) (args : list str) (ns : namespace) (ex : list str) :
  no_parser_action p = true ->
  every_action_into p d is_store_true = true ->
  lookup (py o) (option_string_actions p) = Some ia ->
  dest (snd ia) = Some d ->
  plain (py o) = false ->
  parse_known_args ucd [] p args = Ok (ns, ex) ->
  In (py o) (options_zone args) ->
  getattr ns d = Some (VBool true).
Proof.
  intros Hleaf Hflag L Hd Hplain H Hin.
  apply parse_known_args_inv in H.
  destruct H as (toks & st & C & A & _ & -> & _).
  assert (Hia : In ia (actions_indexed p)).
  { apply lookup_In, option_string_actions_In in L. tauto. }
  assert (Hseen : In (fst ia) (seen_actions st)).
  { eapply option_seen; [| |exact A|].
    - intros a Ha. eapply no_parser_action_spec; eassumption.
    - intros s' ia' os' e' H'. eapply classified_options in H'; [|eassumption].
      tauto.
    - eapply classify_exact; eassumption. }
  revert Hseen.
  apply (@consume_all_state [] p
           (fun st => In (fst ia) (seen_actions st) ->
                      getattr (st_namespace st) d = Some (VBool true))
           (fun ia' => In ia' (actions_indexed p))) with (toks := toks);
    auto.
  - intros st0 ia' args0 st' HF HJ T.
    pose proof T as Tf. apply take_action_frame in Tf.
    destruct Tf as (_ & _ & ->).
    apply take_action_leaf in T. destruct T as (v & -> & Hv).
    destruct (stores_into d (snd ia')) eqn:Es.
    + unfold stores_into in Es. destruct (dest (snd ia')) as [d'|] eqn:Ed;
        [|discriminate]. apply String.eqb_eq in Es. subst d'.
      pose proof (every_action_into_spec _ _ _ Hflag
                    (actions_indexed_action _ _ HF) Ed) as Hc.
      unfold is_store_true in Hc. intros _.
      destruct Hv as [[Hcls _]|[_ ->]]; [rewrite Hcls in Hc; discriminate|].
      apply getattr_set_dest_same, Ed.
    + assert (Hne : dest (snd ia') <> Some d).
      { unfold stores_into in Es. intros E.
        rewrite E, String.eqb_refl in Es. discriminate. }
      rewrite getattr_set_dest_other by assumption.
      intros [Hi|Hi]; [|auto].
      exfalso. apply Hne.
      assert (ia' = ia) as -> by (eapply actions_indexed_unique; eassumption).
      assumption.
  - intros ia' Hf. eapply fires_In; eassumption.
  - intros [].
Qed.

(** ** The names of a positional that takes one or more *)

Lemma well_formed_skip_to_option (toks : list token) :
  well_formed toks = true ->
  well_formed (skipn (count_while (fun t => negb (is_PO t)) toks) toks) = true.
Proof.
  induction toks as [|[s pat] toks IH]; [reflexivity|].
  destruct pat; cbn [count_while well_formed];
    change (is_PO (s, PA)) with false;
    change (is_PO (s, PDash)) with false;
    try change (is_PO (s, PO t)) with true; cbn [negb skipn].
  - rewrite andb_true_iff. intros [_ H]. apply IH, H.
  - intros H.
    rewrite (@count_while_all _ (fun t => negb (is_PO t)) toks).
    + rewrite skipn_all. reflexivity.
    + eapply forallb_weaken; [|exact H]. intros [s' []]; letters; auto.
  - auto.
Qed.

Lemma well_formed_skipn_no_dash (n : nat) :
  forall toks,
    well_formed toks = true ->
    forallb (fun t => negb (is_PDash t)) (firstn n toks) = true ->
    well_formed (skipn n toks) = true.
Proof.
  induction n as [|n IH]; intros [|[s pat] toks]; simpl; auto.
  destruct pat; letters; try discriminate.
  - rewrite andb_true_iff. intros [_ H]. apply IH, H.
  - apply IH.
Qed.

Lemma remove_first_nonempty (x y z : str) (l : list str) :
  remove_first x (y :: z :: l) <> [].
Proof.
  simpl. destruct (str_eqb y x); [discriminate|].
  destruct (str_eqb z x); discriminate.
Qed.

(** What a positional with [nargs='+'] takes is not empty once the
    [--] is struck out. *)
Lemma one_or_more_nonempty (a : action) (toks : list token) (n : nat) :
  option_strings a = [] ->
  nargs a = ONE_OR_MORE ->
  well_formed toks = true ->
  match_nargs a toks = Some n ->
  remove_first (py "--") (map fst (firstn n toks)) <> [].
Proof.
  unfold match_nargs, is_positional. intros -> ->. cbn [negb]. cbv zeta.
  destruct toks as [|[s pat] toks]; [discriminate|].
  destruct pat.
  - change (count_while is_PDash ((s, PA) :: toks)) with 0.
    cbn [skipn]. change (is_PA (s, PA)) with true. cbn [well_formed].
    rewrite andb_true_iff. intros [Hs _] [= <-]. simpl.
    apply negb_true_iff in Hs. rewrite Hs. discriminate.
  - change (count_while is_PDash ((s, PDash) :: toks))
      with (S (count_while is_PDash toks)).
    cbn [well_formed]. intros Hwf.
    assert (Hd : count_while is_PDash toks = 0).
    { destruct toks as [|[s' []] toks]; try reflexivity.
      simpl in Hwf. discriminate. }
    rewrite Hd. cbn [skipn].
    destruct toks as [|[s' pat'] toks]; [discriminate|].
    destruct pat'; try (simpl in Hwf; discriminate).
    change (is_PA (s', PA)) with true. cbv iota.
    intros [= <-]. cbn [firstn map fst Nat.add]. apply remove_first_nonempty.
  - change (count_while is_PDash ((s, PO t) :: toks)) with 0.
    cbn [skipn]. change (is_PA (s, PO t)) with false. discriminate.
Qed.

Lemma get_values_one_or_more (a : action) (args : list str) (v : value) :
  nargs a = ONE_OR_MORE ->
  get_values a args = Ok v ->
  v = VList (remove_first (py "--") args).
Proof.
  unfold get_values. intros ->. intros H. inv_bind H. congruence.
Qed.

Section Names.
Variable ucd : unicode_data.
Variable p : parser.
Variable d : string.
Variable ia : iaction.
Hypothesis Hinto : every_action_into p d is_one_or_more = true.
Hypothesis Hia : In ia (actions_indexed p).
Hypothesis Hd : dest (snd ia) = Some d.

Lemma optional_keeps_names (st st' : state) (ia' : iaction)
      (args : list str) :
  In ia' (actions_indexed p) /\ is_positional (snd ia') = false ->
  names_taken ia d st -> take_action [] st ia' args = Ok st' -> names_taken ia d st'.
Proof.
  intros [Hin Hopt] HJ T. unfold names_taken in *.
  pose proof T as Tf. apply take_action_frame in Tf.
  destruct Tf as (_ & _ & ->).
  apply take_action_leaf in T. destruct T as (v & -> & _).
  assert (Hne : dest (snd ia') <> Some d).
  { intros E.
    pose proof (every_action_into_spec _ _ _ Hinto
                  (actions_indexed_action _ _ Hin) E) as Hc.
    unfold is_one_or_more, is_positional in *.
    destruct (cls (snd ia')), (nargs (snd ia')), (option_strings (snd ia'));
      discriminate. }
  rewrite getattr_set_dest_other by assumption.
  intros [Hi|Hi]; [|auto].
  exfalso. apply Hne.
  assert (ia' = ia) as -> by (eapply actions_indexed_unique; eassumption).
  assumption.
Qed.

(** When the positional has been taken, its attribute is a non-empty
    list. *)
Lemma leaf_names (args : list str) (ns : namespace) (ex : list str) :
  required (snd ia) = true ->
  parse_known_args ucd [] p args = Ok (ns, ex) ->
  exists l, l <> [] /\ getattr ns d = Some (VList l).
Proof.
  intros Hreq H. apply parse_known_args_inv in H.
  destruct H as (toks & st & C & A & M & -> & _).
  assert (Hseen : In (fst ia) (seen_actions st))
    by (eapply missing_required_seen; eassumption).
  revert Hseen. change (names_taken ia d st).
  assert (HI : (positionals st = None \/ well_formed (@nil token) = true)
               /\ names_taken ia d st
               /\ (forall ia2, positionals st = Some ia2 ->
                               In ia2 (actions_indexed p))
               /\ (forall s' ia' os' e',
                      In (s', PO (OptionTuple (Some ia') os' e')) (@nil token) ->
                      In ia' (actions_indexed p)
                      /\ is_positional (snd ia') = false)); [|tauto].
  apply (@consume_all_inv [] p
           (fun st toks =>
              (positionals st = None \/ well_formed toks = true)
              /\ names_taken ia d st
              /\ (forall ia2, positionals st = Some ia2 ->
                              In ia2 (actions_indexed p))
              /\ (forall s' ia' os' e',
                     In (s', PO (OptionTuple (Some ia') os' e')) toks ->
                     In ia' (actions_indexed p)
                     /\ is_positional (snd ia') = false)))
    with (toks := toks); [| | | |exact A].
  - intros st0 toks0 ia2 n st' (H1 & H2 & H3 & H4) P Mn T.
    split; [left; reflexivity|]. split; [|split].
    + unfold names_taken in *. simpl.
      destruct H1 as [H1|Hwf]; [congruence|].
      pose proof T as Tf. apply take_action_frame in Tf.
      destruct Tf as (_ & _ & ->).
      apply take_action_leaf in T. destruct T as (v & -> & Hv).
      destruct (stores_into d (snd ia2)) eqn:Es.
      * unfold stores_into in Es.
        destruct (dest (snd ia2)) as [d'|] eqn:Ed; [|discriminate].
        apply String.eqb_eq in Es. subst d'.
        pose proof (every_action_into_spec _ _ _ Hinto
                      (actions_indexed_action _ _ (H3 _ P)) Ed) as Hc.
        unfold is_one_or_more in Hc.
        destruct (cls (snd ia2)) eqn:Ec; try discriminate.
        destruct (nargs (snd ia2)) eqn:En; try discriminate.
        destruct (option_strings (snd ia2)) eqn:Eo; [|discriminate].
        destruct Hv as [[_ Hv]|[Hv _]]; [|discriminate].
        apply get_values_one_or_more in Hv; [|assumption]. subst v.
        intros _. eexists. split; [|apply getattr_set_dest_same, Ed].
        eapply one_or_more_nonempty; eassumption.
      * assert (Hne : dest (snd ia2) <> Some d).
        { unfold stores_into in Es. intros E.
          rewrite E, String.eqb_refl in Es. discriminate. }
        rewrite getattr_set_dest_other by assumption.
        intros [Hi|Hi]; [|auto].
        exfalso. apply Hne.
        assert (ia2 = ia) as ->
            by (eapply actions_indexed_unique; eauto).
        assumption.
    + simpl. discriminate.
    + intros s' ia' os' e' H. eapply H4, In_skipn, H.
  - intros st0 toks0 k (H1 & H2 & H3 & H4) ->.
    split; [|split; [exact H2 | split; [exact H3|]]].
    + destruct H1 as [H1|H1]; [left; exact H1 | right].
      apply well_formed_skip_to_option, H1.
    + intros s' ia' os' e' H. eapply H4, In_skipn, H.
  - intros st0 st' s0 [a0 os0 e0] fol stop (H1 & H2 & H3 & H4) Cn.
    destruct a0 as [ia0|].
    + apply consume_optional_inv in Cn.
      destruct Cn as (args0 & tuples & n & T & -> & Hshort & Hn).
      assert (Hopt : forall ia', ia' = ia0 \/ short_option p ia' ->
                                 In ia' (actions_indexed p)
                                 /\ is_positional (snd ia') = false).
      { intros ia' [->|Hs]; [eapply H4; left; reflexivity|].
        apply short_option_In in Hs. destruct Hs as [Hs (o & _ & Ho)].
        split; [assumption|]. unfold is_positional.
        destruct (option_strings (snd ia')); [destruct Ho | reflexivity]. }
      pose proof T as Hfr. apply take_actions_frame in Hfr.
      destruct Hfr as [Hfr _]. rewrite Hfr.
      split; [|split; [|split; [exact H3|]]].
      * destruct H1 as [H1|H1]; [left; exact H1 | right]. simpl in *.
        destruct Hn as [->|(ia' & Hia' & Mn)]; [exact H1|].
        apply well_formed_skipn_no_dash; [exact H1|].
        eapply match_nargs_optional_no_dash; [|eassumption].
        apply Hopt, Hia'.
      * eapply (@take_actions_state [] (names_taken ia d)
                  (fun ia' => In ia' (actions_indexed p)
                              /\ is_positional (snd ia') = false));
          [| |exact H2|exact T].
        -- intros st1 ia1 args1 st1' HF HJ T1.
           eapply optional_keeps_names; eassumption.
        -- intros ia' args' [[= <- <-]|Hin]; apply Hopt; [auto|].
           right. eapply Hshort, Hin.
      * intros s' ia' os' e' H. eapply H4, In_skipn, H.
    + simpl in Cn. injection Cn as <- <-. simpl in *.
      split; [|split; [exact H2 | split; [exact H3|]]].
      * destruct H1 as [H1|H1]; [left | right]; assumption.
      * intros s' ia' os' e' H. eapply H4. right. eassumption.
  - split; [right; eapply classify_well_formed; eassumption|].
    split; [intros []|]. split.
    + simpl. intros ia2 H. apply get_positional_actions_In in H. tauto.
    + intros s' ia' os' e' H. eapply classified_options; eassumption.
Qed.
End Names.

(** ** The parser of the [database] command *)

Lemma database_option_string_actions :
  option_string_actions database_parser
  = [(py "-h", (0, help_action)); (py "--help", (0, help_action))].
Proof. reflexivity. Qed.

Lemma database_positional :
  get_positional_actions database_parser = Some (1, action_parser).
Proof. reflexivity. Qed.

Section DatabaseParser.
Variable ucd : unicode_data.
Variable npm : list (str * subparser).

(** [database_parser] has one short and one long option: no string
    abbreviates two options. *)
Lemma database_option_tuples (r : str) :
  length (get_option_tuples database_parser (45%N :: r)) <= 1.
Proof.
  unfold get_option_tuples. destruct r as [|c1 r]; [simpl; lia|].
  rewrite database_option_string_actions.
  destruct (N.eqb c1 45) eqn:C1.
  - apply N.eqb_eq in C1. subst c1.
    destruct (option_part_dashes r) as (q & ->).
    cbn [flat_map fst snd app].
    change (startswith (py "-h") (45%N :: 45%N :: q)) with false.
    cbv iota. cbn [app]. destruct (startswith _ _); simpl; lia.
  - cbn [flat_map fst snd app firstn].
    change (py "--help") with [45; 45; 104; 101; 108; 112]%N.
    cbn [str_eqb startswith].
    rewrite (N.eqb_sym 45 c1), C1. cbn [andb]. rewrite app_nil_r.
    destruct (str_eqb _ _); [simpl; lia|].
    destruct (startswith _ _); simpl; lia.
Qed.

Lemma database_parse_optional (s : str) :
  exists r, parse_optional ucd database_parser s = Ok r.
Proof.
  unfold parse_optional. destruct s as [|c0 r]; [eauto|].
  destruct (negb (N.eqb c0 45)) eqn:C0; [eauto|].
  apply negb_false_iff, N.eqb_eq in C0. subst c0.
  destruct (lookup _ _); [eauto|].
  destruct (length _ =? 1); [eauto|].
  destruct (if contains 61 _ then _ else _); [eauto|].
  pose proof (database_option_tuples r) as Hl.
  destruct (get_option_tuples database_parser (45%N :: r)) as [|t [|t' l]];
    [| eauto | simpl in Hl; lia].
  destruct (_ && _); [eauto|]. destruct (contains 32 _); eauto.
Qed.

Lemma database_classify (args : list str) :
  exists toks, classify ucd database_parser args = Ok toks.
Proof.
  induction args as [|a args [toks IH]]; simpl; [eauto|].
  destruct (str_eqb a (py "--")); [eauto|].
  destruct (database_parse_optional a) as [r ->]. simpl.
  rewrite IH. simpl. eauto.
Qed.

Lemma parse_loop_nil (p : parser) (bound : nat) (st : state) :
  parse_loop npm p bound st [] = Ok (st, []).
Proof. destruct bound; reflexivity. Qed.

(** When the first argument string is an argument, the sub-parser
    action takes all the strings. *)
Lemma database_consume_all (a : str) (toks : list token) :
  consume_all npm database_parser ((a, PA) :: toks)
  = (st <- take_action npm (initial_state database_parser)
                       (1, action_parser) (a :: map fst toks) ;;
     Ok (with_extras (without_positionals st) [])).
Proof.
  unfold consume_all. cbn [length parse_loop existsb].
  change (is_PO (a, PA)) with false. cbn [orb].
  assert (M : match_nargs action_parser ((a, PA) :: toks)
              = Some (S (length toks))) by reflexivity.
  assert (P : positionals (initial_state database_parser)
              = Some (1, action_parser)) by reflexivity.
  assert (F : @firstn token (S (length toks)) ((a, PA) :: toks)
              = (a, PA) :: toks)
    by (cbn [firstn]; rewrite firstn_all; reflexivity).
  assert (S0 : @skipn token (S (length toks)) ((a, PA) :: toks) = [])
    by (cbn [skipn]; apply skipn_all).
  destruct (existsb is_PO toks) eqn:E; cbn [negb].
  - cbn [count_while]. change (is_PO (a, PA)) with false. cbn [negb Nat.eqb].
    unfold consume_positionals at 1. rewrite P. cbn [snd]. rewrite M, F.
    cbn [map fst].
    destruct (take_action npm (initial_state database_parser)
                          (1, action_parser) (a :: map fst toks))
      as [st|e]; [|reflexivity].
    cbn [bind]. change (0 <? S (length toks)) with true. cbv iota.
    rewrite S0, parse_loop_nil. cbn [bind].
    unfold consume_positionals. cbn [positionals without_positionals bind skipn map].
    reflexivity.
  - cbn [bind]. unfold consume_positionals. rewrite P. cbn [snd].
    rewrite M, F. cbn [map fst].
    destruct (take_action npm (initial_state database_parser)
                          (1, action_parser) (a :: map fst toks))
      as [st|e]; [|reflexivity].
    cbn [bind]. rewrite S0. reflexivity.
Qed.

Lemma database_no_required (seen : list nat) :
  missing_required database_parser seen = false.
Proof.
  unfold missing_required. simpl. rewrite !andb_false_r. reflexivity.
Qed.

Lemma database_parse_known_args_argument (a : str) (rest : list str) :
  parse_optional ucd database_parser a = Ok None ->
  str_eqb a (py "--") = false ->
  parse_known_args ucd npm database_parser (a :: rest)
  = if str_in a (map fst action_parsers)
    then match lookup a npm with
         | None => Raise (UsageError UnknownParser)
         | Some sub =>
             '(subns, ex) <- sub rest ;;
             Ok (update [("action"%string, VStr a)] subns, ex)
         end
    else Raise (UsageError InvalidChoice).
Proof.
  intros Hopt Hdash. unfold parse_known_args. cbn [classify].
  rewrite Hdash, Hopt. cbn [bind].
  destruct (database_classify rest) as [toks Ht]. rewrite Ht. cbn [bind].
  rewrite database_consume_all.
  rewrite (classify_strings _ _ _ Ht).
  unfold take_action, get_values, check_value. cbn [snd fst nargs choices action_parser].
  destruct (str_in a (map fst action_parsers)); [|reflexivity].
  cbn [bind]. unfold call_action. cbn [cls action_parser].
  destruct (lookup a npm) as [sub|]; [|reflexivity].
  destruct (sub rest) as [[subns ex]|e]; [|reflexivity].
  cbn [bind]. rewrite database_no_required. reflexivity.
Qed.

Lemma take_action_help (st st' : state) (ia : iaction) (args : list str) :
  cls (snd ia) = HelpAction -> take_action npm st ia args <> Ok st'.
Proof.
  unfold take_action, call_action. intros ->.
  destruct (get_values (snd ia) args); discriminate.
Qed.

(** When the first argument string is an option, [database_parser]
    prints its help or leaves the string among the extras. *)
Lemma database_first_option (s : str) (t : option_tuple)
      (toks : list token) (st : state) :
  (forall ia os e, t = OptionTuple (Some ia) os e -> ia = (0, help_action)) ->
  consume_all npm database_parser ((s, PO t) :: toks) = Ok st ->
  extras st <> [].
Proof.
  intros Ht A.
  set (full := (s, PO t) :: toks) in *.
  assert (HI : (@nil token = full \/ extras st <> [])
               /\ (positionals st = None
                   \/ positionals st = Some (1, action_parser))).
  { apply (@consume_all_inv npm database_parser
             (fun st toks =>
                (toks = full \/ extras st <> [])
                /\ (positionals st = None
                    \/ positionals st = Some (1, action_parser))))
      with (toks := full); [| | | |exact A].
    - intros st0 toks0 ia2 n st' [H1 H2] P M T.
      split; [|left; reflexivity]. right.
      destruct H1 as [->|H1].
      + destruct H2 as [H2|H2]; [congruence|].
        rewrite P in H2. injection H2 as ->. discriminate M.
      + simpl. apply take_action_frame in T. destruct T as (_ & -> & _).
        exact H1.
    - intros st0 toks0 k [H1 H2] ->. split; [|exact H2].
      destruct H1 as [->|H1]; [left; reflexivity | right].
      simpl. destruct (extras st0); [congruence | discriminate].
    - intros st0 st' s0 t0 fol stop [H1 H2] C. split.
      + right. destruct t0 as [[ia0|] os0 e0].
        * apply consume_optional_inv in C.
          destruct C as (args & tuples & n & T & _).
          destruct H1 as [H1|H1].
          -- exfalso. unfold full in H1. injection H1 as _ <- _.
             rewrite (Ht _ _ _ eq_refl) in T. simpl in T.
             destruct (take_action npm st0 (0, help_action) args) eqn:E;
               [|discriminate]. apply take_action_help in E; auto.
          -- apply take_actions_frame in T. destruct T as [_ ->]. exact H1.
        * simpl in C. injection C as <- _. simpl.
          destruct (extras st0); discriminate.
      + destruct t0 as [[ia0|] os0 e0].
        * apply consume_optional_inv in C.
          destruct C as (args & tuples & n & T & _).
          apply take_actions_frame in T. destruct T as [-> _]. exact H2.
        * simpl in C. injection C as <- _. exact H2.
    - split; [left; reflexivity | right; reflexivity]. }
  destruct HI as [[HI|HI] _]; [discriminate | exact HI].
Qed.
End DatabaseParser.

(** ** The command group *)

Section CommandGroup.
Variable ucd : unicode_data.

Lemma action_name (a : str) (p : parser) :
  In (a, p) action_parsers ->
  parse_optional ucd database_parser a = Ok None
  /\ str_eqb a (py "--") = false
  /\ str_in a (map fst action_parsers) = true
  /\ lookup a (name_parser_map ucd) = Some (action_parse_known_args ucd p).
Proof.
  intros H. repeat (destruct H as [[= <- <-]|H]; [repeat split|]).
  destruct H.
Qed.

(** With the name of an action in front, the command group parses the
    rest with the parser of that action. *)
Lemma database_parse_args_action (a : str) (p : parser) (rest : list str) :
  In (a, p) action_parsers ->
  database_parse_args ucd (a :: rest)
  = ('(subns, ex) <- parse_known_args ucd [] p rest ;;
     match ex with
     | [] => Ok (update [("action"%string, VStr a)] subns)
     | _ => Raise (UsageError UnrecognizedArguments)
     end).
Proof.
  intros H. apply action_name in H. destruct H as (H1 & H2 & H3 & H4).
  unfold database_parse_args, parse_args.
  rewrite database_parse_known_args_argument by assumption.
  rewrite H3, H4. unfold action_parse_known_args.
  destruct (parse_known_args ucd [] p rest) as [[subns ex]|e]; reflexivity.
Qed.

Lemma existsb_arguments (l : list str) :
  existsb is_PO (map (fun s => (s, PA)) l) = false.
Proof. induction l; simpl; auto. Qed.

(** A successful parse of the command group: no argument string at
    all, or the name of an action followed by what the parser of that
    action accepts. *)
Lemma database_parse_args_inv (args : list str) (ns : namespace) :
  database_parse_args ucd args = Ok ns ->
  (args = [] /\ ns = [("action"%string, VNone)])
  \/ (exists a p rest subns,
         args = a :: rest
         /\ In (a, p) action_parsers
         /\ parse_known_args ucd [] p rest = Ok (subns, [])
         /\ ns = update [("action"%string, VStr a)] subns).
Proof.
  destruct args as [|a rest].
  { intros [= <-]. left. auto. }
  intros H. right.
  destruct (str_in a (map fst action_parsers)) eqn:Ha.
  - apply str_in_In, in_map_iff in Ha. destruct Ha as ([a' p] & <- & Hin).
    simpl in *. rewrite (@database_parse_args_action a' p rest Hin) in H.
    inv_bind H. destruct a as [subns ex]. destruct ex; [|discriminate].
    injection H as <-. exists a', p, rest, subns. auto.
  - exfalso. unfold database_parse_args, parse_args in H.
    inv_bind H. destruct a0 as [ns' argv].
    destruct argv; [|discriminate]. injection H as ->.
    destruct (str_eqb a (py "--")) eqn:Hdash.
    + apply str_eqb_eq in Hdash. subst a.
      unfold parse_known_args in E. cbn [classify str_eqb py] in E.
      change (str_eqb (py "--") (py "--")) with true in E.
      cbv iota in E. cbn [bind] in E.
      unfold consume_all in E. cbn [length parse_loop existsb] in E.
      change (is_PO (py "--", PDash)) with false in E.
      rewrite existsb_arguments in E. cbn [orb negb bind] in E.
      unfold consume_positionals in E.
      change (positionals (initial_state database_parser))
        with (Some (1, action_parser)) in E.
      cbn [snd] in E. destruct rest as [|b rest].
      * vm_compute in E. discriminate.
      * change (match_nargs action_parser
                  ((py "--", PDash) :: map (fun s => (s, PA)) (b :: rest)))
          with (Some (S (S (length (map (fun s : str => (s, PA)) rest)))))
          in E.
        unfold take_action in E. cbn [firstn map fst snd] in E.
        unfold get_values in E. cbn [nargs action_parser] in E.
        change (check_value _ (py "--"))
          with (@Raise unit (UsageError InvalidChoice)) in E.
        discriminate.
    + destruct (database_parse_optional ucd a) as [[t|] Hopt].
      * apply parse_known_args_inv in E.
        destruct E as (toks & st & C & A & _ & _ & Hex).
        cbn [classify] in C. rewrite Hdash, Hopt in C. cbn [bind] in C.
        inv_bind C. injection C as <-.
        apply database_first_option in A.
        -- destruct (extras st); [congruence | discriminate].
        -- intros ia os e ->. apply parse_optional_In in Hopt.
           rewrite database_option_string_actions in Hopt.
           destruct Hopt as [[= _ <-]|[[= _ <-]|[]]]; reflexivity.
      * rewrite database_parse_known_args_argument in E by assumption.
        rewrite Ha in E. discriminate.
Qed.
End CommandGroup.

(** ** Running the parser on an invocation with unknown words *)

Lemma plain_not_dashes (s : str) :
  plain s = true -> str_eqb s (py "--") = false.
Proof.
  destruct s as [|c s]; [reflexivity|]. simpl. intros H.
  apply negb_true_iff in H. change (py "--") with [45%N; 45%N]. simpl.
  rewrite H. reflexivity.
Qed.

Lemma parse_optional_plain (ucd : unicode_data) (p : parser) (s : str) :
  plain s = true -> parse_optional ucd p s = Ok None.
Proof.
  destruct s as [|c s]; [reflexivity|]. simpl. intros ->. reflexivity.
Qed.

Lemma classify_cons (ucd : unicode_data) (p : parser) (a : str)
      (rest : list str) (r : option option_tuple) (toks : list token) :
  str_eqb a (py "--") = false ->
  parse_optional ucd p a = Ok r ->
  classify ucd p rest = Ok toks ->
  classify ucd p (a :: rest)
  = Ok ((a, match r with None => PA | Some t => PO t end) :: toks).
Proof.
  intros H1 H2 H3. cbn [classify]. rewrite H1, H2, H3. reflexivity.
Qed.

Lemma classify_plain (ucd : unicode_data) (p : parser) (l : list str) :
  forallb plain l = true ->
  classify ucd p l = Ok (map (fun s => (s, PA)) l).
Proof.
  induction l as [|a l IH]; [reflexivity|]. simpl.
  rewrite andb_true_iff. intros [Ha Hl].
  rewrite (plain_not_dashes _ Ha), (parse_optional_plain ucd p _ Ha).
  simpl. rewrite (IH Hl). reflexivity.
Qed.

Lemma remove_first_plain (l : list str) :
  forallb (fun s => negb (str_eqb s (py "--"))) l = true ->
  remove_first (py "--") l = l.
Proof.
  induction l as [|a l IH]; [reflexivity|]. simpl.
  rewrite andb_true_iff. intros [Ha Hl]. apply negb_true_iff in Ha.
  rewrite Ha, (IH Hl). reflexivity.
Qed.

Lemma check_values_any (a : action) (l : list str) :
  choices a = None -> check_values a l = Ok tt.
Proof.
  intros H. induction l as [|x l IH]; [reflexivity|]. simpl.
  unfold check_value. rewrite H. simpl. exact IH.
Qed.

(** The value of a single argument that is not the string [--]. *)
Lemma get_values_one (a : action) (x : str) :
  nargs a = NargsNone ->
  str_eqb x (py "--") = false ->
  get_values a [x] = (_ <- check_value a x ;; Ok (VStr x)).
Proof.
  unfold get_values. intros -> H. simpl. rewrite H. reflexivity.
Qed.

Lemma get_values_names (a : action) (l : list str) :
  nargs a = ONE_OR_MORE ->
  choices a = None ->
  forallb (fun s => negb (str_eqb s (py "--"))) l = true ->
  get_values a l = Ok (VList l).
Proof.
  unfold get_values. intros -> Hc Hl.
  rewrite (remove_first_plain _ Hl), (check_values_any _ _ Hc). reflexivity.
Qed.

Lemma take_action_store (npm : list (str * subparser)) (st : state)
      (ia : iaction) (args : list str) (v : value) :
  cls (snd ia) = StoreAction ->
  get_values (snd ia) args = Ok v ->
  take_action npm st ia args
  = Ok (with_namespace (with_seen st (fst ia))
                       (set_dest (snd ia) (st_namespace st) v)).
Proof.
  unfold take_action, call_action. intros -> ->. reflexivity.
Qed.

Lemma explicit_loop_one (p : parser) (ia : iaction) (os e : str)
      (acc : list (iaction * list str)) :
  nargs (snd ia) = NargsNone ->
  explicit_loop p ia os e acc = Ok (acc ++ [(ia, [e])], None).
Proof.
  intros H.
  assert (M : match_nargs (snd ia) [(e, PA)] = Some 1).
  { unfold match_nargs. rewrite H. destruct (negb (is_positional (snd ia)));
      reflexivity. }
  destruct e as [|c e]; simpl; rewrite M; reflexivity.
Qed.

Lemma plain_ok (s : str) :
  plain s = true -> negb (str_eqb s (py "--")) = true.
Proof. intros H. rewrite (plain_not_dashes _ H). reflexivity. Qed.


(** ** The six actions *)

Lemma action_parser_facts (a : str) (p : parser) :
  In (a, p) action_parsers ->
  sets_only p (py "--binding") "binding" = true
  /\ sets_only p (py "--dry-run") "dry_run" = true
  /\ every_action_into p "dry_run" is_store_true = true
  /\ every_action_into p "func" (fun _ => false) = true
  /\ every_action_into p "action" (fun _ => false) = true
  /\ no_parser_action p = true
  /\ getattr (initial_namespace p) "binding" = Some (VStr (py "wx_binding"))
  /\ getattr (initial_namespace p) "dry_run" = Some (VBool false)
  /\ getattr (initial_namespace p) "action" = None
  /\ (exists ia, lookup (py "--dry-run") (option_string_actions p) = Some ia
                 /\ dest (snd ia) = Some "dry_run"%string)
  /\ (exists f, defaults p = func f
                /\ getattr (initial_namespace p) "func" = Some (VFunc f)
                /\ forallb (hasattr (initial_namespace p)) (reads f) = true).
Proof.
  intros H.
  repeat (destruct H as [[= <- <-]|H];
          [repeat split; try reflexivity;
           eexists; repeat split; reflexivity|]).
  destruct H.
Qed.

Lemma attr_has (ns : namespace) (k : string) :
  hasattr ns k = true -> exists v, getattr ns k = Some v /\ attr ns k = Ok v.
Proof.
  unfold hasattr, attr. destruct (getattr ns k) as [v|]; [eauto|discriminate].
Qed.

(** A dispatch function returns its call when the namespace has the
    attributes it reads and, for [add_column], a string as column type. *)
Lemma call_ok (ucd : unicode_data) (f : dispatch) (ns : namespace)
      (b d : value) :
  forallb (hasattr ns) (reads f) = true ->
  getattr ns "binding" = Some b ->
  getattr ns "dry_run" = Some d ->
  (f = Fn_add_column -> exists s, getattr ns "column_type" = Some (VStr s)) ->
  exists c, call ucd f ns = Ok c /\ call_db_binding c = b /\ call_dry_run c = d.
Proof.
  intros Hr Hb Hd Ht.
  assert (Ab : attr ns "binding" = Ok b) by (unfold attr; rewrite Hb; reflexivity).
  assert (Ad : attr ns "dry_run" = Ok d) by (unfold attr; rewrite Hd; reflexivity).
  destruct f; simpl in Hr;
    repeat (apply andb_true_iff in Hr; destruct Hr as [?H Hr]);
    repeat match goal with
           | H : hasattr ns ?k = true |- _ =>
               apply attr_has in H; destruct H as (? & _ & ?H)
           end;
    unfold call, create_database, drop_daily, rebuild_daily, add_column,
      rename_column, drop_columns;
    try (destruct (Ht eq_refl) as (s & Hs);
         assert (As : attr ns "column_type" = Ok (VStr s))
           by (unfold attr; rewrite Hs; reflexivity);
         rewrite As; cbn [bind upper_method]);
    repeat match goal with
           | H : attr ns ?k = Ok _ |- context [attr ns ?k] =>
               rewrite H; cbn [bind]
           end;
    eexists; repeat split; reflexivity.
Qed.

Lemma add_column_not_a_string (ucd : unicode_data) (ns : namespace)
      (l : list str) :
  getattr ns "column_type" = Some (VList l) ->
  add_column ucd ns = Raise AttributeError.
Proof.
  intros H. unfold add_column, attr. rewrite H. reflexivity.
Qed.

Section Actions.
Variable ucd : unicode_data.
Variables (a : str) (p : parser) (rest : list str) (ns : namespace).
Hypothesis Hin : In (a, p) action_parsers.
Hypothesis Hparse : database_parse_args ucd (a :: rest) = Ok ns.

(** The namespace of the command group is the one of the action, with
    the name of the action added. *)
Lemma action_namespace :
  exists subns,
    parse_known_args ucd [] p rest = Ok (subns, [])
    /\ forall k, getattr ns k
                 = match getattr subns k with
                   | Some v => Some v
                   | None => getattr [("action"%string, VStr a)] k
                   end.
Proof.
  rewrite (@database_parse_args_action ucd a p rest Hin) in Hparse.
  inv_bind Hparse. destruct a0 as [subns ex]. destruct ex; [|discriminate].
  injection Hparse as <-. exists subns. split; [reflexivity|].
  intros k. apply getattr_update. eapply leaf_NoDup; eassumption.
Qed.

Lemma action_hasattr (k : string) :
  hasattr (initial_namespace p) k = true ->
  hasattr ns k = true.
Proof.
  intros H. destruct action_namespace as (subns & Hsub & Hns).
  eapply leaf_hasattr in H; [|eassumption].
  unfold hasattr in *. rewrite Hns.
  destruct (getattr subns k); [reflexivity | discriminate].
Qed.

Lemma action_getattr (k : string) :
  hasattr (initial_namespace p) k = true ->
  exists subns,
    parse_known_args ucd [] p rest = Ok (subns, [])
    /\ getattr ns k = getattr subns k.
Proof.
  intros H. destruct action_namespace as (subns & Hsub & Hns).
  exists subns. split; [assumption|].
  eapply leaf_hasattr in H; [|eassumption].
  unfold hasattr in *. rewrite Hns.
  destruct (getattr subns k); [reflexivity | discriminate].
Qed.

Lemma action_reads (f : dispatch) :
  forallb (hasattr (initial_namespace p)) (reads f) = true ->
  forallb (hasattr ns) (reads f) = true.
Proof.
  rewrite !forallb_forall. intros H k Hk. apply action_hasattr, H, Hk.
Qed.

(** The name of the action and its dispatch function. *)
Lemma action_and_func :
  getattr ns "action" = Some (VStr a)
  /\ exists f, defaults p = func f /\ getattr ns "func" = Some (VFunc f).
Proof.
  pose proof Hin as Hfacts. apply action_parser_facts in Hfacts.
  destruct Hfacts
    as (_ & _ & _ & Hf & Ha & _ & _ & _ & Hia & _ & (f & Hdef & Hif & _)).
  destruct action_namespace as (subns & Hsub & Hns).
  assert (Xa : getattr subns "action" = getattr (initial_namespace p) "action")
    by (eapply leaf_untouched; eassumption).
  assert (Xf : getattr subns "func" = getattr (initial_namespace p) "func")
    by (eapply leaf_untouched; eassumption).
  split.
  - rewrite Hns, Xa, Hia. reflexivity.
  - exists f. split; [assumption|]. rewrite Hns, Xf, Hif. reflexivity.
Qed.

(** The dry-run flag. *)
Lemma action_dry_run :
  exists b,
    getattr ns "dry_run" = Some (VBool b)
    /\ (mentions "--dry-run" rest = false -> b = false)
    /\ (In (py "--dry-run") (options_zone rest) -> b = true).
Proof.
  pose proof Hin as Hfacts. apply action_parser_facts in Hfacts.
  destruct Hfacts
    as (_ & Hso & Hfl & _ & _ & Hnp & _ & Hid & _ & (ia & Hl & Hd) & _).
  destruct (@action_getattr "dry_run") as (subns & Hsub & Hns).
  { unfold hasattr. rewrite Hid. reflexivity. }
  assert (Hb : exists b, getattr subns "dry_run" = Some (VBool b))
    by (eapply leaf_flag; eassumption).
  destruct Hb as (b & Hb).
  exists b. rewrite Hns. split; [assumption|]. split.
  - intros Hm.
    assert (H : getattr subns "dry_run"
                = getattr (initial_namespace p) "dry_run")
      by (eapply omitted_default; eassumption).
    rewrite Hb, Hid in H. congruence.
  - intros Hz.
    assert (H : getattr subns "dry_run" = Some (VBool true))
      by (eapply leaf_flag_present with (o := "--dry-run"%string);
          try eassumption; reflexivity).
    rewrite Hb in H. congruence.
Qed.

(** The binding, when the invocation does not mention the option. *)
Lemma action_binding :
  mentions "--binding" rest = false ->
  getattr ns "binding" = Some (VStr (py "wx_binding")).
Proof.
  intros Hm.
  pose proof Hin as Hfacts. apply action_parser_facts in Hfacts.
  destruct Hfacts as (Hso & _ & _ & _ & _ & _ & Hib & _).
  destruct (@action_getattr "binding") as (subns & Hsub & Hns).
  { unfold hasattr. rewrite Hib. reflexivity. }
  rewrite Hns, <- Hib. eapply omitted_default; eassumption.
Qed.
End Actions.

(** ** The column type of [add-column] *)

Lemma add_column_action :
  In (py "add-column", add_column_parser) action_parsers.
Proof. simpl. auto 10. Qed.

Lemma add_column_parser_only (a : str) (p : parser) :
  In (a, p) action_parsers -> defaults p = func Fn_add_column ->
  a = py "add-column" /\ p = add_column_parser.
Proof.
  intros H Hd.
  repeat (destruct H as [[= <- <-]|H]; [try discriminate Hd; auto|]).
  destruct H.
Qed.

Lemma add_column_type (ucd : unicode_data) (rest : list str)
      (ns : namespace) :
  database_parse_args ucd (py "add-column" :: rest) = Ok ns ->
  ((exists s, getattr ns "column_type" = Some (VStr s)
              /\ In s column_type_choices)
   \/ (exists l, getattr ns "column_type" = Some (VList l)))
  /\ (mentions "--type" rest = false ->
      getattr ns "column_type" = Some (VStr (py "REAL"))).
Proof.
  intros H.
  destruct (@action_getattr ucd _ _ rest ns add_column_action H "column_type")
    as (subns & Hsub & ->); [reflexivity|].
  split.
  - eapply leaf_one_of; [eassumption | reflexivity |].
    exists (py "REAL"). split; [reflexivity | left; reflexivity].
  - intros Hm.
    assert (X : getattr subns "column_type"
                = getattr (initial_namespace add_column_parser) "column_type")
      by (eapply omitted_default with (o := "--type"%string);
          [reflexivity | eassumption | eassumption]).
    rewrite X. reflexivity.
Qed.

(** What a dispatch function does with a parsed namespace: it makes its
    call, with the binding and the dry-run flag of the namespace; the one
    exception is [add_column] on a column type that argparse left as a
    list, where [upper] is missing. *)
Lemma action_call (ucd : unicode_data) (a : str) (p : parser) (f : dispatch)
      (rest : list str) (ns : namespace) (b d : value) :
  In (a, p) action_parsers ->
  defaults p = func f ->
  database_parse_args ucd (a :: rest) = Ok ns ->
  getattr ns "binding" = Some b ->
  getattr ns "dry_run" = Some d ->
  (exists c, call ucd f ns = Ok c
             /\ call_db_binding c = b /\ call_dry_run c = d)
  \/ (f = Fn_add_column
      /\ (exists l, getattr ns "column_type" = Some (VList l))
      /\ call ucd f ns = Raise AttributeError).
Proof.
  intros Hin Hdef Hparse Hb Hd.
  pose proof Hin as Hfacts. apply action_parser_facts in Hfacts.
  destruct Hfacts as (_ & _ & _ & _ & _ & _ & _ & _ & _ & _
                      & (f' & Hdef' & _ & Hreads)).
  assert (f' = f) as -> by (rewrite Hdef in Hdef'; injection Hdef'; auto).
  pose proof (@action_reads ucd a p rest ns Hin Hparse f Hreads) as Hr.
  assert (Hcases : f <> Fn_add_column \/ f = Fn_add_column)
    by (destruct f; auto; left; discriminate).
  destruct Hcases as [Hne| ->].
  - left. apply call_ok; auto. intros E. contradiction.
  - pose proof Hin as Hp. eapply add_column_parser_only in Hp; [|exact Hdef].
    destruct Hp as [-> ->].
    pose proof Hparse as Ht. apply add_column_type in Ht.
    destruct Ht as [[(s & Hs & _)|(l & Hl)] _].
    + left. apply call_ok; auto. intros _. eauto.
    + right. split; [reflexivity|]. split; [eauto|].
      simpl. eapply add_column_not_a_string, Hl.
Qed.

(** An invocation of [rename-column] in which no
    argument string spells [--to-name] does not parse: no namespace is
    returned, so no dispatch takes place. *)
Lemma rename_column_requires_to_name (ucd : unicode_data) (rest : list str)
      (ns : namespace) :
  mentions "--to-name" rest = false ->
  database_parse_args ucd (py "rename-column" :: rest) <> Ok ns.
Proof.
  intros Hm H.
  assert (Hin : In (py "rename-column", rename_column_parser) action_parsers)
    by (simpl; auto 10).
  rewrite (@database_parse_args_action ucd _ _ rest Hin) in H.
  inv_bind H.
  revert E.
  eapply omitted_required
    with (p := rename_column_parser)
         (o := "--to-name"%string) (d := "new_name"%string)
         (ia := (2, store "--to-name" "new_name" VNone None true));
    [reflexivity | simpl; auto | reflexivity | reflexivity | assumption].
Qed.

(** Whatever [drop-columns] parses has a non-empty
    list of names, which [drop_columns] passes on. *)
Lemma drop_columns_names (ucd : unicode_data) (rest : list str)
      (ns : namespace) :
  database_parse_args ucd (py "drop-columns" :: rest) = Ok ns ->
  exists l config binding dry_run,
    l <> []
    /\ getattr ns "column_names" = Some (VList l)
    /\ drop_columns ns
       = Ok (Call_drop_columns config binding (VList l) dry_run).
Proof.
  intros H.
  assert (Hin : In (py "drop-columns", drop_columns_parser) action_parsers)
    by (simpl; auto 10).
  destruct (@action_getattr ucd _ _ rest ns Hin H "column_names")
    as (subns & Hsub & Hns); [reflexivity|].
  assert (Hl : exists l, l <> []
                         /\ getattr subns "column_names" = Some (VList l)).
  { eapply leaf_names
      with (p := drop_columns_parser)
           (ia := (1, positional "column_names" ONE_OR_MORE));
      [reflexivity | simpl; auto | reflexivity | reflexivity | eassumption]. }
  destruct Hl as (l & Hne & Hl). rewrite <- Hns in Hl.
  assert (Hr : forallb (hasattr ns) (reads Fn_drop_columns) = true)
    by (eapply action_reads; [exact Hin | eassumption | reflexivity]).
  simpl in Hr. repeat (apply andb_true_iff in Hr; destruct Hr as [?H Hr]).
  repeat match goal with
         | X : hasattr ns ?k = true |- _ =>
             apply attr_has in X; destruct X as (? & _ & ?X)
         end.
  unfold drop_columns.
  repeat match goal with
         | X : attr ns ?k = Ok _ |- context [attr ns ?k] =>
             rewrite X; cbn [bind]
         end.
  assert (A : attr ns "column_names" = Ok (VList l))
    by (unfold attr; rewrite Hl; reflexivity).
  rewrite A in *. 
  match goal with
  | X : Ok _ = Ok (VList l) |- _ => injection X as ->
  | X : Ok (VList l) = Ok _ |- _ => injection X as <-
  end.
  eauto 10.
Qed.

(** ** Invocations of [drop-columns] *)

Lemma parse_loop_no_option (npm : list (str * subparser)) (p : parser)
      (bound : nat) (st : state) (toks : list token) :
  existsb is_PO toks = false ->
  parse_loop npm p bound st toks = Ok (st, toks).
Proof. intros H. destruct bound; simpl; rewrite H; reflexivity. Qed.

Lemma plain_all_not_dashes (l : list str) :
  forallb plain l = true ->
  forallb (fun s => negb (str_eqb s (py "--"))) l = true.
Proof. apply forallb_weaken. exact plain_ok. Qed.

Lemma match_one_or_more_arguments (a : action) (x : str) (l : list str) :
  option_strings a = [] ->
  nargs a = ONE_OR_MORE ->
  match_nargs a (@map str token (fun s => (s, PA)) (x :: l))
  = Some (S (length l)).
Proof.
  unfold match_nargs, is_positional. intros -> ->. cbn [negb]. cbv zeta.
  cbn [map]. change (count_while is_PDash ((x, PA) :: _)) with 0.
  cbn [skipn]. change (is_PA (x, PA)) with true. cbv iota.
  rewrite count_while_all.
  - rewrite length_map. reflexivity.
  - apply forallb_forall. intros y Hy. apply in_map_iff in Hy.
    destruct Hy as (z & <- & _). reflexivity.
Qed.

(** [drop-columns NAME NAME ...] with plain names. *)
Lemma drop_columns_plain_names (ucd : unicode_data) (names : list str) :
  names <> [] ->
  forallb plain names = true ->
  database_parse_args ucd (py "drop-columns" :: names)
  = Ok [("action"%string, VStr (py "drop-columns"));
        ("column_names"%string, VList names);
        ("config"%string, VNone);
        ("binding"%string, VStr (py "wx_binding"));
        ("dry_run"%string, VBool false);
        ("func"%string, VFunc Fn_drop_columns)].
Proof.
  intros Hne Hplain.
  rewrite (@database_parse_args_action ucd (py "drop-columns")
             drop_columns_parser names) by (simpl; auto 10).
  unfold parse_known_args. rewrite classify_plain by assumption.
  cbn [bind]. unfold consume_all.
  rewrite parse_loop_no_option by apply existsb_arguments.
  cbn [bind]. unfold consume_positionals.
  change (positionals (initial_state drop_columns_parser))
    with (Some (1, positional "column_names" ONE_OR_MORE)).
  cbn [snd]. destruct names as [|x l]; [congruence|].
  rewrite match_one_or_more_arguments by reflexivity.
  assert (Hlen : length (@map str token (fun s => (s, PA)) (x :: l))
                 <= S (length l)) by (rewrite length_map; simpl; lia).
  rewrite (firstn_all2 _ Hlen), map_map. cbn [fst]. rewrite map_id.
  erewrite take_action_store;
    [|reflexivity
     |apply get_values_names;
      [reflexivity | reflexivity | apply plain_all_not_dashes, Hplain]].
  cbn [bind]. rewrite (skipn_all2 _ Hlen). reflexivity.
Qed.

(** ** Invocations of [rename-column] *)

(** [rename-column FROM-NAME --to-name NEW-NAME] with plain names. *)
Lemma rename_column_plain (ucd : unicode_data) (old new : str) :
  plain old = true ->
  plain new = true ->
  database_parse_args ucd [py "rename-column"; old; py "--to-name"; new]
  = Ok [("action"%string, VStr (py "rename-column"));
        ("column_name"%string, VStr old);
        ("new_name"%string, VStr new);
        ("config"%string, VNone);
        ("binding"%string, VStr (py "wx_binding"));
        ("dry_run"%string, VBool false);
        ("func"%string, VFunc Fn_rename_column)].
Proof.
  intros Ho Hn.
  rewrite (@database_parse_args_action ucd (py "rename-column")
             rename_column_parser) by (simpl; auto 10).
  unfold parse_known_args.
  rewrite (@classify_cons ucd rename_column_parser old _ None
             [(py "--to-name",
               PO (OptionTuple
                     (Some (2, store "--to-name" "new_name" VNone None true))
                     (py "--to-name") None));
              (new, PA)]);
    [ | apply plain_not_dashes, Ho | apply parse_optional_plain, Ho | ].
  2:{ rewrite (@classify_cons ucd rename_column_parser (py "--to-name") _
                 (Some (OptionTuple
                          (Some (2, store "--to-name" "new_name" VNone None true))
                          (py "--to-name") None))
                 [(new, PA)]); [reflexivity | reflexivity | reflexivity |].
      apply (@classify_plain ucd rename_column_parser [new]).
      simpl. rewrite Hn. reflexivity. }
  cbn [bind]. unfold consume_all. cbn.
  (erewrite take_action_store;
   [ | reflexivity
     | rewrite get_values_one by (auto using plain_not_dashes);
       reflexivity ]).
  cbn.
  (erewrite take_action_store;
   [ | reflexivity
     | rewrite get_values_one by (auto using plain_not_dashes);
       reflexivity ]).
  reflexivity.
Qed.

(** [rename-column --to-name=NEW-NAME FROM-NAME], whatever the new name
    is, the string [--] apart. *)
Lemma rename_column_explicit (ucd : unicode_data) (old new : str) :
  plain old = true ->
  str_eqb new (py "--") = false ->
  database_parse_args ucd [py "rename-column"; py "--to-name=" ++ new; old]
  = Ok [("action"%string, VStr (py "rename-column"));
        ("column_name"%string, VStr old);
        ("new_name"%string, VStr new);
        ("config"%string, VNone);
        ("binding"%string, VStr (py "wx_binding"));
        ("dry_run"%string, VBool false);
        ("func"%string, VFunc Fn_rename_column)].
Proof.
  intros Ho Hn.
  rewrite (@database_parse_args_action ucd (py "rename-column")
             rename_column_parser) by (simpl; auto 10).
  unfold parse_known_args.
  rewrite (@classify_cons ucd rename_column_parser (py "--to-name=" ++ new) _
             (Some (OptionTuple
                      (Some (2, store "--to-name" "new_name" VNone None true))
                      (py "--to-name") (Some new)))
             [(old, PA)]);
    [ | reflexivity | reflexivity
      | apply (@classify_plain ucd rename_column_parser [old]);
        simpl; rewrite Ho; reflexivity ].
  cbn [bind]. unfold consume_all. cbn.
  rewrite explicit_loop_one by reflexivity. cbn.
  erewrite take_action_store;
    [ | reflexivity | rewrite get_values_one by auto; reflexivity ].
  cbn.
  (erewrite take_action_store;
   [ | reflexivity
     | rewrite get_values_one by (auto using plain_not_dashes);
       reflexivity ]).
  reflexivity.
Qed.

(** ** Invocations of [rebuild-daily] *)

(** [rebuild-daily] with any of [--date=], [--from=] and [--to=]: each
    attribute holds the value given, or [None]. *)
Lemma rebuild_daily_dates (ucd : unicode_data) (d f t : option str) :
  not_dashes d = true ->
  not_dashes f = true ->
  not_dashes t = true ->
  database_parse_args ucd
    (py "rebuild-daily"
        :: option_arg "--date" d ++ option_arg "--from" f
        ++ option_arg "--to" t)
  = Ok [("action"%string, VStr (py "rebuild-daily"));
        ("config"%string, VNone);
        ("binding"%string, VStr (py "wx_binding"));
        ("date"%string, optional_value d);
        ("from_date"%string, optional_value f);
        ("to_date"%string, optional_value t);
        ("dry_run"%string, VBool false);
        ("func"%string, VFunc Fn_rebuild_daily)].
Proof.
  intros Hd Hf Ht.
  rewrite (@database_parse_args_action ucd (py "rebuild-daily")
             database_rebuild_parser) by (simpl; auto 10).
  unfold parse_known_args.
  destruct d as [d|], f as [f|], t as [t|];
    cbn [option_arg app optional_value not_dashes] in *;
    repeat match goal with
           | H : negb _ = true |- _ => apply negb_true_iff in H
           end;
    repeat (erewrite classify_cons;
            [ | lazy; reflexivity | lazy; reflexivity | ]);
    try reflexivity;
    cbn [bind]; unfold consume_all; cbn;
    repeat (rewrite explicit_loop_one by reflexivity; cbn;
            erewrite take_action_store;
            [ | reflexivity | rewrite get_values_one by auto; reflexivity ];
            cbn);
    reflexivity.
Qed.

(** ** Invocations of [add-column] *)

Lemma classify_cons_raise (ucd : unicode_data) (p : parser) (a : str)
      (rest : list str) (r : option option_tuple) (e : exn) :
  str_eqb a (py "--") = false ->
  parse_optional ucd p a = Ok r ->
  classify ucd p rest = Raise e ->
  classify ucd p (a :: rest) = Raise e.
Proof.
  intros H1 H2 H3. cbn [classify]. rewrite H1, H2, H3. reflexivity.
Qed.

(** [add-column NAME --type=TYPE]: the choice is checked against the
    five spellings. *)
Lemma add_column_type_explicit (ucd : unicode_data) (name v : str) :
  plain name = true ->
  str_eqb v (py "--") = false ->
  database_parse_args ucd [py "add-column"; name; py "--type=" ++ v]
  = if str_in v column_type_choices
    then Ok (add_column_namespace name v)
    else Raise (UsageError InvalidChoice).
Proof.
  intros Hn Hv.
  rewrite (@database_parse_args_action ucd (py "add-column")
             add_column_parser) by (simpl; auto 10).
  unfold parse_known_args.
  rewrite (@classify_cons ucd add_column_parser name _ None
             [(py "--type=" ++ v,
               PO (OptionTuple
                     (Some (2, store "--type" "column_type" (VStr (py "REAL"))
                                     (Some column_type_choices) false))
                     (py "--type") (Some v)))]);
    [ | apply plain_not_dashes, Hn | apply parse_optional_plain, Hn
      | rewrite (@classify_cons ucd add_column_parser (py "--type=" ++ v) []
                  (Some (OptionTuple
                        (Some (2, store "--type" "column_type"
                                        (VStr (py "REAL"))
                                        (Some column_type_choices) false))
                        (py "--type") (Some v)))
                  []); reflexivity ].
  cbn [bind]. unfold consume_all. cbn.
  (erewrite take_action_store;
   [ | reflexivity
     | rewrite get_values_one by (auto using plain_not_dashes);
       reflexivity ]).
  cbn. rewrite explicit_loop_one by reflexivity. cbn.
  unfold take_action. rewrite get_values_one by auto.
  unfold check_value. cbn [snd choices store].
  destruct (str_in v column_type_choices) eqn:Eb;
    cbn in Eb; cbn; rewrite Eb; reflexivity.
Qed.

(** [add-column NAME --type TYPE] with a plain word for the type. *)
Lemma add_column_type_plain (ucd : unicode_data) (name v : str) :
  plain name = true ->
  plain v = true ->
  database_parse_args ucd [py "add-column"; name; py "--type"; v]
  = if str_in v column_type_choices
    then Ok (add_column_namespace name v)
    else Raise (UsageError InvalidChoice).
Proof.
  intros Hn Hv.
  rewrite (@database_parse_args_action ucd (py "add-column")
             add_column_parser) by (simpl; auto 10).
  unfold parse_known_args.
  rewrite (@classify_cons ucd add_column_parser name _ None
             [(py "--type",
               PO (OptionTuple
                     (Some (2, store "--type" "column_type" (VStr (py "REAL"))
                                     (Some column_type_choices) false))
                     (py "--type") None));
              (v, PA)]);
    [ | apply plain_not_dashes, Hn | apply parse_optional_plain, Hn
      | rewrite (@classify_cons ucd add_column_parser (py "--type") [v]
                  (Some (OptionTuple
                        (Some (2, store "--type" "column_type"
                                        (VStr (py "REAL"))
                                        (Some column_type_choices) false))
                        (py "--type") None))
                  [(v, PA)]);
        [reflexivity | reflexivity | reflexivity
         | apply (@classify_plain ucd add_column_parser [v]);
           simpl; rewrite Hv; reflexivity] ].
  cbn [bind]. unfold consume_all. cbn.
  (erewrite take_action_store;
   [ | reflexivity
     | rewrite get_values_one by (auto using plain_not_dashes);
       reflexivity ]).
  cbn. unfold take_action.
  rewrite get_values_one by (auto using plain_not_dashes).
  unfold check_value. cbn [snd choices store].
  destruct (str_in v column_type_choices) eqn:Eb;
    cbn in Eb; cbn; rewrite Eb; reflexivity.
Qed.

(** [add-column NAME --type TYPE] with a type that starts with a dash:
    whatever argparse takes the string for, the option is left without
    its argument or the choice is refused. *)
Lemma add_column_type_dash (ucd : unicode_data) (name v : str)
      (ns : namespace) :
  plain name = true ->
  plain v = false ->
  database_parse_args ucd [py "add-column"; name; py "--type"; v] <> Ok ns.
Proof.
  intros Hn Hv H.
  rewrite (@database_parse_args_action ucd (py "add-column")
             add_column_parser) in H by (simpl; auto 10).
  unfold parse_known_args in H.
  assert (Hchoice : str_in v column_type_choices = false).
  { destruct v as [|c v]; [discriminate|]. simpl in Hv.
    apply negb_false_iff, N.eqb_eq in Hv. subst c. reflexivity. }
  assert (Hcl : exists pat,
             classify ucd add_column_parser [v] = Ok [(v, pat)]
             \/ exists e, classify ucd add_column_parser [v] = Raise e).
  { cbn [classify]. destruct (str_eqb v (py "--")); [exists PDash; auto|].
    destruct (parse_optional ucd add_column_parser v) as [[t|]|e]; cbn [bind].
    - exists (PO t). auto.
    - exists PA. auto.
    - exists PA. eauto. }
  destruct Hcl as (pat & [Hcl|(e & Hcl)]).
  - rewrite (@classify_cons ucd add_column_parser name _ None
               [(py "--type",
                 PO (OptionTuple
                       (Some (2, store "--type" "column_type"
                                       (VStr (py "REAL"))
                                       (Some column_type_choices) false))
                       (py "--type") None));
                (v, pat)]) in H;
      [ | apply plain_not_dashes, Hn | apply parse_optional_plain, Hn
        | rewrite (@classify_cons ucd add_column_parser (py "--type") [v]
                    (Some (OptionTuple
                        (Some (2, store "--type" "column_type"
                                        (VStr (py "REAL"))
                                        (Some column_type_choices) false))
                        (py "--type") None))
                    [(v, pat)]);
          [reflexivity | reflexivity | reflexivity | exact Hcl] ].
    cbn [bind] in H. unfold consume_all in H.
    destruct pat; cbn in H;
      (erewrite take_action_store in H;
       [ | reflexivity
         | rewrite get_values_one by (auto using plain_not_dashes);
           reflexivity ]);
      cbn in H; try discriminate.
    unfold take_action in H. cbn [snd] in H.
    destruct (str_eqb v (py "--")) eqn:Ed.
    + apply str_eqb_eq in Ed. subst v. discriminate.
    + rewrite get_values_one in H by auto.
      unfold check_value in H. cbn [choices store] in H.
      rewrite Hchoice in H. discriminate.
  - rewrite (@classify_cons_raise ucd add_column_parser name _ None e) in H;
      [ discriminate | apply plain_not_dashes, Hn
        | apply parse_optional_plain, Hn | ].
    eapply classify_cons_raise; [reflexivity | reflexivity | exact Hcl].
Qed.

(** ** How a parse ends *)

Lemma check_value_exit (a : action) (v : str) (e : exn) :
  check_value a v = Raise e -> argparse_exit e = true.
Proof.
  unfold check_value. destruct (choices a); [|discriminate].
  destruct (str_in v l); [discriminate|]. intros [= <-]. reflexivity.
Qed.

Lemma check_values_exit (a : action) (l : list str) (e : exn) :
  check_values a l = Raise e -> argparse_exit e = true.
Proof.
  induction l as [|v l IH]; simpl; [discriminate|].
  destruct (check_value a v) eqn:E; simpl; [exact IH|].
  intros [= <-]. eapply check_value_exit, E.
Qed.

Lemma match_nargs_parser (a : action) (toks : list token) (n : nat) :
  match_nargs a toks = Some n ->
  nargs a = PARSER ->
  map fst (firstn n toks) <> [].
Proof.
  unfold match_nargs. intros H Hp. rewrite Hp in H.
  destruct (skipn _ toks) as [|t r] eqn:Hs; [discriminate|].
  destruct (is_PA t); [|discriminate]. injection H as <-.
  destruct toks as [|x toks]; [destruct (if negb _ then _ else _); discriminate|].
  rewrite <- Nat.add_assoc, Nat.add_comm. simpl. discriminate.
Qed.

Section Exits.
Variable ucd : unicode_data.
Variable npm : list (str * subparser).
Variable p : parser.
Hypothesis Hsub : forall name sub args e,
    lookup name npm = Some sub -> sub args = Raise e ->
    argparse_exit e = true.
Hypothesis Hok : subparsers_ok p = true.

Lemma take_action_exit (st : state) (ia : iaction) (args : list str)
      (e : exn) :
  takes p (ia, args) ->
  take_action npm st ia args = Raise e -> argparse_exit e = true.
Proof.
  intros [Hin Hargs]. simpl in Hin, Hargs.
  apply actions_indexed_action in Hin.
  unfold subparsers_ok in Hok. rewrite forallb_forall in Hok.
  specialize (Hok _ Hin).
  unfold take_action.
  destruct (get_values (snd ia) args) as [v|e'] eqn:G; simpl.
  - unfold call_action.
    destruct (cls (snd ia)); try discriminate.
    + intros [= <-]. reflexivity.
    + destruct (nargs (snd ia)) eqn:N; try discriminate Hok.
      unfold get_values in G. rewrite N in G.
      destruct args as [|v0 args]; [destruct (Hargs eq_refl eq_refl)|].
      destruct (check_value (snd ia) v0); simpl in G; [|discriminate].
      injection G as <-.
      destruct (lookup v0 npm) as [sub|] eqn:L;
        [|intros [= <-]; reflexivity].
      destruct (sub args) as [[subns ex]|e'] eqn:S; simpl; [discriminate|].
      intros [= <-]. eapply Hsub; eassumption.
  - intros [= <-]. unfold get_values in G.
    destruct (nargs (snd ia)) eqn:N.
    + destruct (remove_first (py "--") args) as [|x [|y l]];
        simpl in G.
      * discriminate.
      * destruct (check_value (snd ia) x) eqn:C; simpl in G;
          [discriminate|]. injection G as <-. eapply check_value_exit, C.
      * destruct (check_value (snd ia) x) eqn:C; simpl in G.
        -- destruct (check_value (snd ia) y) eqn:C'; simpl in G.
           ++ destruct (check_values (snd ia) l) eqn:C''; simpl in G;
                [discriminate|]. injection G as <-.
              eapply check_values_exit, C''.
           ++ injection G as <-. eapply check_value_exit, C'.
        -- injection G as <-. eapply check_value_exit, C.
    + destruct (check_values (snd ia) _) eqn:C; simpl in G; [discriminate|].
      injection G as <-. eapply check_values_exit, C.
    + destruct (check_values (snd ia) _) eqn:C; simpl in G; [discriminate|].
      injection G as <-. eapply check_values_exit, C.
    + destruct args as [|v0 args]; [destruct (Hargs eq_refl eq_refl)|].
      destruct (check_value (snd ia) v0) eqn:C; simpl in G; [discriminate|].
      injection G as <-. eapply check_value_exit, C.
Qed.

Lemma take_actions_exit (l : list (iaction * list str)) :
  forall st e,
    Forall (takes p) l ->
    take_actions npm st l = Raise e -> argparse_exit e = true.
Proof.
  induction l as [|[ia args] l IH]; intros st e Hl; simpl; [discriminate|].
  inversion Hl as [|? ? H1 H2]; subst.
  destruct (take_action npm st ia args) as [st'|e'] eqn:T; simpl.
  - apply IH, H2.
  - intros [= <-]. eapply take_action_exit; eassumption.
Qed.

Lemma lookup_action (o : str) (ia : iaction) :
  lookup o (option_string_actions p) = Some ia ->
  In ia (actions_indexed p).
Proof.
  intros H. apply lookup_In in H.
  apply option_string_actions_In in H. apply H.
Qed.

Lemma explicit_loop_exit (e : str) :
  forall ia os acc,
    In ia (actions_indexed p) ->
    Forall (takes p) acc ->
    match explicit_loop p ia os e acc with
    | Ok (tuples, pending) =>
        Forall (takes p) tuples
        /\ (forall ia', pending = Some ia' -> In ia' (actions_indexed p))
    | Raise x => argparse_exit x = true
    end.
Proof.
  induction e as [|c e IH]; intros ia os acc Hia Hacc; simpl.
  - destruct (match_nargs _ _) as [n|]; [|reflexivity].
    destruct (n =? 1); [|reflexivity]. split; [|discriminate].
    apply Forall_app. split; [assumption|].
    constructor; [|constructor]. split; [assumption | discriminate].
  - destruct (match_nargs _ _) as [n|] eqn:M; [|reflexivity].
    destruct ((n =? 0) && negb (N.eqb (nth 1 os 0%N) 45)) eqn:Z.
    + apply andb_true_iff in Z. destruct Z as [Z _].
      apply Nat.eqb_eq in Z. subst n.
      assert (Hacc' : Forall (takes p) (acc ++ [(ia, [])])).
      { apply Forall_app. split; [assumption|].
        constructor; [|constructor]. split; [assumption|]. simpl.
        intros Hp. apply (match_nargs_parser _ _ M) in Hp.
        simpl in Hp. congruence. }
      destruct (lookup [hd 45%N os; c] (option_string_actions p))
        as [ia'|] eqn:L; [|reflexivity].
      apply lookup_action in L.
      destruct e as [|c' e'].
      * split; [assumption|]. intros ? [= <-]. assumption.
      * apply IH; assumption.
    + destruct (n =? 1); [|reflexivity]. split; [|discriminate].
      apply Forall_app. split; [assumption|].
      constructor; [|constructor]. split; [assumption | discriminate].
Qed.

Lemma consume_optional_exit (st : state) (s : str) (t : option_tuple)
      (fol : list token) :
  known_options p ((s, PO t) :: fol) ->
  match consume_optional npm p st ((s, PO t) :: fol) with
  | Ok (st', stop) => positionals st' = positionals st /\ 1 <= stop
  | Raise x => argparse_exit x = true
  end.
Proof.
  intros Hk. destruct t as [[ia|] os e]; simpl; [|split; [reflexivity | lia]].
  assert (Hia : In ia (actions_indexed p)) by (eapply Hk; left; reflexivity).
  assert (H1 : match (match e with
                      | Some e0 => explicit_loop p ia os e0 []
                      | None => Ok ([], Some ia)
                      end) with
               | Ok (tuples, pending) =>
                   Forall (takes p) tuples
                   /\ (forall ia', pending = Some ia' ->
                                   In ia' (actions_indexed p))
               | Raise x => argparse_exit x = true
               end).
  { destruct e as [e|].
    - apply explicit_loop_exit; [assumption | constructor].
    - split; [constructor|]. intros ? [= <-]. assumption. }
  destruct (match e with Some _ => _ | None => _ end)
    as [[tuples pending]|x]; simpl; [|exact H1].
  destruct H1 as [Ht Hp].
  destruct pending as [ia'|]; simpl.
  - unfold match_argument.
    destruct (match_nargs (snd ia') fol) as [n|] eqn:M; simpl;
      [|reflexivity].
    destruct (take_actions npm st _) as [st'|x] eqn:T; simpl.
    + apply take_actions_frame in T. split; [apply T | lia].
    + eapply take_actions_exit; [|exact T].
      apply Forall_app. split; [assumption|].
      constructor; [|constructor]. split; [apply Hp; reflexivity|].
      simpl. intros Hn. apply (match_nargs_parser _ _ M Hn).
  - destruct (take_actions npm st tuples) as [st'|x] eqn:T; simpl.
    + apply take_actions_frame in T. split; [apply T | lia].
    + eapply take_actions_exit; eassumption.
Qed.

Lemma consume_positionals_exit (st : state) (toks : list token) :
  known_positional p st ->
  match consume_positionals npm st toks with
  | Ok (st', n) => known_positional p st'
  | Raise x => argparse_exit x = true
  end.
Proof.
  intros Hk. unfold consume_positionals.
  destruct (positionals st) as [ia|] eqn:P; [|exact Hk].
  destruct (match_nargs (snd ia) toks) as [n|] eqn:M; [|exact Hk].
  destruct (take_action npm st ia _) as [st'|x] eqn:T; simpl.
  - intros ia' H. discriminate H.
  - eapply take_action_exit; [|exact T]. split; [apply Hk, P|].
    simpl. intros Hn. apply (match_nargs_parser _ _ M Hn).
Qed.

Lemma known_options_skipn (n : nat) (toks : list token) :
  known_options p toks -> known_options p (skipn n toks).
Proof.
  intros H s ia os e Hin. eapply H, In_skipn, Hin.
Qed.

Lemma skipn_shorter {A : Type} (n : nat) (l : list A) :
  1 <= n -> l <> [] -> length (skipn n l) < length l.
Proof.
  intros Hn Hl. rewrite length_skipn. destruct l; [congruence|].
  cbn [length]. lia.
Qed.

(** The loop ends within its bound, and what it raises is an exit of
    argparse. *)
Lemma parse_loop_exit (bound : nat) :
  forall st toks,
    length toks <= bound ->
    known_positional p st ->
    known_options p toks ->
    match parse_loop npm p bound st toks with
    | Ok (st', rest) => known_positional p st'
    | Raise x => argparse_exit x = true
    end.
Proof.
  induction bound as [|bound IH]; intros st toks Hlen Hpos Hopt.
  - destruct toks; [exact Hpos | simpl in Hlen; lia].
  - cbn [parse_loop].
    destruct (existsb is_PO toks) eqn:E; cbn [negb]; [|exact Hpos].
    assert (Hne : toks <> []) by (intros ->; discriminate E).
    set (next := count_while (fun t => negb (is_PO t)) toks).
    assert (H1 : match (if next =? 0 then Ok (st, 0)
                        else consume_positionals npm st toks) with
                 | Ok (st', n) => known_positional p st'
                 | Raise x => argparse_exit x = true
                 end).
    { destruct (next =? 0); [exact Hpos|].
      apply consume_positionals_exit, Hpos. }
    destruct (if next =? 0 then _ else _) as [[st1 consumed]|x];
      cbn [bind]; [|exact H1].
    destruct (0 <? consumed) eqn:C.
    + apply Nat.ltb_lt in C. apply IH.
      * pose proof (@skipn_shorter token consumed toks C Hne). lia.
      * exact H1.
      * apply known_options_skipn, Hopt.
    + destruct (first_option toks E) as (s & t & fol & Hs).
      fold next in Hs. rewrite Hs.
      pose proof (@consume_optional_exit
                    (with_extras st1 (map fst (firstn next toks)))
                    s t fol) as H2.
      rewrite <- Hs in H2. specialize (H2 (known_options_skipn _ Hopt)).
      rewrite Hs in H2.
      destruct (consume_optional npm p _ _) as [[st2 stop]|x];
        cbn [bind]; [|exact H2].
      destruct H2 as [H2 Hstop]. apply IH.
      * assert (length ((s, PO t) :: fol) <= length toks)
          by (rewrite <- Hs, length_skipn; lia).
        assert (Hc : (s, PO t) :: fol <> []) by discriminate.
        pose proof (@skipn_shorter token stop _ Hstop Hc). lia.
      * intros ia. rewrite H2. apply H1.
      * rewrite <- Hs. apply known_options_skipn, known_options_skipn, Hopt.
Qed.

Lemma parse_optional_exit (s : str) (e : exn) :
  parse_optional ucd p s = Raise e -> argparse_exit e = true.
Proof.
  unfold parse_optional. destruct s as [|c0 r]; [discriminate|].
  destruct (negb (N.eqb c0 45)); [discriminate|].
  destruct (lookup _ _); [discriminate|].
  destruct (length _ =? 1); [discriminate|].
  destruct (if contains 61 _ then _ else _); [discriminate|].
  destruct (get_option_tuples p (c0 :: r)) as [|t [|t' l]];
    [| discriminate | intros [= <-]; reflexivity].
  destruct (_ && _); [discriminate|]. destruct (contains 32 _); discriminate.
Qed.

Lemma classify_exit (args : list str) (e : exn) :
  classify ucd p args = Raise e -> argparse_exit e = true.
Proof.
  induction args as [|a args IH]; simpl; [discriminate|].
  destruct (str_eqb a (py "--")); [discriminate|].
  destruct (parse_optional ucd p a) eqn:P; simpl.
  - destruct (classify ucd p args); simpl; [discriminate|].
    intros [= <-]. apply IH. reflexivity.
  - intros [= <-]. eapply parse_optional_exit, P.
Qed.

(** [parse_known_args] returns, prints the help or reports a usage
    error. *)
Lemma parse_known_args_exit (args : list str) (e : exn) :
  parse_known_args ucd npm p args = Raise e -> argparse_exit e = true.
Proof.
  unfold parse_known_args.
  destruct (classify ucd p args) as [toks|x] eqn:C; simpl;
    [|intros [= <-]; eapply classify_exit, C].
  unfold consume_all.
  assert (Hopt : known_options p toks).
  { intros s ia os e0 Hin.
    eapply (classified_options ucd p args); eassumption. }
  assert (Hpos : known_positional p (initial_state p)).
  { intros ia H. simpl in H. apply get_positional_actions_In in H. apply H. }
  pose proof (@parse_loop_exit (length toks) (initial_state p) toks
                (le_n _) Hpos Hopt) as H1.
  destruct (parse_loop npm p (length toks) (initial_state p) toks)
    as [[st rest]|x]; cbn [bind]; [|intros [= <-]; exact H1].
  pose proof (@consume_positionals_exit st rest H1) as H2.
  destruct (consume_positionals npm st rest) as [[st' n]|x];
    cbn [bind]; [|intros [= <-]; exact H2].
  destruct (missing_required p _); [|discriminate].
  intros [= <-]. reflexivity.
Qed.

Lemma parse_args_exit (args : list str) (e : exn) :
  parse_args ucd npm p args = Raise e -> argparse_exit e = true.
Proof.
  unfold parse_args.
  destruct (parse_known_args ucd npm p args) as [[ns argv]|x] eqn:P; simpl.
  - destruct argv; [discriminate|]. intros [= <-]. reflexivity.
  - intros [= <-]. eapply parse_known_args_exit, P.
Qed.
End Exits.

(** The command group returns a namespace, prints a help text or reports
    a usage error: the bound of the parsing loop is never hit. *)
Lemma database_parse_args_exit (ucd : unicode_data) (args : list str)
      (e : exn) :
  database_parse_args ucd args = Raise e -> argparse_exit e = true.
Proof.
  apply parse_args_exit; [|reflexivity].
  intros name sub args' e' L H.
  apply lookup_In in L. unfold name_parser_map in L.
  apply in_map_iff in L. destruct L as ([a q] & [= <- <-] & Hin).
  simpl in H. unfold action_parse_known_args in H.
  eapply parse_known_args_exit; [| |exact H].
  - intros ? ? ? ? L'. discriminate L'.
  - repeat (destruct Hin as [[= <- <-]|Hin]; [reflexivity|]). destruct Hin.
Qed.

(** ** The dispatch functions *)

Lemma ascii_lower_lowercase (k : N) :
  lowercase_letter k = true -> ascii_lower k = k.
Proof.
  unfold lowercase_letter, ascii_lower. rewrite andb_true_iff.
  intros [H1 H2]. apply N.leb_le in H1, H2.
  destruct (N.leb_spec 65 k); destruct (N.leb_spec k 90); simpl;
    try reflexivity; lia.
Qed.

Lemma upper_char_letter (ucd : unicode_data) (c k : N) :
  ascii_lower c = k ->
  lowercase_letter k = true ->
  upper_char ucd c = [(k - 32)%N].
Proof.
  unfold ascii_lower, lowercase_letter, upper_char. intros <-.
  destruct (N.leb_spec 65 c); destruct (N.leb_spec c 90); simpl;
    rewrite andb_true_iff; intros [H1 H2];
    apply N.leb_le in H1, H2.
  - destruct (N.leb_spec 97 c); [lia|]. simpl.
    destruct (N.ltb_spec c 128); [|lia]. f_equal. lia.
  - destruct (N.leb_spec 97 c); [|lia].
    destruct (N.leb_spec c 122); [|lia]. reflexivity.
  - lia.
  - lia.
Qed.

(** A word in any letter case has the upper-case word as its [upper()]. *)
Lemma upper_ignoring_case (ucd : unicode_data) (w : str) :
  forallb lowercase_letter w = true ->
  forall s, eq_ignoring_case s w = true ->
            upper ucd s = map (fun k => (k - 32)%N) w.
Proof.
  unfold eq_ignoring_case.
  induction w as [|k w IH]; intros Hw [|c s]; simpl; try discriminate;
    [reflexivity|].
  simpl in Hw. apply andb_true_iff in Hw. destruct Hw as [Hk Hw].
  rewrite (ascii_lower_lowercase k Hk), andb_true_iff, N.eqb_eq.
  intros [Hc Hs].
  rewrite (upper_char_letter ucd c Hc Hk). simpl. f_equal.
  apply IH; [assumption|].
  clear - Hs Hw. revert Hs. generalize (map ascii_lower s). intros l Hl.
  apply str_eqb_eq in Hl. subst l. apply str_eqb_refl.
Qed.

(** A dispatch function other than [add_column] makes the call of the
    table, from the attributes it reads and from nothing else. *)
Lemma dispatch_forwards (ucd : unicode_data) (f : dispatch) (ns : namespace)
      (field : string -> value) :
  f <> Fn_add_column ->
  (forall k, In k (reads f) -> getattr ns k = Some (field k)) ->
  call ucd f ns = Ok (forwarded_call f field).
Proof.
  intros Hf H.
  destruct f; try congruence; simpl in H;
    unfold call, create_database, drop_daily, rebuild_daily, rename_column,
      drop_columns, attr;
    repeat (rewrite H by (simpl; auto 10); cbn [bind]);
    reflexivity.
Qed.

Lemma parsed_fields (ucd : unicode_data) (a : str) (p : parser)
      (f : dispatch) (rest : list str) (ns : namespace) :
  In (a, p) action_parsers ->
  defaults p = func f ->
  database_parse_args ucd (a :: rest) = Ok ns ->
  forall k, In k (reads f) -> getattr ns k = Some (field_of ns k).
Proof.
  intros Hin Hdef Hparse k Hk.
  pose proof Hin as Hfacts. apply action_parser_facts in Hfacts.
  destruct Hfacts as (_ & _ & _ & _ & _ & _ & _ & _ & _ & _
                      & (f' & Hdef' & _ & Hreads)).
  assert (f' = f) as -> by (rewrite Hdef in Hdef'; injection Hdef'; auto).
  assert (Hr : forallb (hasattr ns) (reads f) = true)
    by (eapply action_reads; eassumption).
  rewrite forallb_forall in Hr. specialize (Hr k Hk).
  unfold hasattr, field_of in *. destruct (getattr ns k);
    [reflexivity | discriminate].
Qed.

(** An invocation that does not parse ends in the help text or a usage
    error. *)
Lemma not_ok_exit (ucd : unicode_data) (args : list str) :
  (forall ns, database_parse_args ucd args <> Ok ns) ->
  exists e, database_parse_args ucd args = Raise e
            /\ argparse_exit e = true.
Proof.
  intros H. destruct (database_parse_args ucd args) as [ns|e] eqn:E.
  - destruct (H ns eq_refl).
  - exists e. split; [reflexivity|]. eapply database_parse_args_exit, E.
Qed.

(** [rename-column FROM-NAME] alone: the required option is missing. *)
Lemma rename_column_alone (ucd : unicode_data) (old : str) :
  plain old = true ->
  database_parse_args ucd [py "rename-column"; old]
  = Raise (UsageError RequiredArguments).
Proof.
  intros Ho.
  rewrite (@database_parse_args_action ucd (py "rename-column")
             rename_column_parser) by (simpl; auto 10).
  unfold parse_known_args.
  rewrite (@classify_plain ucd rename_column_parser [old])
    by (simpl; rewrite Ho; reflexivity).
  cbn [bind]. unfold consume_all. cbn.
  (erewrite take_action_store;
   [ | reflexivity
     | rewrite get_values_one by (auto using plain_not_dashes);
       reflexivity ]).
  reflexivity.
Qed.

Lemma dash_not_a_choice (v : str) :
  plain v = false -> str_in v column_type_choices = false.
Proof.
  intros H. destruct (str_in v column_type_choices) eqn:E; [|reflexivity].
  apply str_in_In in E. unfold column_type_choices in E. simpl in E.
  repeat (destruct E as [<-|E]; [discriminate H|]). destruct E.
Qed.

(** * Further properties of the command group *)

(** ** Errors of the command line *)

(** The one error of the classification is the ambiguous option. *)
Lemma parse_optional_ambiguous (ucd : unicode_data) (p : parser) (s : str)
      (e : exn) :
  parse_optional ucd p s = Raise e -> e = UsageError AmbiguousOption.
Proof.
  unfold parse_optional. destruct s as [|c0 r]; [discriminate|].
  destruct (negb (N.eqb c0 45)); [discriminate|].
  destruct (lookup _ _); [discriminate|].
  destruct (length _ =? 1); [discriminate|].
  destruct (if contains 61 _ then _ else _); [discriminate|].
  destruct (get_option_tuples p (c0 :: r)) as [|t [|t' l]];
    [| discriminate | intros [= <-]; reflexivity].
  destruct (_ && _); [discriminate|]. destruct (contains 32 _); discriminate.
Qed.

Lemma classify_ambiguous (ucd : unicode_data) (p : parser) (args : list str)
      (e : exn) :
  classify ucd p args = Raise e -> e = UsageError AmbiguousOption.
Proof.
  induction args as [|a args IH]; simpl; [discriminate|].
  destruct (str_eqb a (py "--")); [discriminate|].
  destruct (parse_optional ucd p a) eqn:P; simpl.
  - destruct (classify ucd p args); simpl; [discriminate|].
    intros [= <-]. apply IH. reflexivity.
  - intros [= <-]. eapply parse_optional_ambiguous, P.
Qed.

(** An option that is ambiguous makes the classification fail, wherever
    it stands before the [--]. *)
Lemma classify_In_ambiguous (ucd : unicode_data) (p : parser) (s : str)
      (e : exn) (args : list str) :
  parse_optional ucd p s = Raise e ->
  In s (options_zone args) ->
  classify ucd p args = Raise (UsageError AmbiguousOption).
Proof.
  intros Hs. induction args as [|a args IH]; simpl; [intros []|].
  destruct (str_eqb a (py "--")); [intros []|].
  intros [->|Hin].
  - rewrite Hs. simpl. f_equal. eapply parse_optional_ambiguous, Hs.
  - destruct (parse_optional ucd p a) eqn:P; simpl.
    + rewrite (IH Hin). reflexivity.
    + f_equal. eapply parse_optional_ambiguous, P.
Qed.

(** The help option in front: the help text is printed as soon as the
    argument strings are classified. *)
Lemma help_first (ucd : unicode_data) (npm : list (str * subparser))
      (p : parser) (h : str) (rest : list str) :
  lookup h (option_string_actions p) = Some (0, help_action) ->
  plain h = false ->
  parse_known_args ucd npm p (h :: rest)
  = (_ <- classify ucd p rest ;; Raise HelpExit).
Proof.
  intros L Hp. unfold parse_known_args.
  assert (Hd : str_eqb h (py "--") = false).
  { destruct (str_eqb h (py "--")) eqn:E; [|reflexivity].
    apply str_eqb_eq in E. subst h.
    apply lookup_In, option_string_actions_In in L.
    destruct L as [_ L]. simpl in L.
    destruct L as [L|[L|[]]]; discriminate L. }
  assert (P : parse_optional ucd p h
              = Ok (Some (OptionTuple (Some (0, help_action)) h None))).
  { unfold parse_optional. destruct h as [|c0 r]; [discriminate|].
    simpl in Hp. rewrite Hp, L. reflexivity. }
  cbn [classify]. rewrite Hd, P. cbn [bind].
  destruct (classify ucd p rest) as [toks|e]; [|reflexivity].
  cbn [bind].
  unfold consume_all. cbn [length parse_loop existsb].
  change (is_PO (h, PO (OptionTuple (Some (0, help_action)) h None)))
    with true.
  cbn [orb negb count_while Nat.eqb bind Nat.ltb Nat.leb skipn
       consume_optional firstn map app take_actions].
  unfold take_action. cbn [snd help_action get_values nargs].
  reflexivity.
Qed.

Lemma help_option_strings (h : str) (a : str) (p : parser) :
  h = py "-h" \/ h = py "--help" ->
  In (a, p) action_parsers ->
  lookup h (option_string_actions p) = Some (0, help_action)
  /\ lookup h (option_string_actions database_parser)
     = Some (0, help_action)
  /\ plain h = false.
Proof.
  intros Hh Hin.
  repeat (destruct Hin as [[= <- <-]|Hin];
          [destruct Hh as [->| ->]; repeat split; reflexivity|]).
  destruct Hin.
Qed.

(** X1.  [-h] or [--help] in front, of the command group or of any of its
    six actions, prints the help text and ends the program: nothing is
    dispatched, whatever follows.  The one thing that comes before the
    help is the classification of the argument strings, which in an
    action can report an ambiguous option. *)
Theorem X1_help_first (ucd : unicode_data) (h : str) (rest : list str) :
  h = py "-h" \/ h = py "--help" ->
  database_parse_args ucd (h :: rest) = Raise HelpExit
  /\ (forall a p,
         In (a, p) action_parsers ->
         database_parse_args ucd (a :: h :: rest)
         = match classify ucd p rest with
           | Ok _ => Raise HelpExit
           | Raise _ => Raise (UsageError AmbiguousOption)
           end).
Proof.
  intros Hh. split.
  - destruct (@help_option_strings h _ _ Hh add_column_action)
      as (_ & L & Hp).
    unfold database_parse_args, parse_args.
    rewrite (help_first ucd _ _ _ rest L Hp).
    destruct (database_classify ucd rest) as [toks ->]. reflexivity.
  - intros a p Hin.
    destruct (@help_option_strings h _ _ Hh Hin) as (L & _ & Hp).
    rewrite (@database_parse_args_action ucd a p (h :: rest) Hin).
    rewrite (help_first ucd _ _ _ rest L Hp).
    destruct (classify ucd p rest) as [toks|e] eqn:C; [reflexivity|].
    cbn [bind]. f_equal. eapply classify_ambiguous, C.
Qed.

Lemma X1_help_first_witness :
  database_parse_args ascii_only [py "--help"; py "create"] = Raise HelpExit
  /\ database_parse_args ascii_only (map py ["add-column"; "-h"; "x"]%string)
     = Raise HelpExit.
Proof.
  split.
  - exact (proj1 (@X1_help_first ascii_only (py "--help") [py "create"]
                    (or_intror eq_refl))).
  - exact (proj2 (@X1_help_first ascii_only (py "-h") [py "x"]
                    (or_introl eq_refl)) _ _ add_column_action).
Defined.

(** X2.  A first argument string that does not start with a dash and is
    not the name of one of the six actions, spelled in full, is refused
    as an invalid choice, whatever follows: no action is chosen by an
    abbreviation or by default. *)
Theorem X2_unknown_action (ucd : unicode_data) (a : str) (rest : list str) :
  plain a = true ->
  str_in a (map py ["create"; "drop-daily"; "rebuild-daily"; "add-column";
                    "rename-column"; "drop-columns"]%string) = false ->
  database_parse_args ucd (a :: rest) = Raise (UsageError InvalidChoice).
Proof.
  intros Hp Ha. unfold database_parse_args, parse_args.
  rewrite database_parse_known_args_argument;
    [| apply parse_optional_plain, Hp | apply plain_not_dashes, Hp].
  change (map fst action_parsers)
    with (map py ["create"; "drop-daily"; "rebuild-daily"; "add-column";
                  "rename-column"; "drop-columns"]%string).
  rewrite Ha. reflexivity.
Qed.

Lemma X2_unknown_action_witness :
  database_parse_args ascii_only (map py ["creat"; "--dry-run"]%string)
  = Raise (UsageError InvalidChoice).
Proof.
  apply (@X2_unknown_action ascii_only (py "creat") [py "--dry-run"]);
    reflexivity.
Defined.

(** X3.  Whatever the argument strings, the command group returns a
    namespace, prints a help text or reports a usage error; it raises
    nothing else. *)
Theorem X3_parse_ends (ucd : unicode_data) (args : list str) :
  (exists ns, database_parse_args ucd args = Ok ns)
  \/ database_parse_args ucd args = Raise HelpExit
  \/ (exists u, database_parse_args ucd args = Raise (UsageError u)).
Proof.
  destruct (database_parse_args ucd args) as [ns|e] eqn:E; [eauto|].
  apply database_parse_args_exit in E.
  destruct e; try discriminate E; eauto.
Qed.

(** X4.  [create], [drop-daily] and [rebuild-daily] take no positional
    argument: followed by words that are not options, they report
    unrecognized arguments. *)
Theorem X4_no_positional (ucd : unicode_data) (a : str) (names : list str) :
  In a (map py ["create"; "drop-daily"; "rebuild-daily"]%string) ->
  names <> [] ->
  forallb plain names = true ->
  database_parse_args ucd (a :: names)
  = Raise (UsageError UnrecognizedArguments).
Proof.
  intros Ha Hne Hplain.
  assert (Hp : exists p, In (a, p) action_parsers
                         /\ get_positional_actions p = None
                         /\ missing_required p [] = false).
  { simpl in Ha. destruct Ha as [<-|[<-|[<-|[]]]]; eexists;
      (split; [simpl; auto 10 | split; reflexivity]). }
  destruct Hp as (p & Hin & Hpos & Hreq).
  rewrite (@database_parse_args_action ucd a p names Hin).
  unfold parse_known_args. rewrite classify_plain by assumption.
  cbn [bind]. unfold consume_all.
  rewrite parse_loop_no_option by apply existsb_arguments.
  cbn [bind]. unfold consume_positionals.
  change (positionals (initial_state p)) with (get_positional_actions p).
  rewrite Hpos. cbn [bind skipn with_extras seen_actions initial_state].
  rewrite Hreq. cbn [bind st_namespace extras unrecognized_args app].
  rewrite map_map. cbn [fst]. rewrite map_id, app_nil_r.
  destruct names; [congruence | reflexivity].
Qed.

Lemma X4_no_positional_witness :
  database_parse_args ascii_only (map py ["create"; "weewx.sdb"]%string)
  = Raise (UsageError UnrecognizedArguments).
Proof.
  apply (@X4_no_positional ascii_only (py "create") [py "weewx.sdb"]);
    [simpl; auto | discriminate | reflexivity].
Defined.

(** ** Options left out *)

Lemma config_option_facts (a : str) (p : parser) :
  In (a, p) action_parsers ->
  sets_only p (py "--config") "config" = true
  /\ getattr (initial_namespace p) "config" = Some VNone.
Proof.
  intros H.
  repeat (destruct H as [[= <- <-]|H]; [split; reflexivity|]).
  destruct H.
Qed.

(** The configuration path that a dispatch function passes. *)
Lemma call_ok_config (ucd : unicode_data) (f : dispatch) (ns : namespace)
      (v : value) :
  forallb (hasattr ns) (reads f) = true ->
  getattr ns "config" = Some v ->
  (f = Fn_add_column -> exists s, getattr ns "column_type" = Some (VStr s)) ->
  exists c, call ucd f ns = Ok c /\ call_config c = v.
Proof.
  intros Hr Hv Ht.
  assert (Av : attr ns "config" = Ok v)
    by (unfold attr; rewrite Hv; reflexivity).
  destruct f; simpl in Hr;
    repeat (apply andb_true_iff in Hr; destruct Hr as [?H Hr]);
    repeat match goal with
           | H : hasattr ns ?k = true |- _ =>
               apply attr_has in H; destruct H as (? & _ & ?H)
           end;
    unfold call, create_database, drop_daily, rebuild_daily, add_column,
      rename_column, drop_columns;
    try (destruct (Ht eq_refl) as (s & Hs);
         assert (As : attr ns "column_type" = Ok (VStr s))
           by (unfold attr; rewrite Hs; reflexivity);
         rewrite As; cbn [bind upper_method]);
    repeat match goal with
           | H : attr ns ?k = Ok _ |- context [attr ns ?k] =>
               rewrite H; cbn [bind]
           end;
    eexists; repeat split; reflexivity.
Qed.

(** X5.  For each of the six actions, when no argument string spells
    [--config], the attribute [config] of the parsed namespace is [None]
    and the dispatch function passes [None] as the configuration path;
    the one invocation where no call is made is an [add-column] whose
    column type argparse left as a list. *)
Theorem X5_config_default (ucd : unicode_data) (a : str) (p : parser)
        (f : dispatch) (rest : list str) (ns : namespace) :
  In (a, p) action_parsers ->
  defaults p = func f ->
  mentions "--config" rest = false ->
  database_parse_args ucd (a :: rest) = Ok ns ->
  getattr ns "config" = Some VNone
  /\ ((exists c, call ucd f ns = Ok c /\ call_config c = VNone)
      \/ (f = Fn_add_column
          /\ (exists l, getattr ns "column_type" = Some (VList l))
          /\ call ucd f ns = Raise AttributeError)).
Proof.
  intros Hin Hdef Hm Hparse.
  destruct (config_option_facts Hin) as [Hso Hic].
  assert (Hc : getattr ns "config" = Some VNone).
  { destruct (@action_getattr ucd a p rest ns Hin Hparse "config")
      as (subns & Hsub & Hns).
    { unfold hasattr. rewrite Hic. reflexivity. }
    rewrite Hns, <- Hic. eapply omitted_default; eassumption. }
  split; [exact Hc|].
  pose proof Hin as Hfacts. apply action_parser_facts in Hfacts.
  destruct Hfacts as (_ & _ & _ & _ & _ & _ & _ & _ & _ & _
                      & (f' & Hdef' & _ & Hreads)).
  assert (f' = f) as -> by (rewrite Hdef in Hdef'; injection Hdef'; auto).
  pose proof (@action_reads ucd a p rest ns Hin Hparse f Hreads) as Hr.
  assert (Hcases : f <> Fn_add_column \/ f = Fn_add_column)
    by (destruct f; auto; left; discriminate).
  destruct Hcases as [Hne| ->].
  - left. apply call_ok_config; auto. intros E. contradiction.
  - pose proof Hin as Hp. eapply add_column_parser_only in Hp; [|exact Hdef].
    destruct Hp as [-> ->].
    pose proof Hparse as Ht. apply add_column_type in Ht.
    destruct Ht as [[(s & Hs & _)|(l & Hl)] _].
    + left. apply call_ok_config; auto. intros _. eauto.
    + right. split; [reflexivity|]. split; [eauto|].
      simpl. eapply add_column_not_a_string, Hl.
Qed.

Lemma X5_config_default_witness :
  database_parse_args ascii_only (map py ["drop-daily"; "--dry-run"]%string)
  = Ok [("action", VStr (py "drop-daily")); ("config", VNone);
        ("binding", VStr (py "wx_binding")); ("dry_run", VBool true);
        ("func", VFunc Fn_drop_daily)]%string
  /\ getattr [("action", VStr (py "drop-daily")); ("config", VNone);
              ("binding", VStr (py "wx_binding")); ("dry_run", VBool true);
              ("func", VFunc Fn_drop_daily)]%string "config"
     = Some VNone.
Proof.
  split; [vm_compute; reflexivity|].
  refine (proj1 (@X5_config_default ascii_only (py "drop-daily")
                   database_drop_daily_parser Fn_drop_daily
                   [py "--dry-run"] _ _ _ _ _)).
  - simpl. auto.
  - reflexivity.
  - reflexivity.
  - vm_compute. reflexivity.
Defined.

(** X6.  For [rebuild-daily], each of [date], [from_date] and [to_date]
    that [rebuild_daily] passes is [None] when no argument string spells
    its option, [--date], [--from] or [--to]. *)
Theorem X6_dates_default (ucd : unicode_data) (rest : list str)
        (ns : namespace) :
  database_parse_args ucd (py "rebuild-daily" :: rest) = Ok ns ->
  exists config binding date from_date to_date dry_run,
    rebuild_daily ns
    = Ok (Call_rebuild_daily config binding date from_date to_date dry_run)
    /\ (mentions "--date" rest = false -> date = VNone)
    /\ (mentions "--from" rest = false -> from_date = VNone)
    /\ (mentions "--to" rest = false -> to_date = VNone).
Proof.
  intros Hparse.
  assert (Hin : In (py "rebuild-daily", database_rebuild_parser)
                   action_parsers) by (simpl; auto 10).
  pose proof (@parsed_fields ucd _ _ Fn_rebuild_daily rest ns Hin eq_refl
                Hparse) as Hf.
  pose proof (@dispatch_forwards ucd Fn_rebuild_daily ns (field_of ns))
    as Hcall.
  simpl in Hcall. rewrite Hcall; [|discriminate|exact Hf].
  do 6 eexists. split; [reflexivity|].
  assert (Hnone : forall o d,
             sets_only database_rebuild_parser (py o) d = true ->
             getattr (initial_namespace database_rebuild_parser) d
             = Some VNone ->
             mentions o rest = false -> field_of ns d = VNone).
  { intros o d Hso Hid Hm. unfold field_of.
    destruct (@action_getattr ucd _ _ rest ns Hin Hparse d)
      as (subns & Hsub & Hns).
    { unfold hasattr. rewrite Hid. reflexivity. }
    rewrite Hns.
    rewrite (@omitted_default ucd database_rebuild_parser o d Hso rest subns
               [] Hm Hsub), Hid. reflexivity. }
  repeat split; apply Hnone; reflexivity.
Qed.

Lemma X6_dates_default_witness :
  exists config binding date from_date to_date dry_run,
    rebuild_daily [("action", VStr (py "rebuild-daily")); ("config", VNone);
                   ("binding", VStr (py "wx_binding"));
                   ("date", VStr (py "2023-01-01"));
                   ("from_date", VNone); ("to_date", VNone);
                   ("dry_run", VBool false);
                   ("func", VFunc Fn_rebuild_daily)]%string
    = Ok (Call_rebuild_daily config binding date from_date to_date dry_run)
    /\ (mentions "--date" [py "--date"; py "2023-01-01"] = false ->
        date = VNone)
    /\ (mentions "--from" [py "--date"; py "2023-01-01"] = false ->
        from_date = VNone)
    /\ (mentions "--to" [py "--date"; py "2023-01-01"] = false ->
        to_date = VNone).
Proof.
  apply (@X6_dates_default ascii_only [py "--date"; py "2023-01-01"]).
  vm_compute. reflexivity.
Defined.

(** ** From the command line to the call *)

(** The three options that every action takes, on [create] and
    [drop-daily], which take nothing else. *)
Lemma common_options (ucd : unicode_data) (a : str) (p : parser)
      (f : dispatch) (c b : option str) (dry : bool) :
  In (a, p, f) [(py "create", database_create_parser, Fn_create_database);
                (py "drop-daily", database_drop_daily_parser, Fn_drop_daily)] ->
  not_dashes c = true ->
  not_dashes b = true ->
  database_parse_args ucd
    (a :: option_arg "--config" c ++ option_arg "--binding" b
       ++ flag_arg "--dry-run" dry)
  = Ok [("action"%string, VStr a);
        ("config"%string, optional_value c);
        ("binding"%string, binding_value b);
        ("dry_run"%string, VBool dry);
        ("func"%string, VFunc f)].
Proof.
  intros Hin Hc Hb.
  assert (Hp : In (a, p) action_parsers).
  { destruct Hin as [[= <- <- <-]|[[= <- <- <-]|[]]]; simpl; auto 10. }
  rewrite (@database_parse_args_action ucd a p _ Hp).
  unfold parse_known_args.
  destruct Hin as [[= <- <- <-]|[[= <- <- <-]|[]]];
    destruct c as [c|], b as [b|], dry;
    cbn [option_arg flag_arg app optional_value binding_value not_dashes] in *;
    repeat match goal with
           | H : negb _ = true |- _ => apply negb_true_iff in H
           end;
    repeat (erewrite classify_cons;
            [ | lazy; reflexivity | lazy; reflexivity | ]);
    try reflexivity;
    cbn [bind]; unfold consume_all; cbn;
    repeat (rewrite explicit_loop_one by reflexivity; cbn;
            erewrite take_action_store;
            [ | reflexivity | rewrite get_values_one by auto; reflexivity ];
            cbn);
    reflexivity.
Qed.

(** X7.  On [create] and [drop-daily] the values of [--config=] and
    [--binding=] and the flag [--dry-run] reach the collaborator as they
    are given: the configuration path or [None], the binding or
    ['wx_binding'], and whether the flag is there. *)
Theorem X7_common_options_forwarded (ucd : unicode_data)
        (c b : option str) (dry : bool) :
  not_dashes c = true ->
  not_dashes b = true ->
  (exists ns,
      database_parse_args ucd
        (py "create" :: option_arg "--config" c ++ option_arg "--binding" b
            ++ flag_arg "--dry-run" dry) = Ok ns
      /\ getattr ns "func" = Some (VFunc Fn_create_database)
      /\ create_database ns
         = Ok (Call_create_database (optional_value c) (binding_value b)
                 (VBool dry)))
  /\ (exists ns,
         database_parse_args ucd
           (py "drop-daily" :: option_arg "--config" c
               ++ option_arg "--binding" b ++ flag_arg "--dry-run" dry)
         = Ok ns
         /\ getattr ns "func" = Some (VFunc Fn_drop_daily)
         /\ drop_daily ns
            = Ok (Call_drop_daily (optional_value c) (binding_value b)
                    (VBool dry))).
Proof.
  intros Hc Hb. split; eexists; (split; [|split]);
    try (eapply common_options; [|eassumption|eassumption]; simpl; eauto);
    reflexivity.
Qed.

Lemma X7_common_options_forwarded_witness :
  exists ns,
    database_parse_args ascii_only
      (map py ["create"; "--config=/etc/weewx.conf"; "--binding=b";
               "--dry-run"]%string) = Ok ns
    /\ getattr ns "func" = Some (VFunc Fn_create_database)
    /\ create_database ns
       = Ok (Call_create_database (VStr (py "/etc/weewx.conf"))
               (VStr (py "b")) (VBool true)).
Proof.
  exact (proj1 (@X7_common_options_forwarded ascii_only
                  (Some (py "/etc/weewx.conf")) (Some (py "b")) true
                  eq_refl eq_refl)).
Defined.

Lemma normalized_choice (ucd : unicode_data) (t : str) :
  str_in t column_type_choices = true ->
  (if str_eqb (upper ucd t) (py "INT") then py "INTEGER" else upper ucd t)
  = normalized_type t.
Proof.
  intros H. apply str_in_In in H. unfold column_type_choices in H.
  simpl in H.
  repeat (destruct H as [<-|H]; [reflexivity|]). destruct H.
Qed.

(** X8.  [add-column NAME --type=TYPE] and [add-column NAME --type TYPE]
    with one of the five accepted spellings make the collaborator call
    with the name given, no configuration path, the default binding and
    the column type ['REAL'] for ['REAL'] and ['real'], ['INTEGER'] for
    ['INTEGER'], ['integer'] and ['int']. *)
Theorem X8_add_column_call (ucd : unicode_data) (name t : str) :
  plain name = true ->
  str_in t column_type_choices = true ->
  forall args,
    args = [py "add-column"; name; py "--type=" ++ t]
    \/ args = [py "add-column"; name; py "--type"; t] ->
    exists ns,
      database_parse_args ucd args = Ok ns
      /\ getattr ns "func" = Some (VFunc Fn_add_column)
      /\ add_column ucd ns
         = Ok (Call_add_column VNone (VStr (py "wx_binding")) (VStr name)
                 (VStr (normalized_type t)) (VBool false)).
Proof.
  intros Hn Ht args Hargs.
  assert (Hplain : plain t = true).
  { destruct (plain t) eqn:E; [reflexivity|].
    rewrite (dash_not_a_choice _ E) in Ht. discriminate. }
  exists (add_column_namespace name t). split; [|split].
  - destruct Hargs as [-> | ->].
    + rewrite add_column_type_explicit, Ht;
        [reflexivity | assumption | apply plain_not_dashes, Hplain].
    + rewrite add_column_type_plain, Ht; [reflexivity | assumption..].
  - reflexivity.
  - unfold add_column, add_column_namespace, attr.
    cbn [getattr String.eqb Ascii.eqb Bool.eqb bind upper_method].
    rewrite (normalized_choice ucd _ Ht). reflexivity.
Qed.

Lemma X8_add_column_call_witness :
  exists ns,
    database_parse_args ascii_only
      (map py ["add-column"; "inTemp2"; "--type"; "int"]%string) = Ok ns
    /\ getattr ns "func" = Some (VFunc Fn_add_column)
    /\ add_column ascii_only ns
       = Ok (Call_add_column VNone (VStr (py "wx_binding"))
               (VStr (py "inTemp2")) (VStr (py "INTEGER")) (VBool false)).
Proof.
  exact (@X8_add_column_call ascii_only (py "inTemp2") (py "int")
           eq_refl eq_refl _ (or_intror eq_refl)).
Defined.



(** ** The argument of a positional that takes one *)

Lemma classify_dash_strings (ucd : unicode_data) (p : parser)
      (args : list str) :
  forall toks, classify ucd p args = Ok toks -> dash_strings toks = true.
Proof.
  induction args as [|a args IH]; intros toks; simpl.
  - intros [= <-]. reflexivity.
  - destruct (str_eqb a (py "--")) eqn:E.
    + intros [= <-]. unfold dash_strings. simpl. rewrite E. simpl.
      apply forallb_forall. intros x Hx. apply in_map_iff in Hx.
      destruct Hx as (y & <- & _). reflexivity.
    + intros H. inv_bind H. inv_bind H. injection H as <-.
      unfold dash_strings. simpl.
      destruct a0; simpl; apply (IH _ eq_refl).
Qed.

Lemma dash_strings_skipn (n : nat) (toks : list token) :
  dash_strings toks = true -> dash_strings (skipn n toks) = true.
Proof.
  unfold dash_strings. rewrite !forallb_forall.
  intros H x Hx. apply H. eapply In_skipn, Hx.
Qed.

Lemma no_dash_after_dash (toks : list token) :
  forallb is_PA toks = true -> count_while is_PDash toks = 0.
Proof.
  destruct toks as [|[s []] toks]; simpl; try reflexivity; discriminate.
Qed.

(** What a positional with one argument takes is one string, once the
    [--] is struck out. *)
Lemma one_argument_value (a : action) (toks : list token) (n : nat) :
  is_one_argument a = true ->
  well_formed toks = true ->
  dash_strings toks = true ->
  match_nargs a toks = Some n ->
  exists s, get_values a (map fst (firstn n toks)) = Ok (VStr s)
            /\ In s (map fst toks).
Proof.
  unfold is_one_argument. intros Ha.
  destruct (cls a) eqn:Ec; try discriminate.
  destruct (nargs a) eqn:En; try discriminate.
  destruct (option_strings a) eqn:Eo; try discriminate.
  destruct (choices a) eqn:Eh; try discriminate. clear Ha.
  unfold match_nargs, is_positional, get_values, check_value.
  rewrite Eo, En, Eh. cbn [negb]. cbv zeta.
  destruct toks as [|[s pat] toks]; [discriminate|].
  destruct pat.
  - change (count_while is_PDash ((s, PA) :: toks)) with 0.
    cbn [skipn]. change (is_PA (s, PA)) with true. cbn [well_formed].
    rewrite andb_true_iff. intros [Hs Hwf] Hds [= <-].
    apply negb_true_iff in Hs.
    exists s. split; [|left; reflexivity].
    destruct toks as [|[s2 pat2] toks2].
    + simpl. rewrite Hs. reflexivity.
    + destruct pat2.
      * simpl. rewrite Hs. reflexivity.
      * cbn [well_formed] in Hwf.
        change (count_while is_PDash ((s2, PDash) :: toks2))
          with (S (count_while is_PDash toks2)).
        rewrite (no_dash_after_dash _ Hwf).
        unfold dash_strings in Hds. simpl in Hds.
        apply andb_true_iff in Hds. destruct Hds as [Hs2 _].
        simpl. rewrite Hs, Hs2. reflexivity.
      * simpl. rewrite Hs. reflexivity.
  - change (count_while is_PDash ((s, PDash) :: toks))
      with (S (count_while is_PDash toks)).
    cbn [well_formed]. intros Hwf Hds.
    rewrite (no_dash_after_dash _ Hwf). cbn [skipn].
    destruct toks as [|[s2 pat2] toks2]; [discriminate|].
    destruct pat2; try (simpl in Hwf; discriminate).
    change (is_PA (s2, PA)) with true. cbv iota.
    simpl in Hwf. rewrite (no_dash_after_dash _ Hwf).
    intros [= <-]. exists s2. split; [|right; left; reflexivity].
    unfold dash_strings in Hds. simpl in Hds.
    apply andb_true_iff in Hds. destruct Hds as [Hs _].
    simpl. rewrite Hs. reflexivity.
  - change (count_while is_PDash ((s, PO t) :: toks)) with 0.
    cbn [skipn]. change (is_PA (s, PO t)) with false. discriminate.
Qed.

Section Argument.
Variable ucd : unicode_data.
Variable p : parser.
Variable d : string.
Variable ia : iaction.
Variable args : list str.
Hypothesis Hinto : every_action_into p d is_one_argument = true.
Hypothesis Hia : In ia (actions_indexed p).
Hypothesis Hd : dest (snd ia) = Some d.

Lemma optional_keeps_argument (st st' : state) (ia' : iaction)
      (args' : list str) :
  In ia' (actions_indexed p) /\ is_positional (snd ia') = false ->
  argument_taken ia d args st ->
  take_action [] st ia' args' = Ok st' ->
  argument_taken ia d args st'.
Proof.
  intros [Hin Hopt] HJ T. unfold argument_taken in *.
  pose proof T as Tf. apply take_action_frame in Tf.
  destruct Tf as (_ & _ & ->).
  apply take_action_leaf in T. destruct T as (v & -> & _).
  assert (Hne : dest (snd ia') <> Some d).
  { intros E.
    pose proof (every_action_into_spec _ _ _ Hinto
                  (actions_indexed_action _ _ Hin) E) as Hc.
    unfold is_one_argument, is_positional in *.
    destruct (cls (snd ia')), (nargs (snd ia')), (option_strings (snd ia'));
      discriminate. }
  rewrite getattr_set_dest_other by assumption.
  intros [Hi|Hi]; [|auto].
  exfalso. apply Hne.
  assert (ia' = ia) as -> by (eapply actions_indexed_unique; eassumption).
  assumption.
Qed.

(** When the positional has been taken, its attribute is one of the
    argument strings. *)
Lemma leaf_argument (ns : namespace) (ex : list str) :
  required (snd ia) = true ->
  parse_known_args ucd [] p args = Ok (ns, ex) ->
  exists s, In s args /\ getattr ns d = Some (VStr s).
Proof.
  intros Hreq H. apply parse_known_args_inv in H.
  destruct H as (toks & st & C & A & M & -> & _).
  assert (Hseen : In (fst ia) (seen_actions st))
    by (eapply missing_required_seen; eassumption).
  revert Hseen. change (argument_taken ia d args st).
  assert (HI : (positionals st = None
                \/ (well_formed (@nil token) = true
                    /\ dash_strings (@nil token) = true))
               /\ argument_taken ia d args st
               /\ (forall x, In x (map fst (@nil token)) -> In x args)
               /\ (forall ia2, positionals st = Some ia2 ->
                               In ia2 (actions_indexed p))
               /\ (forall s' ia' os' e',
                      In (s', PO (OptionTuple (Some ia') os' e')) (@nil token) ->
                      In ia' (actions_indexed p)
                      /\ is_positional (snd ia') = false)); [|tauto].
  apply (@consume_all_inv [] p
           (fun st toks =>
              (positionals st = None
               \/ (well_formed toks = true /\ dash_strings toks = true))
              /\ argument_taken ia d args st
              /\ (forall x, In x (map fst toks) -> In x args)
              /\ (forall ia2, positionals st = Some ia2 ->
                              In ia2 (actions_indexed p))
              /\ (forall s' ia' os' e',
                     In (s', PO (OptionTuple (Some ia') os' e')) toks ->
                     In ia' (actions_indexed p)
                     /\ is_positional (snd ia') = false)))
    with (toks := toks); [| | | |exact A].
  - intros st0 toks0 ia2 n st' (H1 & H2 & Hsub & H3 & H4) P Mn T.
    split; [left; reflexivity|]. split; [|split; [|split]].
    + unfold argument_taken in *. simpl.
      destruct H1 as [H1|[Hwf Hds]]; [congruence|].
      pose proof T as Tf. apply take_action_frame in Tf.
      destruct Tf as (_ & _ & ->).
      apply take_action_leaf in T. destruct T as (v & -> & Hv).
      destruct (stores_into d (snd ia2)) eqn:Es.
      * unfold stores_into in Es.
        destruct (dest (snd ia2)) as [d'|] eqn:Ed; [|discriminate].
        apply String.eqb_eq in Es. subst d'.
        pose proof (every_action_into_spec _ _ _ Hinto
                      (actions_indexed_action _ _ (H3 _ P)) Ed) as Hc.
        destruct (one_argument_value _ _ Hc Hwf Hds Mn) as (s & Hg & Hs).
        assert (Hcls : cls (snd ia2) = StoreAction).
        { unfold is_one_argument in Hc.
          destruct (cls (snd ia2)); try discriminate. reflexivity. }
        destruct Hv as [[_ Hv]|[Hv _]]; [|congruence].
        rewrite Hg in Hv. injection Hv as <-.
        intros _. exists s. split; [apply Hsub, Hs|].
        apply getattr_set_dest_same, Ed.
      * assert (Hne : dest (snd ia2) <> Some d).
        { unfold stores_into in Es. intros E.
          rewrite E, String.eqb_refl in Es. discriminate. }
        rewrite getattr_set_dest_other by assumption.
        intros [Hi|Hi]; [|auto].
        exfalso. apply Hne.
        assert (ia2 = ia) as ->
            by (eapply actions_indexed_unique; eauto).
        assumption.
    + intros x Hx. apply Hsub. apply in_map_iff in Hx.
      destruct Hx as (y & <- & Hy). apply in_map. eapply In_skipn, Hy.
    + simpl. discriminate.
    + intros s' ia' os' e' H. eapply H4, In_skipn, H.
  - intros st0 toks0 k (H1 & H2 & Hsub & H3 & H4) ->.
    split; [|split; [exact H2 | split; [|split; [exact H3|]]]].
    + destruct H1 as [H1|[H1 H1']]; [left; exact H1 | right].
      split; [apply well_formed_skip_to_option, H1
             | apply dash_strings_skipn, H1'].
    + intros x Hx. apply Hsub. apply in_map_iff in Hx.
      destruct Hx as (y & <- & Hy). apply in_map. eapply In_skipn, Hy.
    + intros s' ia' os' e' H. eapply H4, In_skipn, H.
  - intros st0 st' s0 [a0 os0 e0] fol stop (H1 & H2 & Hsub & H3 & H4) Cn.
    assert (Hsub' : forall x,
               In x (map fst (skipn stop
                                ((s0, PO (OptionTuple a0 os0 e0)) :: fol))) ->
               In x args).
    { intros x Hx. apply Hsub. apply in_map_iff in Hx.
      destruct Hx as (y & <- & Hy). apply in_map. eapply In_skipn, Hy. }
    destruct a0 as [ia0|].
    + apply consume_optional_inv in Cn.
      destruct Cn as (args0 & tuples & n & T & -> & Hshort & Hn).
      assert (Hopt : forall ia', ia' = ia0 \/ short_option p ia' ->
                                 In ia' (actions_indexed p)
                                 /\ is_positional (snd ia') = false).
      { intros ia' [->|Hs]; [eapply H4; left; reflexivity|].
        apply short_option_In in Hs. destruct Hs as [Hs (o & _ & Ho)].
        split; [assumption|]. unfold is_positional.
        destruct (option_strings (snd ia')); [destruct Ho | reflexivity]. }
      pose proof T as Hfr. apply take_actions_frame in Hfr.
      destruct Hfr as [Hfr _]. rewrite Hfr.
      split; [|split; [|split; [exact Hsub' | split; [exact H3|]]]].
      * destruct H1 as [H1|[H1 H1']]; [left; exact H1 | right].
        split; [|apply dash_strings_skipn, H1'].
        simpl in *.
        destruct Hn as [->|(ia' & Hia' & Mn)]; [exact H1|].
        apply well_formed_skipn_no_dash; [exact H1|].
        eapply match_nargs_optional_no_dash; [|eassumption].
        apply Hopt, Hia'.
      * eapply (@take_actions_state [] (argument_taken ia d args)
                  (fun ia' => In ia' (actions_indexed p)
                              /\ is_positional (snd ia') = false));
          [| |exact H2|exact T].
        -- intros st1 ia1 args1 st1' HF HJ T1.
           eapply optional_keeps_argument; eassumption.
        -- intros ia' args' [[= <- <-]|Hin]; apply Hopt; [auto|].
           right. eapply Hshort, Hin.
      * intros s' ia' os' e' H. eapply H4, In_skipn, H.
    + simpl in Cn. injection Cn as <- <-.
      split; [|split; [exact H2 | split; [exact Hsub' | split; [exact H3|]]]].
      * simpl in *. destruct H1 as [H1|[H1 H1']]; [left | right]; auto.
      * intros s' ia' os' e' H. eapply H4, In_skipn, H.
  - split; [right; split;
            [eapply classify_well_formed | eapply classify_dash_strings];
            eassumption|].
    split; [intros []|]. split; [|split].
    + intros x Hx. rewrite (classify_strings _ _ _ C) in Hx. exact Hx.
    + simpl. intros ia2 H. apply get_positional_actions_In in H. tauto.
    + intros s' ia' os' e' H. eapply classified_options; eassumption.
Qed.
End Argument.

(** X10.  Every invocation of [add-column] or [rename-column] that
    parses has a string as [column_name], and that string is one of the
    argument strings of the invocation; it is the column name that
    [rename_column] passes, and the one that [add_column] passes whenever
    it makes its call. *)
Theorem X10_column_name_given (ucd : unicode_data) (a : str)
        (rest : list str) (ns : namespace) :
  a = py "add-column" \/ a = py "rename-column" ->
  database_parse_args ucd (a :: rest) = Ok ns ->
  exists s,
    In s rest
    /\ getattr ns "column_name" = Some (VStr s)
    /\ (a = py "rename-column" ->
        exists config binding new_name dry_run,
          rename_column ns
          = Ok (Call_rename_column config binding (VStr s) new_name dry_run))
    /\ (a = py "add-column" ->
        forall c, add_column ucd ns = Ok c ->
                  exists config binding column_type dry_run,
                    c = Call_add_column config binding (VStr s) column_type
                          dry_run).
Proof.
  intros Ha Hparse.
  assert (Hp : exists p f,
             In (a, p) action_parsers
             /\ defaults p = func f
             /\ every_action_into p "column_name" is_one_argument = true
             /\ In (1, positional "column_name" NargsNone)
                   (actions_indexed p)
             /\ hasattr (initial_namespace p) "column_name" = true).
  { destruct Ha as [-> | ->].
    - exists add_column_parser, Fn_add_column.
      repeat split; simpl; auto 10.
    - exists rename_column_parser, Fn_rename_column.
      repeat split; simpl; auto 10. }
  destruct Hp as (p & f & Hin & Hdef & Hinto & Hia & Hhas).
  destruct (@action_getattr ucd a p rest ns Hin Hparse "column_name" Hhas)
    as (subns & Hsub & Hns).
  destruct (@leaf_argument ucd p "column_name"
              (1, positional "column_name" NargsNone) rest Hinto Hia
              eq_refl subns [] eq_refl Hsub) as (s & Hs & Hcol).
  rewrite <- Hns in Hcol.
  exists s. split; [exact Hs|]. split; [exact Hcol|]. split.
  - intros ->.
    pose proof (@parsed_fields ucd _ _ Fn_rename_column rest ns
                  (or_intror (or_intror (or_intror (or_intror
                     (or_introl eq_refl))))) eq_refl Hparse) as Hf.
    pose proof (@dispatch_forwards ucd Fn_rename_column ns (field_of ns))
      as Hcall.
    simpl in Hcall. rewrite Hcall; [|discriminate|exact Hf].
    unfold field_of at 3. rewrite Hcol. eauto.
  - intros -> c. unfold add_column, attr. rewrite Hcol.
    destruct (getattr ns "column_type") as [v|]; [|discriminate].
    cbn [bind]. destruct (upper_method ucd v); [|discriminate].
    cbn [bind].
    destruct (getattr ns "config"); [|discriminate].
    destruct (getattr ns "binding"); [|discriminate].
    destruct (getattr ns "dry_run"); [|discriminate].
    cbn [bind]. intros [= <-]. eauto.
Qed.

Lemma X10_column_name_given_witness :
  exists s,
    In s (map py ["--to-name=b"; "--"; "-a"]%string)
    /\ getattr [("action", VStr (py "rename-column"));
                ("column_name", VStr (py "-a"));
                ("new_name", VStr (py "b"));
                ("config", VNone);
                ("binding", VStr (py "wx_binding"));
                ("dry_run", VBool false);
                ("func", VFunc Fn_rename_column)]%string "column_name"
       = Some (VStr s)
    /\ (py "rename-column" = py "rename-column" ->
        exists config binding new_name dry_run,
          rename_column
            [("action", VStr (py "rename-column"));
             ("column_name", VStr (py "-a"));
             ("new_name", VStr (py "b"));
             ("config", VNone);
             ("binding", VStr (py "wx_binding"));
             ("dry_run", VBool false);
             ("func", VFunc Fn_rename_column)]%string
          = Ok (Call_rename_column config binding (VStr s) new_name dry_run))
    /\ (py "rename-column" = py "add-column" ->
        forall c,
          add_column ascii_only
            [("action", VStr (py "rename-column"));
             ("column_name", VStr (py "-a"));
             ("new_name", VStr (py "b"));
             ("config", VNone);
             ("binding", VStr (py "wx_binding"));
             ("dry_run", VBool false);
             ("func", VFunc Fn_rename_column)]%string = Ok c ->
          exists config binding column_type dry_run,
            c = Call_add_column config binding (VStr s) column_type dry_run).
Proof.
  apply (@X10_column_name_given ascii_only (py "rename-column")
           (map py ["--to-name=b"; "--"; "-a"]%string)).
  - right. reflexivity.
  - vm_compute. reflexivity.
Defined.

(** ** Abbreviated options *)

Lemma classify_In (ucd : unicode_data) (p : parser) (args : list str) :
  forall toks s t,
    classify ucd p args = Ok toks ->
    In s (options_zone args) ->
    parse_optional ucd p s = Ok (Some t) ->
    In (s, PO t) toks.
Proof.
  induction args as [|a args IH]; intros toks s t; simpl.
  - intros _ [].
  - destruct (str_eqb a (py "--")); [intros _ []|].
    intros H. inv_bind H. inv_bind H. injection H as <-.
    intros [->|Hin] P.
    + left. rewrite P in E. injection E as <-. reflexivity.
    + right. eapply IH; eauto.
Qed.

(** A flag is [True] once an argument string before the [--] is taken
    for its option. *)
Lemma leaf_flag_token (ucd : unicode_data) (p : parser) (d : string)
      (ia : iaction) (s os : str) (e : option str) (args : list str)
      (ns : namespace) (ex : list str) :
  no_parser_action p = true ->
  every_action_into p d is_store_true = true ->
  dest (snd ia) = Some d ->
  parse_known_args ucd [] p args = Ok (ns, ex) ->
  In s (options_zone args) ->
  parse_optional ucd p s = Ok (Some (OptionTuple (Some ia) os e)) ->
  getattr ns d = Some (VBool true).
Proof.
  intros Hleaf Hflag Hd H Hin P.
  apply parse_known_args_inv in H.
  destruct H as (toks & st & C & A & _ & -> & _).
  assert (Hia : In ia (actions_indexed p)).
  { apply parse_optional_In, option_string_actions_In in P. tauto. }
  assert (Hseen : In (fst ia) (seen_actions st)).
  { eapply option_seen; [| |exact A|].
    - intros a Ha. eapply no_parser_action_spec; eassumption.
    - intros s' ia' os' e' H'. eapply classified_options in H'; [|eassumption].
      tauto.
    - eapply classify_In; eassumption. }
  revert Hseen.
  apply (@consume_all_state [] p
           (fun st => In (fst ia) (seen_actions st) ->
                      getattr (st_namespace st) d = Some (VBool true))
           (fun ia' => In ia' (actions_indexed p))) with (toks := toks);
    auto.
  - intros st0 ia' args0 st' HF HJ T.
    pose proof T as Tf. apply take_action_frame in Tf.
    destruct Tf as (_ & _ & ->).
    apply take_action_leaf in T. destruct T as (v & -> & Hv).
    destruct (stores_into d (snd ia')) eqn:Es.
    + unfold stores_into in Es. destruct (dest (snd ia')) as [d'|] eqn:Ed;
        [|discriminate]. apply String.eqb_eq in Es. subst d'.
      pose proof (every_action_into_spec _ _ _ Hflag
                    (actions_indexed_action _ _ HF) Ed) as Hc.
      unfold is_store_true in Hc. intros _.
      destruct Hv as [[Hcls _]|[_ ->]]; [rewrite Hcls in Hc; discriminate|].
      apply getattr_set_dest_same, Ed.
    + assert (Hne : dest (snd ia') <> Some d).
      { unfold stores_into in Es. intros E.
        rewrite E, String.eqb_refl in Es. discriminate. }
      rewrite getattr_set_dest_other by assumption.
      intros [Hi|Hi]; [|auto].
      exfalso. apply Hne.
      assert (ia' = ia) as -> by (eapply actions_indexed_unique; eassumption).
      assumption.
  - intros ia' Hf. eapply fires_In; eassumption.
  - intros [].
Qed.

Lemma startswith_firstn (o s : str) :
  startswith o s = true -> s = firstn (length s) o.
Proof.
  revert o. induction s as [|c s IH]; intros [|b o]; simpl;
    try reflexivity; try discriminate.
  rewrite andb_true_iff, N.eqb_eq. intros [-> H]. f_equal. apply IH, H.
Qed.

Lemma startswith_length (o s : str) :
  startswith o s = true -> length s <= length o.
Proof.
  revert o. induction s as [|c s IH]; intros [|b o]; simpl;
    try discriminate; try lia.
  rewrite andb_true_iff. intros [_ H]. apply IH in H. lia.
Qed.

(** The prefixes of [--dry-run] from [--d] on. *)
Lemma dry_run_prefixes (s : str) :
  startswith (py "--dry-run") s = true ->
  3 <= length s ->
  In s (map py ["--d"; "--dr"; "--dry"; "--dry-"; "--dry-r"; "--dry-ru";
                "--dry-run"]%string).
Proof.
  intros H Hlen. pose proof (startswith_length _ _ H) as Hle.
  apply startswith_firstn in H. rewrite H. clear H.
  change (length (py "--dry-run")) with 9 in Hle.
  assert (Hc : length s = 3 \/ length s = 4 \/ length s = 5 \/ length s = 6
               \/ length s = 7 \/ length s = 8 \/ length s = 9) by lia.
  repeat (destruct Hc as [-> |Hc]; [simpl; auto 10|]).
  rewrite Hc. simpl. auto 10.
Qed.

(** What each action takes an abbreviation of [--dry-run] for. *)
Lemma dry_run_abbreviation (ucd : unicode_data) (a : str) (p : parser)
      (s : str) :
  In (a, p) action_parsers ->
  startswith (py "--dry-run") s = true ->
  4 <= length s \/ (3 <= length s /\ a <> py "rebuild-daily") ->
  exists ia,
    parse_optional ucd p s
    = Ok (Some (OptionTuple (Some ia) (py "--dry-run") None))
    /\ dest (snd ia) = Some "dry_run"%string.
Proof.
  intros Hin Hs Hlen.
  assert (H3 : 3 <= length s) by lia.
  pose proof (dry_run_prefixes _ Hs H3) as Hp. simpl in Hp.
  repeat (destruct Hin as [[= <- <-]|Hin];
          [repeat (destruct Hp as [<-|Hp];
                   [first [ eexists; split; reflexivity
                          | exfalso; simpl in Hlen;
                            destruct Hlen as [Hl|[_ Hl]];
                            [lia | apply Hl; reflexivity] ]|]);
           destruct Hp|]).
  destruct Hin.
Qed.

(** X11.  Every action takes an abbreviation of [--dry-run] for the
    flag: an argument string before the [--] that is a prefix of
    [--dry-run] from [--dr] on, or [--d] itself anywhere but in
    [rebuild-daily], sets [dry_run] to [True].  In [rebuild-daily], where
    [--d] also starts [--date], an argument string [--d] before the [--]
    is reported as an ambiguous option. *)
Theorem X11_dry_run_abbreviated (ucd : unicode_data) (s : str)
        (rest : list str) :
  In s (options_zone rest) ->
  (forall a p ns,
      In (a, p) action_parsers ->
      startswith (py "--dry-run") s = true ->
      4 <= length s \/ (3 <= length s /\ a <> py "rebuild-daily") ->
      database_parse_args ucd (a :: rest) = Ok ns ->
      getattr ns "dry_run" = Some (VBool true))
  /\ (s = py "--d" ->
      database_parse_args ucd (py "rebuild-daily" :: rest)
      = Raise (UsageError AmbiguousOption)).
Proof.
  intros Hz. split.
  - intros a p ns Hin Hs Hlen Hparse.
    destruct (dry_run_abbreviation ucd _ Hin Hs Hlen) as (ia & P & Hd).
    pose proof Hin as Hfacts. apply action_parser_facts in Hfacts.
    destruct Hfacts as (_ & _ & Hfl & _ & _ & Hnp & _ & Hid & _).
    destruct (@action_getattr ucd a p rest ns Hin Hparse "dry_run")
      as (subns & Hsub & Hns).
    { unfold hasattr. rewrite Hid. reflexivity. }
    rewrite Hns. eapply leaf_flag_token; eassumption.
  - intros ->.
    rewrite (@database_parse_args_action ucd (py "rebuild-daily")
               database_rebuild_parser) by (simpl; auto 10).
    unfold parse_known_args.
    rewrite (@classify_In_ambiguous ucd database_rebuild_parser (py "--d")
               (UsageError AmbiguousOption) rest); [reflexivity| |exact Hz].
    reflexivity.
Qed.

Lemma X11_dry_run_abbreviated_witness :
  database_parse_args ascii_only (map py ["drop-daily"; "--dry"]%string)
  = Ok [("action", VStr (py "drop-daily")); ("config", VNone);
        ("binding", VStr (py "wx_binding")); ("dry_run", VBool true);
        ("func", VFunc Fn_drop_daily)]%string
  /\ getattr [("action", VStr (py "drop-daily")); ("config", VNone);
              ("binding", VStr (py "wx_binding")); ("dry_run", VBool true);
              ("func", VFunc Fn_drop_daily)]%string "dry_run"
     = Some (VBool true)
  /\ database_parse_args ascii_only
       (map py ["rebuild-daily"; "--d"; "2023-01-01"]%string)
     = Raise (UsageError AmbiguousOption).
Proof.
  split; [vm_compute; reflexivity|]. split.
  - refine (proj1 (@X11_dry_run_abbreviated ascii_only (py "--dry")
                     [py "--dry"] _) (py "drop-daily")
                  database_drop_daily_parser _ _ eq_refl _ _).
    + left. reflexivity.
    + simpl. auto.
    + left. simpl. lia.
    + vm_compute. reflexivity.
  - refine (proj2 (@X11_dry_run_abbreviated ascii_only (py "--d")
                     (map py ["--d"; "2023-01-01"]%string) _) eq_refl).
    left. reflexivity.
Defined.

(** ** Options that the parser does not have *)

Lemma lookup_none {A : Type} (k : str) (d : list (str * A)) :
  forallb (fun kv => negb (str_eqb (fst kv) k)) d = true ->
  lookup k d = None.
Proof.
  induction d as [|[k' v] d IH]; simpl; [reflexivity|].
  rewrite andb_true_iff. intros [H1 H2].
  apply negb_true_iff in H1. rewrite H1. apply IH, H2.
Qed.

Lemma startswith_eq (o s : str) :
  str_eqb o s = true -> startswith o s = true.
Proof. intros H. apply str_eqb_eq in H. subst. apply startswith_refl. Qed.

Lemma parse_optional_unknown (ucd : unicode_data) (p : parser) (s : str) :
  unknown_option p s = true ->
  parse_optional ucd p s = Ok (Some (OptionTuple None s None)).
Proof.
  unfold unknown_option. rewrite !andb_true_iff.
  intros [[[[Hs Hlen] He] Hsp] Hno].
  apply negb_true_iff in He, Hsp.
  destruct s as [|c0 [|c1 r]]; try discriminate.
  change (py "--") with [45%N; 45%N] in Hs. simpl in Hs.
  apply andb_true_iff in Hs. destruct Hs as [H0 Hs].
  apply andb_true_iff in Hs. destruct Hs as [H1 _].
  apply N.eqb_eq in H0, H1. subst c0 c1.
  destruct r as [|c2 r]; [discriminate|].
  unfold parse_optional. cbn [N.eqb Pos.eqb negb].
  rewrite lookup_none.
  2:{ eapply forallb_weaken; [|exact Hno]. intros [o ia] H. simpl in *.
      destruct (str_eqb o _) eqn:E; [|reflexivity].
      apply startswith_eq in E. rewrite E in H. discriminate. }
  cbn [length Nat.eqb]. rewrite He.
  assert (G : get_option_tuples p (45%N :: 45%N :: c2 :: r) = []).
  { unfold get_option_tuples. cbn [N.eqb Pos.eqb].
    unfold option_part. rewrite He.
    induction (option_string_actions p) as [|oa l IH]; [reflexivity|].
    simpl in Hno. apply andb_true_iff in Hno. destruct Hno as [Ho Hl].
    apply negb_true_iff in Ho. cbn [flat_map]. rewrite Ho. apply IH, Hl. }
  rewrite G.
  assert (N : negative_number_matcher ucd (45%N :: 45%N :: c2 :: r) = false)
    by reflexivity.
  rewrite N, Hsp. reflexivity.
Qed.

Section Unknown.
Variable npm : list (str * subparser).
Variable p : parser.
Hypothesis Hleaf : forall a, In a (actions p) -> nargs a <> PARSER.

(** An option that the parser does not have is left among the extras. *)
Lemma unknown_left_over (toks : list token) (st : state) (s os : str)
      (e : option str) :
  (forall s' ia' os' e',
      In (s', PO (OptionTuple (Some ia') os' e')) toks ->
      In ia' (actions_indexed p)) ->
  consume_all npm p toks = Ok st ->
  In (s, PO (OptionTuple None os e)) toks ->
  extras st <> [].
Proof.
  intros Hact A Hin.
  set (tok := (s, PO (OptionTuple None os e))) in *.
  assert (HI : (In tok (@nil token) \/ extras st <> [])
               /\ (forall ia2, positionals st = Some ia2 ->
                               In ia2 (actions_indexed p))
               /\ (forall s' ia' os' e',
                      In (s', PO (OptionTuple (Some ia') os' e')) (@nil token) ->
                      In ia' (actions_indexed p))).
  { apply (@consume_all_inv npm p
             (fun st toks =>
                (In tok toks \/ extras st <> [])
                /\ (forall ia2, positionals st = Some ia2 ->
                                In ia2 (actions_indexed p))
                /\ (forall s' ia' os' e',
                       In (s', PO (OptionTuple (Some ia') os' e')) toks ->
                       In ia' (actions_indexed p))))
      with (toks := toks); [| | | |exact A].
    - intros st0 toks0 ia2 n st' (H1 & H2 & H3) P M T.
      apply take_action_frame in T. destruct T as (_ & T & _).
      split; [|split].
      + destruct H1 as [H1|H1].
        * left. apply In_skipn_no_option; [|assumption].
          eapply match_nargs_no_option; [|eassumption].
          apply Hleaf, actions_indexed_action, H2, P.
        * right. simpl. rewrite T. assumption.
      + simpl. discriminate.
      + intros s' ia' os' e' H. eapply H3, In_skipn, H.
    - intros st0 toks0 k (H1 & H2 & H3) ->. split; [|split].
      + destruct H1 as [H1|H1]; [left | right].
        * apply In_skipn_no_option; [apply count_while_firstn | assumption].
        * simpl. destruct (extras st0); [congruence | discriminate].
      + assumption.
      + intros s' ia' os' e' H. eapply H3, In_skipn, H.
    - intros st0 st' s0 [a0 os0 e0] fol stop (H1 & H2 & H3) C.
      destruct a0 as [ia0|].
      + apply consume_optional_inv in C.
        destruct C as (args & tuples & n & T & -> & Hshort & Hn).
        pose proof T as Hfr. apply take_actions_frame in Hfr.
        destruct Hfr as [Hfr Hex].
        split; [|split].
        * destruct H1 as [[H1|H1]|H1].
          -- discriminate H1.
          -- left. simpl. destruct Hn as [->|(ia' & Hia' & M)];
               [assumption|].
             apply In_skipn_no_option; [|assumption].
             eapply match_nargs_no_option; [|eassumption].
             apply Hleaf, actions_indexed_action.
             destruct Hia' as [->|Hia'].
             ++ eapply H3. left. reflexivity.
             ++ apply short_option_In in Hia'. tauto.
          -- right. rewrite Hex. assumption.
        * rewrite Hfr. assumption.
        * intros s' ia' os' e' H. eapply H3, In_skipn, H.
      + simpl in C. injection C as <- <-. simpl. split; [|split].
        * right. destruct (extras st0); discriminate.
        * assumption.
        * intros s' ia' os' e' H. eapply H3. right. eassumption.
    - split; [left; assumption | split; [|assumption]].
      simpl. intros ia2 H. apply get_positional_actions_In in H. tauto. }
  destruct HI as [[[]|HI] _]. assumption.
Qed.
End Unknown.

(** X12.  An action does not parse when one of its argument strings
    before the [--] is a long option that it does not have (a string that
    starts with [--], holds no [=] and no space, and is the beginning of
    no option of the action): the invocation ends in a usage error or in
    the help text, and nothing is dispatched. *)
Theorem X12_unknown_option (ucd : unicode_data) (a : str) (p : parser)
        (s : str) (rest : list str) :
  In (a, p) action_parsers ->
  unknown_option p s = true ->
  In s (options_zone rest) ->
  exists e, database_parse_args ucd (a :: rest) = Raise e
            /\ argparse_exit e = true.
Proof.
  intros Hin Hs Hz. apply not_ok_exit. intros ns H.
  rewrite (@database_parse_args_action ucd a p rest Hin) in H.
  inv_bind H. destruct a0 as [subns ex]. destruct ex; [|discriminate].
  apply parse_known_args_inv in E.
  destruct E as (toks & st & C & A & _ & _ & Hex).
  assert (Hne : extras st <> []).
  { eapply unknown_left_over with (p := p); [| |exact A|].
    - intros a' Ha'. eapply no_parser_action_spec; [|exact Ha'].
      apply action_parser_facts in Hin. tauto.
    - intros s' ia' os' e' H'. eapply classified_options in H'; [|eassumption].
      tauto.
    - eapply classify_In; [eassumption | exact Hz |].
      apply parse_optional_unknown, Hs. }
  destruct (extras st); [congruence | discriminate].
Qed.

Lemma X12_unknown_option_witness :
  exists e,
    database_parse_args ascii_only
      (map py ["add-column"; "x"; "--dryrun"]%string) = Raise e
    /\ argparse_exit e = true.
Proof.
  apply (@X12_unknown_option ascii_only (py "add-column") add_column_parser
           (py "--dryrun") (map py ["x"; "--dryrun"]%string)).
  - simpl. auto 10.
  - reflexivity.
  - simpl. auto.
Defined.

(** ** Names after the separator *)

Lemma match_one_or_more_after_dash (a : action) (s x : str) (l : list str) :
  option_strings a = [] ->
  nargs a = ONE_OR_MORE ->
  match_nargs a ((s, PDash) :: @map str token (fun s => (s, PA)) (x :: l))
  = Some (S (S (length l))).
Proof.
  unfold match_nargs, is_positional. intros -> ->. cbn [negb map].
  cbv zeta.
  change (count_while is_PDash ((s, PDash) :: (x, PA) :: map _ l)) with 1.
  cbn [skipn]. change (is_PA (x, PA)) with true. cbv iota.
  do 2 f_equal.
  rewrite (@count_while_all _ _ (map (fun s0 : str => (s0, PA)) l)).
  - rewrite length_map. reflexivity.
  - apply forallb_forall. intros y Hy. apply in_map_iff in Hy.
    destruct Hy as (z & <- & _). reflexivity.
Qed.

(** X13.  After the separator [--] every argument string of
    [drop-columns] is a column name, also one that starts with a dash:
    [drop-columns -- NAME ...] parses for any names, one at least, and
    [drop_columns] passes exactly these names, in their order, with the
    flag [dry_run] off. *)
Theorem X13_names_after_separator (ucd : unicode_data) (names : list str) :
  names <> [] ->
  exists ns,
    database_parse_args ucd (py "drop-columns" :: py "--" :: names) = Ok ns
    /\ getattr ns "func" = Some (VFunc Fn_drop_columns)
    /\ drop_columns ns
       = Ok (Call_drop_columns VNone (VStr (py "wx_binding")) (VList names)
               (VBool false)).
Proof.
  intros Hne.
  rewrite (@database_parse_args_action ucd (py "drop-columns")
             drop_columns_parser) by (simpl; auto 10).
  unfold parse_known_args. cbn [classify].
  change (str_eqb (py "--") (py "--")) with true. cbv iota.
  cbn [bind]. unfold consume_all.
  rewrite parse_loop_no_option
    by (cbn [existsb]; rewrite existsb_arguments; reflexivity).
  cbn [bind]. unfold consume_positionals.
  change (positionals (initial_state drop_columns_parser))
    with (Some (1, positional "column_names" ONE_OR_MORE)).
  cbn [snd]. destruct names as [|x l]; [congruence|].
  rewrite match_one_or_more_after_dash by reflexivity.
  assert (Hlen : length ((py "--", PDash)
                           :: @map str token (fun s => (s, PA)) (x :: l))
                 <= S (S (length l)))
    by (cbn [length map]; rewrite length_map; lia).
  rewrite (firstn_all2 _ Hlen). cbn [map fst]. rewrite map_map.
  cbn [fst]. rewrite map_id.
  erewrite take_action_store; [|reflexivity|].
  2:{ unfold get_values. cbn [snd nargs positional remove_first].
      change (str_eqb (py "--") (py "--")) with true. cbv iota.
      rewrite check_values_any by reflexivity. reflexivity. }
  cbn [bind skipn]. rewrite skipn_all2 by (rewrite length_map; lia).
  eexists. split; [reflexivity|]. split; reflexivity.
Qed.

Lemma X13_names_after_separator_witness :
  exists ns,
    database_parse_args ascii_only
      (map py ["drop-columns"; "--"; "-x"; "--dry-run"]%string) = Ok ns
    /\ getattr ns "func" = Some (VFunc Fn_drop_columns)
    /\ drop_columns ns
       = Ok (Call_drop_columns VNone (VStr (py "wx_binding"))
               (VList [py "-x"; py "--dry-run"]) (VBool false)).
Proof.
  refine (@X13_names_after_separator ascii_only
            [py "-x"; py "--dry-run"] _).
  discriminate.
Defined.

(** ** An option given twice *)

(** X14.  When [--binding=] is given twice to [create], [drop-daily] or
    [rebuild-daily], the second value is the binding of the namespace. *)
Theorem X14_last_binding_wins (ucd : unicode_data) (a : str) (b1 b2 : str) :
  In a (map py ["create"; "drop-daily"; "rebuild-daily"]%string) ->
  str_eqb b1 (py "--") = false ->
  str_eqb b2 (py "--") = false ->
  exists ns,
    database_parse_args ucd
      [a; py "--binding=" ++ b1; py "--binding=" ++ b2] = Ok ns
    /\ getattr ns "binding" = Some (VStr b2).
Proof.
  intros Ha H1 H2.
  assert (Hp : exists p, In (a, p) action_parsers
                         /\ In p [database_create_parser;
                                  database_drop_daily_parser;
                                  database_rebuild_parser]).
  { simpl in Ha. destruct Ha as [<-|[<-|[<-|[]]]]; eexists;
      (split; [simpl; auto 10 | simpl; auto]). }
  destruct Hp as (p & Hin & Hp).
  rewrite (@database_parse_args_action ucd a p _ Hin).
  unfold parse_known_args.
  destruct Hp as [<-|[<-|[<-|[]]]];
    repeat (erewrite classify_cons;
            [ | lazy; reflexivity | lazy; reflexivity | ]);
    try reflexivity;
    cbn [bind]; unfold consume_all; cbn;
    repeat (rewrite explicit_loop_one by reflexivity; cbn;
            erewrite take_action_store;
            [ | reflexivity | rewrite get_values_one by auto; reflexivity ];
            cbn);
    (eexists; split; reflexivity).
Qed.

Lemma X14_last_binding_wins_witness :
  exists ns,
    database_parse_args ascii_only
      (map py ["create"; "--binding=a"; "--binding=b"]%string) = Ok ns
    /\ getattr ns "binding" = Some (VStr (py "b")).
Proof.
  apply (@X14_last_binding_wins ascii_only (py "create") (py "a") (py "b"));
    [simpl; auto | reflexivity | reflexivity].
Defined.

(** * Invocations made of options and names *)

(** ** Their classification *)

Lemma contains_app (c : N) (s t : str) :
  contains c (s ++ t) = contains c s || contains c t.
Proof. unfold contains. apply existsb_app. Qed.

Lemma lookup_no_equals {A : Type} (k : str) (d : list (str * A)) :
  forallb (fun kv => negb (contains 61 (fst kv))) d = true ->
  contains 61 k = true ->
  lookup k d = None.
Proof.
  intros Hd Hk. induction d as [|[k' v] d IH]; simpl; [reflexivity|].
  simpl in Hd. apply andb_true_iff in Hd. destruct Hd as [H1 H2].
  destruct (str_eqb k' k) eqn:E; [|apply IH, H2].
  apply str_eqb_eq in E. subst k'. rewrite Hk in H1. discriminate.
Qed.

Lemma split_eq_app (o v : str) :
  contains 61 o = false -> split_eq (o ++ 61%N :: v) = (o, v).
Proof.
  induction o as [|c o IH].
  - intros _. cbn [app split_eq]. rewrite N.eqb_refl. reflexivity.
  - unfold contains. cbn [existsb app split_eq]. intros H.
    apply orb_false_iff in H. destruct H as [Hc Ho].
    rewrite N.eqb_sym, Hc. unfold contains in IH. rewrite (IH Ho).
    reflexivity.
Qed.

Lemma assigned_not_dashes (o v : str) :
  plain o = false -> str_eqb (o ++ 61%N :: v) (py "--") = false.
Proof.
  destruct o as [|c0 [|c1 [|c2 o]]]; simpl; try discriminate; intros _;
    rewrite ?andb_false_r; reflexivity.
Qed.

Section Settings.
Variable ucd : unicode_data.
Variable p : parser.
Hypothesis Hne : no_equals p = true.

Lemma accepts_lookup (s : setting) :
  accepts p s = true ->
  exists ia,
    lookup (setting_option s) (option_string_actions p) = Some ia
    /\ plain (setting_option s) = false
    /\ str_eqb (setting_option s) (py "--") = false
    /\ contains 61 (setting_option s) = false
    /\ match s with
       | Assigned _ v =>
           is_store_one (snd ia) = true /\ str_eqb v (py "--") = false
           /\ choice_ok (snd ia) v = true
       | Followed _ v =>
           is_store_one (snd ia) = true /\ plain v = true
           /\ choice_ok (snd ia) v = true
       | Switched _ => is_flag (snd ia) = true
       end.
Proof.
  unfold accepts.
  destruct (lookup (setting_option s) (option_string_actions p)) as [ia|];
    [|discriminate].
  rewrite !andb_true_iff, !negb_true_iff. intros [[[H1 H2] H3] H4].
  exists ia. repeat (split; [assumption || reflexivity|]).
  destruct s; rewrite ?andb_true_iff, ?negb_true_iff in H4; tauto.
Qed.

Lemma parse_optional_exact (o : str) (ia : iaction) :
  lookup o (option_string_actions p) = Some ia ->
  plain o = false ->
  parse_optional ucd p o = Ok (Some (OptionTuple (Some ia) o None)).
Proof.
  intros L Hp. unfold parse_optional. destruct o as [|c0 r]; [discriminate|].
  simpl in Hp. rewrite Hp, L. reflexivity.
Qed.

Lemma parse_optional_assigned (o v : str) (ia : iaction) :
  lookup o (option_string_actions p) = Some ia ->
  plain o = false ->
  contains 61 o = false ->
  parse_optional ucd p (o ++ 61%N :: v)
  = Ok (Some (OptionTuple (Some ia) o (Some v))).
Proof.
  intros L Hp He. unfold parse_optional.
  destruct o as [|c0 r]; [discriminate|].
  simpl in Hp. cbn [app]. rewrite Hp.
  assert (Hc : contains 61 (c0 :: r ++ 61%N :: v) = true).
  { change (c0 :: r ++ 61%N :: v) with ((c0 :: r) ++ 61%N :: v).
    rewrite contains_app. apply orb_true_iff. right.
    unfold contains. cbn [existsb]. rewrite N.eqb_refl. reflexivity. }
  rewrite (lookup_no_equals _ _ Hne Hc).
  assert (Hl : (length (c0 :: r ++ 61%N :: v) =? 1) = false).
  { cbn [length]. rewrite length_app. simpl. apply Nat.eqb_neq. lia. }
  rewrite Hl, Hc.
  change (c0 :: r ++ 61%N :: v) with ((c0 :: r) ++ 61%N :: v).
  rewrite (split_eq_app _ v He). cbn [fst snd]. rewrite L. reflexivity.
Qed.

(** The argument strings of a setting are classified on their own. *)
Lemma classify_setting (s : setting) (rest : list str) (toks : list token) :
  accepts p s = true ->
  classify ucd p rest = Ok toks ->
  classify ucd p (setting_args s ++ rest) = Ok (setting_tokens p s ++ toks).
Proof.
  intros Ha C. apply accepts_lookup in Ha.
  destruct Ha as (ia & L & Hp & Hd & He & Hs).
  unfold setting_tokens. rewrite L.
  destruct s as [o v|o v|o]; cbn [setting_args setting_option app] in *.
  - rewrite (@classify_cons ucd p (o ++ 61%N :: v) rest _ toks
               (assigned_not_dashes _ v Hp)
               (parse_optional_assigned _ v L Hp He) C). reflexivity.
  - destruct Hs as (_ & Hv & _).
    rewrite (@classify_cons ucd p o (v :: rest) _ ((v, PA) :: toks) Hd
               (parse_optional_exact _ L Hp)); [reflexivity|].
    rewrite (@classify_cons ucd p v rest _ toks (plain_not_dashes _ Hv)
               (parse_optional_plain ucd p _ Hv) C). reflexivity.
  - rewrite (@classify_cons ucd p o rest _ toks Hd
               (parse_optional_exact _ L Hp) C).
    reflexivity.
Qed.

Lemma classify_settings (ss : list setting) (rest : list str)
      (toks : list token) :
  forallb (accepts p) ss = true ->
  classify ucd p rest = Ok toks ->
  classify ucd p (settings_args ss ++ rest)
  = Ok (settings_tokens p ss ++ toks).
Proof.
  induction ss as [|s ss IH]; simpl; intros Ha C; [exact C|].
  apply andb_true_iff in Ha. destruct Ha as [Hs Hss].
  rewrite <- !app_assoc. apply classify_setting; [assumption|].
  apply IH; assumption.
Qed.

Lemma classify_plain_app (names rest : list str) (toks : list token) :
  forallb plain names = true ->
  classify ucd p rest = Ok toks ->
  classify ucd p (names ++ rest)
  = Ok (map (fun s => (s, PA)) names ++ toks).
Proof.
  induction names as [|x names IH]; simpl; intros Hn C; [exact C|].
  apply andb_true_iff in Hn. destruct Hn as [Hx Hn].
  rewrite (plain_not_dashes _ Hx), (parse_optional_plain ucd p _ Hx).
  simpl. rewrite (IH Hn C). reflexivity.
Qed.
End Settings.

(** ** Their consumption *)

Lemma with_extras_nil (st : state) : with_extras st [] = st.
Proof. destruct st. unfold with_extras. simpl. rewrite app_nil_r. reflexivity. Qed.

Lemma skipn_app_length {A : Type} (l r : list A) :
  skipn (length l) (l ++ r) = r.
Proof. induction l; simpl; auto. Qed.

Lemma firstn_app_length {A : Type} (l r : list A) :
  firstn (length l) (l ++ r) = l.
Proof. induction l; simpl; [reflexivity|]. f_equal. assumption. Qed.

Lemma map_fst_arguments (l : list str) :
  map fst (@map str token (fun s => (s, PA)) l) = l.
Proof. rewrite map_map. simpl. apply map_id. Qed.

Lemma count_while_app {A : Type} (f : A -> bool) (l r : list A) :
  forallb f l = true ->
  (forall t r', r = t :: r' -> f t = false) ->
  count_while f (l ++ r) = length l.
Proof.
  intros Hl Hr. induction l as [|x l IH]; simpl.
  - destruct r as [|t r']; [reflexivity|]. simpl.
    rewrite (Hr t r' eq_refl). reflexivity.
  - simpl in Hl. apply andb_true_iff in Hl. destruct Hl as [Hx Hl].
    rewrite Hx, (IH Hl). reflexivity.
Qed.

Section SettingsLoop.
Variable npm : list (str * subparser).
Variable p : parser.

Lemma lookup_optional (o : str) (ia : iaction) :
  lookup o (option_string_actions p) = Some ia ->
  is_positional (snd ia) = false.
Proof.
  intros L. apply lookup_In, option_string_actions_In in L.
  destruct L as [_ L]. unfold is_positional.
  destruct (option_strings (snd ia)); [destruct L | reflexivity].
Qed.

Lemma setting_tokens_head (s : setting) :
  accepts p s = true ->
  exists x t tl, setting_tokens p s = (x, PO t) :: tl.
Proof.
  unfold accepts, setting_tokens.
  destruct (lookup (setting_option s) (option_string_actions p));
    [|discriminate].
  intros _. destruct s; eauto.
Qed.

Lemma settings_tokens_head (ss : list setting) :
  forallb (accepts p) ss = true ->
  forall t r, settings_tokens p ss = t :: r -> is_PO t = true.
Proof.
  destruct ss as [|s ss]; simpl; [discriminate|].
  rewrite andb_true_iff. intros [Hs _] t r.
  destruct (setting_tokens_head _ Hs) as (x & t' & tl & ->).
  simpl. intros [= <- _]. reflexivity.
Qed.

Lemma check_value_choice (a : action) (v : str) :
  choice_ok a v = true -> check_value a v = Ok tt.
Proof.
  unfold choice_ok, check_value. destruct (choices a); [|reflexivity].
  intros ->. reflexivity.
Qed.

(** Consuming a setting takes its action and as many argument strings
    as it has. *)
Lemma consume_optional_setting (st : state) (s : setting)
      (fol : list token) :
  accepts p s = true ->
  consume_optional npm p st (setting_tokens p s ++ fol)
  = Ok (take_setting p st s, length (setting_tokens p s)).
Proof.
  intros Ha.
  assert (Hl : exists ia,
             lookup (setting_option s) (option_string_actions p) = Some ia).
  { unfold accepts in Ha.
    destruct (lookup (setting_option s) (option_string_actions p));
      [eauto | discriminate]. }
  destruct Hl as (ia & L).
  pose proof (lookup_optional _ L) as Hopt.
  unfold accepts in Ha. rewrite L in Ha.
  rewrite !andb_true_iff in Ha. destruct Ha as [_ Hs].
  unfold setting_tokens, take_setting. rewrite L.
  destruct s as [o v|o v|o]; cbn [setting_option setting_value app length] in *.
  - rewrite !andb_true_iff, negb_true_iff in Hs.
    destruct Hs as [[Hone Hv] Hc].
    unfold is_store_one in Hone.
    destruct (cls (snd ia)) eqn:Ec; try discriminate.
    destruct (nargs (snd ia)) eqn:En; try discriminate.
    unfold consume_optional.
    rewrite explicit_loop_one by assumption. cbn [bind app take_actions].
    erewrite take_action_store;
      [reflexivity | assumption |].
    rewrite get_values_one by assumption.
    rewrite (check_value_choice _ _ Hc). reflexivity.
  - rewrite !andb_true_iff in Hs. destruct Hs as [[Hone Hv] Hc].
    unfold is_store_one in Hone.
    destruct (cls (snd ia)) eqn:Ec; try discriminate.
    destruct (nargs (snd ia)) eqn:En; try discriminate.
    unfold consume_optional. cbn [bind].
    assert (M : match_argument (snd ia) ((v, PA) :: fol) = Ok 1).
    { unfold match_argument, match_nargs. rewrite Hopt, En. reflexivity. }
    rewrite M. cbn [bind app firstn map fst take_actions Nat.add].
    erewrite take_action_store;
      [reflexivity | assumption |].
    rewrite get_values_one by (auto using plain_not_dashes).
    rewrite (check_value_choice _ _ Hc). reflexivity.
  - unfold is_flag in Hs.
    destruct (cls (snd ia)) eqn:Ec; try discriminate.
    destruct (nargs (snd ia)) eqn:En; try discriminate.
    unfold consume_optional. cbn [bind].
    assert (M : match_argument (snd ia) fol = Ok 0).
    { unfold match_argument, match_nargs. rewrite Hopt, En. reflexivity. }
    rewrite M. cbn [bind app firstn map fst take_actions Nat.add].
    unfold take_action, get_values. rewrite En.
    cbn [remove_first check_values bind]. unfold call_action. rewrite Ec.
    reflexivity.
Qed.

Lemma parse_loop_option (bound : nat) (st : state) (x : str)
      (t : option_tuple) (fol : list token) :
  parse_loop npm p (S bound) st ((x, PO t) :: fol)
  = ('(st', stop) <- consume_optional npm p st ((x, PO t) :: fol) ;;
     parse_loop npm p bound st' (skipn stop ((x, PO t) :: fol))).
Proof.
  cbn [parse_loop existsb count_while]. change (is_PO (x, PO t)) with true.
  cbn [orb negb Nat.eqb bind Nat.ltb Nat.leb firstn map skipn].
  rewrite with_extras_nil. reflexivity.
Qed.

Lemma setting_tokens_length (s : setting) :
  accepts p s = true -> 1 <= length (setting_tokens p s).
Proof.
  intros H. destruct (setting_tokens_head _ H) as (x & t & tl & ->).
  simpl. lia.
Qed.

(** The loop over settings. *)
Lemma parse_loop_settings (ss : list setting) :
  forall bound st rest,
    forallb (accepts p) ss = true ->
    length (settings_tokens p ss ++ rest) <= bound ->
    parse_loop npm p bound st (settings_tokens p ss ++ rest)
    = parse_loop npm p (bound - length ss) (take_settings p st ss) rest.
Proof.
  induction ss as [|s ss IH]; intros bound st rest Ha Hlen.
  - simpl. rewrite Nat.sub_0_r. reflexivity.
  - simpl in Ha. apply andb_true_iff in Ha. destruct Ha as [Hs Hss].
    cbn [settings_tokens flat_map] in *.
    fold (settings_tokens p ss) in *.
    rewrite <- app_assoc in *.
    pose proof (setting_tokens_length _ Hs) as H1.
    rewrite length_app in Hlen.
    destruct bound as [|bound]; [lia|].
    pose proof (consume_optional_setting st s
                  (settings_tokens p ss ++ rest) Hs) as Hc.
    destruct (setting_tokens_head _ Hs) as (x & t & tl & Ht).
    rewrite Ht in Hc. cbn [app] in Hc.
    rewrite Ht at 1. cbn [app]. rewrite parse_loop_option, Hc.
    cbn [bind].
    change ((x, PO t) :: tl ++ settings_tokens p ss ++ rest)
      with (((x, PO t) :: tl) ++ settings_tokens p ss ++ rest).
    rewrite <- Ht, skipn_app_length.
    rewrite IH; [reflexivity | assumption | lia].
Qed.

Lemma take_settings_frame (ss : list setting) :
  forall st,
    positionals (take_settings p st ss) = positionals st
    /\ extras (take_settings p st ss) = extras st
    /\ unrecognized_args (take_settings p st ss) = unrecognized_args st.
Proof.
  induction ss as [|s ss IH]; intros st; simpl; [auto|].
  destruct (IH (take_setting p st s)) as (H1 & H2 & H3).
  rewrite H1, H2, H3. unfold take_setting.
  destruct (lookup _ _); auto.
Qed.

(** What a positional matches among words that an option follows, or
    nothing. *)
Lemma match_names (a : action) (names : list str) (more : list token) :
  takes_names a names = true ->
  (forall t r, more = t :: r -> is_PO t = true) ->
  match_nargs a (@map str token (fun s => (s, PA)) names ++ more)
  = Some (length names).
Proof.
  unfold takes_names, match_nargs, is_positional.
  destruct (cls a); try discriminate.
  destruct (option_strings a); try discriminate.
  destruct (choices a); try discriminate.
  intros Hn Hmore. cbn [negb]. cbv zeta.
  assert (Hd : forall t r, more = t :: r -> is_PDash t = false).
  { intros [x []] r E; try reflexivity.
    apply Hmore in E. discriminate. }
  destruct (nargs a); try discriminate.
  - destruct names as [|x [|y l]]; try discriminate.
    cbn [map app]. change (count_while is_PDash ((x, PA) :: more)) with 0.
    cbn [skipn]. change (is_PA (x, PA)) with true. cbv iota.
    pose proof (@count_while_app _ is_PDash [] more eq_refl Hd) as X.
    cbn [app length] in X. rewrite X. reflexivity.
  - destruct names as [|x l]; try discriminate.
    cbn [map app].
    change (count_while is_PDash ((x, PA) :: map _ l ++ more)) with 0.
    cbn [skipn]. change (is_PA (x, PA)) with true. cbv iota.
    rewrite count_while_app.
    + rewrite length_map. reflexivity.
    + apply forallb_forall. intros y Hy. apply in_map_iff in Hy.
      destruct Hy as (z & <- & _). reflexivity.
    + intros [z []] r E; try reflexivity.
      * apply Hmore in E. discriminate.
      * apply Hmore in E. discriminate.
Qed.

Lemma get_values_taken (a : action) (names : list str) :
  takes_names a names = true ->
  forallb plain names = true ->
  cls a = StoreAction
  /\ get_values a names = Ok (names_value a names).
Proof.
  unfold takes_names, names_value.
  destruct (cls a); try discriminate.
  destruct (option_strings a); try discriminate.
  destruct (choices a) eqn:Ec; try discriminate.
  destruct (nargs a) eqn:En; try discriminate; intros Hn Hp;
    (split; [reflexivity|]).
  - destruct names as [|x [|y l]]; try discriminate.
    simpl in Hp. rewrite andb_true_r in Hp.
    rewrite get_values_one by (auto using plain_not_dashes).
    unfold check_value. rewrite Ec. reflexivity.
  - apply get_values_names; auto using plain_all_not_dashes.
Qed.

(** A positional takes the words in front of it. *)
Lemma consume_positionals_names (st : state) (ia : iaction)
      (names : list str) (more : list token) :
  positionals st = Some ia ->
  takes_names (snd ia) names = true ->
  forallb plain names = true ->
  (forall t r, more = t :: r -> is_PO t = true) ->
  consume_positionals npm st
    (@map str token (fun s => (s, PA)) names ++ more)
  = Ok (take_names st ia names, length names).
Proof.
  intros P Hn Hp Hmore. unfold consume_positionals. rewrite P.
  rewrite (@match_names (snd ia) names more Hn Hmore).
  assert (F : map fst (firstn (length names)
                         (@map str token (fun s => (s, PA)) names ++ more))
              = names).
  { rewrite <- (length_map (fun s : str => (s, PA)) names) at 1.
    rewrite firstn_app_length. apply map_fst_arguments. }
  rewrite F.
  destruct (@get_values_taken (snd ia) names Hn Hp) as [Hc Hg].
  rewrite (@take_action_store npm st ia names (names_value (snd ia) names)
             Hc Hg). reflexivity.
Qed.

Lemma takes_names_nonempty (a : action) (names : list str) :
  takes_names a names = true -> 1 <= length names.
Proof.
  unfold takes_names.
  destruct (cls a), (option_strings a), (choices a), (nargs a);
    try discriminate; intros H.
  - apply Nat.eqb_eq in H. lia.
  - apply Nat.leb_le in H. lia.
Qed.

Lemma parse_loop_names (bound : nat) (st : state) (ia : iaction)
      (names : list str) (x : str) (t : option_tuple) (fol : list token) :
  positionals st = Some ia ->
  takes_names (snd ia) names = true ->
  forallb plain names = true ->
  parse_loop npm p (S bound) st
    (@map str token (fun s => (s, PA)) names ++ (x, PO t) :: fol)
  = parse_loop npm p bound (take_names st ia names) ((x, PO t) :: fol).
Proof.
  intros P Hn Hp.
  pose proof (@takes_names_nonempty (snd ia) names Hn) as Hlen.
  cbn [parse_loop].
  assert (E : existsb is_PO
                (@map str token (fun s => (s, PA)) names ++ (x, PO t) :: fol)
              = true).
  { rewrite existsb_app. simpl. change (is_PO (x, PO t)) with true.
    rewrite orb_true_r. reflexivity. }
  rewrite E. cbn [negb].
  assert (C : count_while (fun t0 : token => negb (is_PO t0))
                (@map str token (fun s => (s, PA)) names ++ (x, PO t) :: fol)
              = length names).
  { rewrite count_while_app.
    - apply length_map.
    - apply forallb_forall. intros y Hy. apply in_map_iff in Hy.
      destruct Hy as (z & <- & _). reflexivity.
    - intros t0 r [= <- _]. reflexivity. }
  rewrite C.
  destruct (length names =? 0) eqn:Z; [apply Nat.eqb_eq in Z; lia|].
  rewrite (@consume_positionals_names st ia names ((x, PO t) :: fol) P Hn Hp)
    by (intros t0 r [= <- _]; reflexivity).
  cbn [bind].
  destruct (0 <? length names) eqn:L; [|apply Nat.ltb_ge in L; lia].
  rewrite <- (length_map (fun s : str => (s, PA)) names) at 1.
  rewrite skipn_app_length. reflexivity.
Qed.
End SettingsLoop.

(** ** The state they leave *)

Section SettingsState.
Variable p : parser.

Lemma getattr_take_settings (d : string) (ss : list setting) :
  forall st v,
    getattr (st_namespace st) d = Some v ->
    getattr (st_namespace (take_settings p st ss)) d = Some (given p d ss v).
Proof.
  induction ss as [|s ss IH]; intros st v H; simpl; [exact H|].
  apply IH. unfold take_setting.
  destruct (lookup (setting_option s) (option_string_actions p)) as [ia|];
    [|exact H].
  cbn [st_namespace with_namespace].
  destruct (stores_into d (snd ia)) eqn:E.
  - unfold stores_into in E. destruct (dest (snd ia)) as [d'|] eqn:Ed;
      [|discriminate]. apply String.eqb_eq in E. subst d'.
    apply getattr_set_dest_same, Ed.
  - rewrite getattr_set_dest_other; [exact H|].
    intros Ed. unfold stores_into in E. rewrite Ed, String.eqb_refl in E.
    discriminate.
Qed.

Lemma given_app (d : string) (ss1 ss2 : list setting) (v : value) :
  given p d (ss1 ++ ss2) v = given p d ss2 (given p d ss1 v).
Proof. unfold given. apply fold_left_app. Qed.

Lemma getattr_take_names (st : state) (ia : iaction) (names : list str)
      (d : string) :
  getattr (st_namespace (take_names st ia names)) d
  = if stores_into d (snd ia)
    then Some (names_value (snd ia) names)
    else getattr (st_namespace st) d.
Proof.
  unfold take_names. cbn [st_namespace without_positionals with_namespace].
  destruct (stores_into d (snd ia)) eqn:E.
  - unfold stores_into in E. destruct (dest (snd ia)) as [d'|] eqn:Ed;
      [|discriminate]. apply String.eqb_eq in E. subst d'.
    apply getattr_set_dest_same, Ed.
  - apply getattr_set_dest_other.
    intros Ed. unfold stores_into in E. rewrite Ed, String.eqb_refl in E.
    discriminate.
Qed.

Lemma seen_take_settings (ss : list setting) :
  forall st i,
    In i (seen_actions st) -> In i (seen_actions (take_settings p st ss)).
Proof.
  induction ss as [|s ss IH]; intros st i H; simpl; [exact H|].
  apply IH. unfold take_setting.
  destruct (lookup _ _); [right|]; exact H.
Qed.

Lemma seen_take_settings_sets (o : string) (ia : iaction)
      (ss : list setting) :
  lookup (py o) (option_string_actions p) = Some ia ->
  sets o ss = true ->
  forall st, In (fst ia) (seen_actions (take_settings p st ss)).
Proof.
  intros L. unfold sets. induction ss as [|s ss IH]; simpl; [discriminate|].
  intros H st. destruct (str_eqb (setting_option s) (py o)) eqn:E.
  - apply seen_take_settings. unfold take_setting.
    apply str_eqb_eq in E. rewrite E, L. left. reflexivity.
  - apply IH, H.
Qed.

Lemma seen_take_settings_inv (ss : list setting) :
  forall st i,
    In i (seen_actions (take_settings p st ss)) ->
    In i (seen_actions st)
    \/ exists o ia, lookup o (option_string_actions p) = Some ia
                    /\ fst ia = i.
Proof.
  induction ss as [|s ss IH]; intros st i; simpl; [auto|].
  intros H. apply IH in H. destruct H as [H|H]; [|auto].
  unfold take_setting in H.
  destruct (lookup (setting_option s) (option_string_actions p))
    as [ia|] eqn:L; [|auto].
  destruct H as [H|H]; [right; eauto | auto].
Qed.

Lemma missing_required_false (seen : list nat) :
  (forall ia, In ia (actions_indexed p) -> required (snd ia) = true ->
              In (fst ia) seen) ->
  missing_required p seen = false.
Proof.
  intros H.
  destruct (missing_required p seen) eqn:E; [|reflexivity].
  unfold missing_required in E. apply existsb_exists in E. destruct E as (ia & Hin & E).
  apply andb_true_iff in E. destruct E as [E1 E2].
  apply negb_true_iff in E1.
  assert (existsb (Nat.eqb (fst ia)) seen = true); [|congruence].
  apply existsb_exists. exists (fst ia). split; [auto|apply Nat.eqb_refl].
Qed.
End SettingsState.

(** ** What the parser makes of them *)

Lemma settings_tokens_length (p : parser) (ss : list setting) :
  forallb (accepts p) ss = true ->
  length ss <= length (settings_tokens p ss).
Proof.
  induction ss as [|s ss IH]; [intros _; apply Nat.le_refl|].
  cbn [forallb]. rewrite andb_true_iff. intros [Hs Hss].
  unfold settings_tokens in *. cbn [flat_map length].
  rewrite length_app. pose proof (@setting_tokens_length p s Hs).
  specialize (IH Hss). lia.
Qed.


Section SettingsParse.
Variable ucd : unicode_data.
Variable p : parser.
Hypothesis Hne : no_equals p = true.

Lemma existsb_words (l : list str) :
  existsb is_PO (@map str token (fun s => (s, PA)) l) = false.
Proof. induction l; simpl; auto. Qed.

(** Options only, for a parser whose positional, if it has one, does not
    go without a word. *)
Lemma parse_settings (ss : list setting) :
  forallb (accepts p) ss = true ->
  (forall ia, get_positional_actions p = Some ia ->
              nargs (snd ia) <> NargsZero) ->
  parse_known_args ucd [] p (settings_args ss)
  = if missing_required p
         (seen_actions (take_settings p (initial_state p) ss))
    then Raise (UsageError RequiredArguments)
    else Ok (st_namespace (take_settings p (initial_state p) ss), []).
Proof.
  intros Ha Hpos. unfold parse_known_args.
  pose proof (@classify_settings ucd p Hne ss [] [] Ha eq_refl) as C.
  rewrite (app_nil_r (settings_args ss)) in C. rewrite C.
  cbn [bind]. unfold consume_all.
  rewrite parse_loop_settings by (assumption || apply Nat.le_refl).
  rewrite parse_loop_no_option by reflexivity. cbn [bind].
  set (st := take_settings p (initial_state p) ss).
  assert (P : consume_positionals [] st [] = Ok (st, 0)).
  { unfold consume_positionals.
    destruct (positionals st) as [ia|] eqn:E; [|reflexivity].
    assert (Hn : nargs (snd ia) <> NargsZero).
    { apply Hpos. unfold st in E.
      destruct (take_settings_frame p ss (initial_state p)) as (F & _).
      rewrite F in E. exact E. }
    unfold match_nargs. rewrite skipn_nil.
    destruct (nargs (snd ia)); try reflexivity. congruence. }
  rewrite P. cbn [bind skipn map]. rewrite with_extras_nil.
  destruct (take_settings_frame p ss (initial_state p)) as (_ & F2 & F3).
  fold st in F2, F3. rewrite F2, F3. reflexivity.
Qed.

(** Options, then the words of the positional. *)
Lemma parse_settings_then_names (ia : iaction) (ss : list setting)
      (names : list str) :
  get_positional_actions p = Some ia ->
  forallb (accepts p) ss = true ->
  takes_names (snd ia) names = true ->
  forallb plain names = true ->
  let st := take_names (take_settings p (initial_state p) ss) ia names in
  parse_known_args ucd [] p (settings_args ss ++ names)
  = if missing_required p (seen_actions st)
    then Raise (UsageError RequiredArguments)
    else Ok (st_namespace st, []).
Proof.
  intros Hpos Ha Hn Hp st. unfold parse_known_args.
  rewrite (@classify_settings ucd p Hne ss names _ Ha
             (classify_plain ucd p names Hp)).
  cbn [bind]. unfold consume_all.
  rewrite (@parse_loop_settings [] p ss) by (assumption || apply Nat.le_refl).
  rewrite parse_loop_no_option by apply existsb_words.
  cbn [bind].
  set (st1 := take_settings p (initial_state p) ss) in *.
  assert (P1 : positionals st1 = Some ia).
  { unfold st1.
    destruct (take_settings_frame p ss (initial_state p)) as (F & _).
    rewrite F. exact Hpos. }
  pose proof (@consume_positionals_names [] st1 ia names [] P1 Hn Hp) as Hc.
  rewrite app_nil_r in Hc. rewrite Hc by discriminate. cbn [bind].
  assert (S0 : skipn (length names)
                 (@map str token (fun s => (s, PA)) names) = []).
  { rewrite <- (length_map (fun s : str => (s, PA)) names).
    apply skipn_all. }
  rewrite S0. cbn [map]. rewrite with_extras_nil.
  destruct (take_settings_frame p ss (initial_state p)) as (_ & F2 & F3).
  fold st1 in F2, F3. subst st. unfold take_names.
  cbn [extras unrecognized_args without_positionals with_namespace
       with_seen]. rewrite F2, F3. reflexivity.
Qed.

(** Options, the words of the positional, one option at least, and
    words left over. *)
Lemma parse_settings_names_settings (ia : iaction) (ss1 ss2 : list setting)
      (names extra : list str) :
  get_positional_actions p = Some ia ->
  forallb (accepts p) ss1 = true ->
  forallb (accepts p) ss2 = true ->
  ss2 <> [] ->
  takes_names (snd ia) names = true ->
  forallb plain names = true ->
  forallb plain extra = true ->
  let st := take_settings p
              (take_names (take_settings p (initial_state p) ss1) ia names)
              ss2 in
  parse_known_args ucd [] p
    (settings_args ss1 ++ names ++ settings_args ss2 ++ extra)
  = if missing_required p (seen_actions st)
    then Raise (UsageError RequiredArguments)
    else Ok (st_namespace st, extra).
Proof.
  intros Hpos Ha1 Ha2 Hne2 Hn Hp He st. unfold parse_known_args.
  assert (C : classify ucd p
                (settings_args ss1 ++ names ++ settings_args ss2 ++ extra)
              = Ok (settings_tokens p ss1
                      ++ map (fun s => (s, PA)) names
                      ++ settings_tokens p ss2
                      ++ map (fun s => (s, PA)) extra)).
  { apply classify_settings; [assumption..|].
    apply classify_plain_app; [assumption|].
    apply classify_settings; [assumption..|].
    apply classify_plain; assumption. }
  rewrite C. cbn [bind]. unfold consume_all.
  rewrite (@parse_loop_settings [] p ss1) by (assumption || apply Nat.le_refl).
  set (st1 := take_settings p (initial_state p) ss1) in *.
  assert (P1 : positionals st1 = Some ia).
  { unfold st1.
    destruct (take_settings_frame p ss1 (initial_state p)) as (F & _).
    rewrite F. exact Hpos. }
  pose proof (settings_tokens_length p ss1 Ha1) as L1.
  pose proof (settings_tokens_length p ss2 Ha2) as L2.
  pose proof (@takes_names_nonempty _ _ Hn) as LN.
  assert (Hhead : exists x t tl, settings_tokens p ss2 = (x, PO t) :: tl).
  { destruct ss2 as [|s2 ss2']; [congruence|].
    cbn [forallb] in Ha2. apply andb_true_iff in Ha2. destruct Ha2 as [Hs _].
    unfold settings_tokens. cbn [flat_map].
    destruct (@setting_tokens_head p s2 Hs) as (x & t & tl & ->).
    simpl. eauto. }
  destruct Hhead as (x & t & tl & Ht).
  rewrite !length_app, !length_map.
  remember (length (settings_tokens p ss1)
            + (length names
               + (length (settings_tokens p ss2) + length extra))
            - length ss1) as b eqn:Hb.
  destruct b as [|b]; [lia|].
  pose proof (@parse_loop_names [] p b st1 ia names x t
                (tl ++ map (fun s => (s, PA)) extra) P1 Hn Hp) as Hl.
  change ((x, PO t) :: tl ++ map (fun s : str => (s, PA)) extra)
    with (((x, PO t) :: tl) ++ map (fun s : str => (s, PA)) extra) in Hl.
  rewrite <- Ht in Hl. rewrite Hl.
  rewrite (@parse_loop_settings [] p ss2)
    by (assumption || (rewrite length_app, length_map; lia)).
  rewrite parse_loop_no_option by apply existsb_words.
  cbn [bind]. subst st.
  destruct (take_settings_frame p ss2 (take_names st1 ia names))
    as (F1 & F2 & F3).
  destruct (take_settings_frame p ss1 (initial_state p)) as (_ & G2 & G3).
  fold st1 in G2, G3.
  unfold consume_positionals. rewrite F1.
  change (positionals (take_names st1 ia names)) with (@None iaction).
  cbn [bind skipn with_extras seen_actions st_namespace extras
       unrecognized_args].
  rewrite F2, F3. unfold take_names.
  cbn [extras unrecognized_args without_positionals with_namespace
       with_seen].
  rewrite G2, G3, map_fst_arguments, app_nil_r. reflexivity.
Qed.
End SettingsParse.

(** ** The names of a positional are argument strings *)

Lemma remove_first_In (x y : str) (l : list str) :
  In y (remove_first x l) -> In y l.
Proof.
  induction l as [|z l IH]; simpl; [auto|].
  destruct (str_eqb z x); [auto|]. intros [H|H]; auto.
Qed.

Section NamesGiven.
Variable ucd : unicode_data.
Variable p : parser.
Variable d : string.
Variable ia : iaction.
Variable args : list str.
Hypothesis Hinto : every_action_into p d is_one_or_more = true.
Hypothesis Hia : In ia (actions_indexed p).
Hypothesis Hd : dest (snd ia) = Some d.

Lemma optional_keeps_names_given (st st' : state) (ia' : iaction)
      (args' : list str) :
  In ia' (actions_indexed p) /\ is_positional (snd ia') = false ->
  names_given ia d args st ->
  take_action [] st ia' args' = Ok st' ->
  names_given ia d args st'.
Proof.
  intros [Hin Hopt] HJ T. unfold names_given in *.
  pose proof T as Tf. apply take_action_frame in Tf.
  destruct Tf as (_ & _ & ->).
  apply take_action_leaf in T. destruct T as (v & -> & _).
  assert (Hne : dest (snd ia') <> Some d).
  { intros E.
    pose proof (every_action_into_spec _ _ _ Hinto
                  (actions_indexed_action _ _ Hin) E) as Hc.
    unfold is_one_or_more, is_positional in *.
    destruct (cls (snd ia')), (nargs (snd ia')), (option_strings (snd ia'));
      discriminate. }
  rewrite getattr_set_dest_other by assumption.
  intros [Hi|Hi]; [|auto].
  exfalso. apply Hne.
  assert (ia' = ia) as -> by (eapply actions_indexed_unique; eassumption).
  assumption.
Qed.

(** When the positional has been taken, its attribute is a list, not
    empty, of argument strings. *)
Lemma leaf_names_given (ns : namespace) (ex : list str) :
  required (snd ia) = true ->
  parse_known_args ucd [] p args = Ok (ns, ex) ->
  exists l, l <> [] /\ (forall x, In x l -> In x args)
            /\ getattr ns d = Some (VList l).
Proof.
  intros Hreq H. apply parse_known_args_inv in H.
  destruct H as (toks & st & C & A & M & -> & _).
  assert (Hseen : In (fst ia) (seen_actions st))
    by (eapply missing_required_seen; eassumption).
  revert Hseen. change (names_given ia d args st).
  assert (HI : (positionals st = None \/ well_formed (@nil token) = true)
               /\ names_given ia d args st
               /\ (forall x, In x (map fst (@nil token)) -> In x args)
               /\ (forall ia2, positionals st = Some ia2 ->
                               In ia2 (actions_indexed p))
               /\ (forall s' ia' os' e',
                      In (s', PO (OptionTuple (Some ia') os' e')) (@nil token) ->
                      In ia' (actions_indexed p)
                      /\ is_positional (snd ia') = false)); [|tauto].
  apply (@consume_all_inv [] p
           (fun st toks =>
              (positionals st = None \/ well_formed toks = true)
              /\ names_given ia d args st
              /\ (forall x, In x (map fst toks) -> In x args)
              /\ (forall ia2, positionals st = Some ia2 ->
                              In ia2 (actions_indexed p))
              /\ (forall s' ia' os' e',
                     In (s', PO (OptionTuple (Some ia') os' e')) toks ->
                     In ia' (actions_indexed p)
                     /\ is_positional (snd ia') = false)))
    with (toks := toks); [| | | |exact A].
  - intros st0 toks0 ia2 n st' (H1 & H2 & Hsub & H3 & H4) P Mn T.
    split; [left; reflexivity|]. split; [|split; [|split]].
    + unfold names_given in *. simpl.
      destruct H1 as [H1|Hwf]; [congruence|].
      pose proof T as Tf. apply take_action_frame in Tf.
      destruct Tf as (_ & _ & ->).
      apply take_action_leaf in T. destruct T as (v & -> & Hv).
      destruct (stores_into d (snd ia2)) eqn:Es.
      * unfold stores_into in Es.
        destruct (dest (snd ia2)) as [d'|] eqn:Ed; [|discriminate].
        apply String.eqb_eq in Es. subst d'.
        pose proof (every_action_into_spec _ _ _ Hinto
                      (actions_indexed_action _ _ (H3 _ P)) Ed) as Hc.
        unfold is_one_or_more in Hc.
        destruct (cls (snd ia2)) eqn:Ec; try discriminate.
        destruct (nargs (snd ia2)) eqn:En; try discriminate.
        destruct (option_strings (snd ia2)) eqn:Eo; [|discriminate].
        destruct Hv as [[_ Hv]|[Hv _]]; [|discriminate].
        apply get_values_one_or_more in Hv; [|assumption]. subst v.
        intros _. eexists. split; [|split; [|apply getattr_set_dest_same, Ed]].
        -- eapply one_or_more_nonempty; eassumption.
        -- intros x Hx. apply remove_first_In in Hx. apply Hsub.
           apply in_map_iff in Hx. destruct Hx as (y & <- & Hy).
           apply in_map. eapply In_firstn, Hy.
      * assert (Hne : dest (snd ia2) <> Some d).
        { unfold stores_into in Es. intros E.
          rewrite E, String.eqb_refl in Es. discriminate. }
        rewrite getattr_set_dest_other by assumption.
        intros [Hi|Hi]; [|auto].
        exfalso. apply Hne.
        assert (ia2 = ia) as ->
            by (eapply actions_indexed_unique; eauto).
        assumption.
    + intros x Hx. apply Hsub. apply in_map_iff in Hx.
      destruct Hx as (y & <- & Hy). apply in_map. eapply In_skipn, Hy.
    + simpl. discriminate.
    + intros s' ia' os' e' H. eapply H4, In_skipn, H.
  - intros st0 toks0 k (H1 & H2 & Hsub & H3 & H4) ->.
    split; [|split; [exact H2 | split; [|split; [exact H3|]]]].
    + destruct H1 as [H1|H1]; [left; exact H1 | right].
      apply well_formed_skip_to_option, H1.
    + intros x Hx. apply Hsub. apply in_map_iff in Hx.
      destruct Hx as (y & <- & Hy). apply in_map. eapply In_skipn, Hy.
    + intros s' ia' os' e' H. eapply H4, In_skipn, H.
  - intros st0 st' s0 [a0 os0 e0] fol stop (H1 & H2 & Hsub & H3 & H4) Cn.
    assert (Hsub' : forall x,
               In x (map fst (skipn stop
                                ((s0, PO (OptionTuple a0 os0 e0)) :: fol))) ->
               In x args).
    { intros x Hx. apply Hsub. apply in_map_iff in Hx.
      destruct Hx as (y & <- & Hy). apply in_map. eapply In_skipn, Hy. }
    destruct a0 as [ia0|].
    + apply consume_optional_inv in Cn.
      destruct Cn as (args0 & tuples & n & T & -> & Hshort & Hn).
      assert (Hopt : forall ia', ia' = ia0 \/ short_option p ia' ->
                                 In ia' (actions_indexed p)
                                 /\ is_positional (snd ia') = false).
      { intros ia' [->|Hs]; [eapply H4; left; reflexivity|].
        apply short_option_In in Hs. destruct Hs as [Hs (o & _ & Ho)].
        split; [assumption|]. unfold is_positional.
        destruct (option_strings (snd ia')); [destruct Ho | reflexivity]. }
      pose proof T as Hfr. apply take_actions_frame in Hfr.
      destruct Hfr as [Hfr _]. rewrite Hfr.
      split; [|split; [|split; [exact Hsub' | split; [exact H3|]]]].
      * destruct H1 as [H1|H1]; [left; exact H1 | right]. simpl in *.
        destruct Hn as [->|(ia' & Hia' & Mn)]; [exact H1|].
        apply well_formed_skipn_no_dash; [exact H1|].
        eapply match_nargs_optional_no_dash; [|eassumption].
        apply Hopt, Hia'.
      * eapply (@take_actions_state [] (names_given ia d args)
                  (fun ia' => In ia' (actions_indexed p)
                              /\ is_positional (snd ia') = false));
          [| |exact H2|exact T].
        -- intros st1 ia1 args1 st1' HF HJ T1.
           eapply optional_keeps_names_given; eassumption.
        -- intros ia' args' [[= <- <-]|Hin]; apply Hopt; [auto|].
           right. eapply Hshort, Hin.
      * intros s' ia' os' e' H. eapply H4, In_skipn, H.
    + simpl in Cn. injection Cn as <- <-.
      split; [|split; [exact H2 | split; [exact Hsub' | split; [exact H3|]]]].
      * simpl in *. destruct H1 as [H1|H1]; [left | right]; assumption.
      * intros s' ia' os' e' H. eapply H4, In_skipn, H.
  - split; [right; eapply classify_well_formed; eassumption|].
    split; [intros []|]. split; [|split].
    + intros x Hx. rewrite (classify_strings _ _ _ C) in Hx. exact Hx.
    + simpl. intros ia2 H. apply get_positional_actions_In in H. tauto.
    + intros s' ia' os' e' H. eapply classified_options; eassumption.
Qed.
End NamesGiven.

(** ** Invocations of an action *)

Lemma given_untouched (p : parser) (d : string) (ss : list setting)
      (v : value) :
  forallb (fun oa => negb (stores_into d (snd (snd oa))))
          (option_string_actions p) = true ->
  given p d ss v = v.
Proof.
  intros H. unfold given. revert v.
  induction ss as [|s ss IH]; intros v; [reflexivity|].
  cbn [fold_left].
  destruct (lookup (setting_option s) (option_string_actions p)) as [ia|] eqn:L;
    [|apply IH].
  apply lookup_In in L.
  rewrite forallb_forall in H. specialize (H _ L). cbn [snd] in H.
  apply negb_true_iff in H. rewrite H. apply IH.
Qed.

Lemma action_no_equals (a : str) (p : parser) :
  In (a, p) action_parsers -> no_equals p = true.
Proof.
  intros H. simpl in H.
  repeat (destruct H as [[= <- <-]|H]; [reflexivity|]). destruct H.
Qed.

Lemma action_reads_default (a : str) (p : parser) (f : dispatch) :
  In (a, p) action_parsers ->
  defaults p = func f ->
  forall k, In k (reads f) ->
            getattr (initial_namespace p) k
            = Some (field_of (initial_namespace p) k).
Proof.
  intros H Hf k Hk. simpl in H.
  repeat (destruct H as [[= <- <-]|H];
          [injection Hf as <-; simpl in Hk;
           repeat (destruct Hk as [<-|Hk]; [reflexivity|]); destruct Hk|]).
  destruct H.
Qed.

Section Invocation.
Variable ucd : unicode_data.
Variable a : str.
Variable p : parser.
Variable f : dispatch.
Hypothesis Hin : In (a, p) action_parsers.
Hypothesis Hf : defaults p = func f.
Hypothesis Hadd : f <> Fn_add_column.

(** What the parser of the action returns is what the dispatch function
    forwards. *)
Lemma invocation_forwarded (rest : list str) (sub : namespace)
      (field : string -> value) :
  parse_known_args ucd [] p rest = Ok (sub, []) ->
  (forall k, In k (reads f) -> getattr sub k = Some (field k)) ->
  exists ns,
    database_parse_args ucd (a :: rest) = Ok ns
    /\ call ucd f ns = Ok (forwarded_call f field).
Proof.
  intros Hk Hfield.
  pose proof (@database_parse_args_action ucd a p rest Hin) as E.
  rewrite Hk in E. cbn [bind] in E.
  eexists. split; [exact E|].
  apply dispatch_forwards; [exact Hadd|].
  intros k Hk'.
  destruct (@action_getattr ucd a p rest _ Hin E k) as (sub' & Hs & ->).
  - destruct (@action_parser_facts _ _ Hin)
      as (_ & _ & _ & _ & _ & _ & _ & _ & _ & _ & f' & Hf' & _ & Hr).
    assert (f' = f) as -> by (rewrite Hf in Hf'; injection Hf'; auto).
    rewrite forallb_forall in Hr. apply Hr, Hk'.
  - rewrite Hk in Hs. injection Hs as <-. apply Hfield, Hk'.
Qed.

(** Options only. *)
Lemma invocation_settings (ss : list setting) :
  get_positional_actions p = None ->
  forallb (accepts p) ss = true ->
  missing_required p (seen_actions (take_settings p (initial_state p) ss))
  = false ->
  exists ns,
    database_parse_args ucd (a :: settings_args ss) = Ok ns
    /\ call ucd f ns
       = Ok (forwarded_call f
               (fun k => given p k ss (field_of (initial_namespace p) k))).
Proof.
  intros Hpos Hacc Hmiss.
  eapply invocation_forwarded.
  - rewrite (@parse_settings ucd p (@action_no_equals _ _ Hin) ss Hacc).
    + rewrite Hmiss. reflexivity.
    + intros ia E. rewrite Hpos in E. discriminate.
  - intros k Hk. apply getattr_take_settings.
    apply (@action_reads_default _ _ _ Hin Hf _ Hk).
Qed.

(** Options, the words of the positional, options. *)
Lemma parse_settings_names (ia : iaction) (ss1 ss2 : list setting)
      (names : list str) :
  get_positional_actions p = Some ia ->
  forallb (accepts p) ss1 = true ->
  forallb (accepts p) ss2 = true ->
  takes_names (snd ia) names = true ->
  forallb plain names = true ->
  let st := take_settings p
              (take_names (take_settings p (initial_state p) ss1) ia names)
              ss2 in
  parse_known_args ucd [] p (settings_args ss1 ++ names ++ settings_args ss2)
  = if missing_required p (seen_actions st)
    then Raise (UsageError RequiredArguments)
    else Ok (st_namespace st, []).
Proof.
  intros Hpos H1 H2 Ht Hn st.
  destruct ss2 as [|s2 ss2].
  - cbn [settings_args flat_map]. rewrite app_nil_r.
    apply (@parse_settings_then_names ucd p (@action_no_equals _ _ Hin)
             ia ss1 names Hpos H1 Ht Hn).
  - pose proof (@parse_settings_names_settings ucd p
                  (@action_no_equals _ _ Hin) ia ss1 (s2 :: ss2) names []
                  Hpos H1 H2) as E.
    rewrite app_nil_r in E. apply E; [discriminate|assumption..|reflexivity].
Qed.

Lemma invocation_settings_names (ia : iaction) (d : string)
      (ss1 ss2 : list setting) (names : list str) :
  get_positional_actions p = Some ia ->
  dest (snd ia) = Some d ->
  forallb (fun oa => negb (stores_into d (snd (snd oa))))
          (option_string_actions p) = true ->
  forallb (accepts p) ss1 = true ->
  forallb (accepts p) ss2 = true ->
  takes_names (snd ia) names = true ->
  forallb plain names = true ->
  missing_required p
    (seen_actions
       (take_settings p
          (take_names (take_settings p (initial_state p) ss1) ia names) ss2))
  = false ->
  exists ns,
    database_parse_args ucd
      (a :: settings_args ss1 ++ names ++ settings_args ss2) = Ok ns
    /\ call ucd f ns
       = Ok (forwarded_call f
               (fun k => if String.eqb k d
                         then names_value (snd ia) names
                         else given p k (ss1 ++ ss2)
                                    (field_of (initial_namespace p) k))).
Proof.
  intros Hpos Hd Hun H1 H2 Ht Hn Hmiss.
  eapply invocation_forwarded.
  - rewrite (@parse_settings_names ia ss1 ss2 names Hpos H1 H2 Ht Hn).
    rewrite Hmiss. reflexivity.
  - intros k Hk.
    assert (Hs : stores_into k (snd ia) = String.eqb k d).
    { unfold stores_into. rewrite Hd. apply String.eqb_sym. }
    destruct (String.eqb k d) eqn:E.
    + apply String.eqb_eq in E. subst k.
      rewrite <- (@given_untouched p d ss2 (names_value (snd ia) names) Hun).
      apply getattr_take_settings.
      rewrite getattr_take_names, Hs. reflexivity.
    + rewrite given_app. apply getattr_take_settings.
      rewrite getattr_take_names, Hs.
      apply getattr_take_settings.
      apply (@action_reads_default _ _ _ Hin Hf _ Hk).
Qed.

(** Words in two runs, options between them: the second run is left
    over. *)
Lemma invocation_names_apart (ia : iaction) (ss1 ss2 : list setting)
      (names more : list str) :
  get_positional_actions p = Some ia ->
  forallb (accepts p) ss1 = true ->
  forallb (accepts p) ss2 = true ->
  ss2 <> [] ->
  takes_names (snd ia) names = true ->
  forallb plain names = true ->
  forallb plain more = true ->
  more <> [] ->
  missing_required p
    (seen_actions
       (take_settings p
          (take_names (take_settings p (initial_state p) ss1) ia names) ss2))
  = false ->
  database_parse_args ucd
    (a :: settings_args ss1 ++ names ++ settings_args ss2 ++ more)
  = Raise (UsageError UnrecognizedArguments).
Proof.
  intros Hpos H1 H2 Hne Ht Hn Hm Hmore Hmiss.
  rewrite (@database_parse_args_action ucd a p _ Hin).
  rewrite (@parse_settings_names_settings ucd p (@action_no_equals _ _ Hin)
             ia ss1 ss2 names more Hpos H1 H2 Hne Ht Hn Hm).
  rewrite Hmiss. cbn [bind].
  destruct more; [contradiction|reflexivity].
Qed.
End Invocation.

(** ** The actions with options and names *)

Lemma missing_required_true (p : parser) (seen : list nat) (ia : iaction) :
  In ia (actions_indexed p) ->
  required (snd ia) = true ->
  ~ In (fst ia) seen ->
  missing_required p seen = true.
Proof.
  intros Hin Hreq Hseen. unfold missing_required.
  apply existsb_exists. exists ia. split; [exact Hin|].
  rewrite Hreq, andb_true_r. apply negb_true_iff.
  destruct (existsb (Nat.eqb (fst ia)) seen) eqn:E; [|reflexivity].
  apply existsb_exists in E. destruct E as (x & Hx & E).
  apply Nat.eqb_eq in E. subst x. contradiction.
Qed.

(** The value given is the value of one of the settings. *)
Lemma given_of_setting (p : parser) (d : string) (ss : list setting)
      (v : value) :
  given p d ss v = v
  \/ exists s ia, In s ss
                  /\ lookup (setting_option s) (option_string_actions p)
                     = Some ia
                  /\ stores_into d (snd ia) = true
                  /\ given p d ss v = setting_value s.
Proof.
  induction ss as [|s ss IH] using rev_ind; [left; reflexivity|].
  unfold given in *. rewrite fold_left_app. cbn [fold_left].
  destruct (lookup (setting_option s) (option_string_actions p))
    as [ia|] eqn:L.
  - destruct (stores_into d (snd ia)) eqn:E.
    + right. exists s, ia. rewrite L, E.
      repeat split; auto. apply in_or_app. right. left. reflexivity.
    + destruct IH as [IH|(s' & ia' & Hs & L' & E' & IH)]; [left; exact IH|].
      right. exists s', ia'. repeat split; auto.
      apply in_or_app. left. exact Hs.
  - destruct IH as [IH|(s' & ia' & Hs & L' & E' & IH)]; [left; exact IH|].
    right. exists s', ia'. repeat split; auto.
    apply in_or_app. left. exact Hs.
Qed.

(** When some setting stores into [d], the value given is not the one
    there was. *)
Lemma given_of_some_setting (p : parser) (d : string) (ss : list setting)
      (v : value) (s0 : setting) (ia0 : iaction) :
  In s0 ss ->
  lookup (setting_option s0) (option_string_actions p) = Some ia0 ->
  stores_into d (snd ia0) = true ->
  exists s ia, In s ss
               /\ lookup (setting_option s) (option_string_actions p)
                  = Some ia
               /\ stores_into d (snd ia) = true
               /\ given p d ss v = setting_value s.
Proof.
  induction ss as [|s ss IH] using rev_ind; [intros []|].
  intros Hin L0 E0.
  unfold given in *. rewrite fold_left_app. cbn [fold_left].
  destruct (lookup (setting_option s) (option_string_actions p))
    as [ia|] eqn:L.
  - destruct (stores_into d (snd ia)) eqn:E.
    + exists s, ia. rewrite L, E.
      repeat split; auto. apply in_or_app. right. left. reflexivity.
    + apply in_app_or in Hin. destruct Hin as [Hin|[<-|[]]].
      * destruct (IH Hin L0 E0) as (s' & ia' & Hs & L' & E' & IH').
        exists s', ia'. repeat split; auto.
        apply in_or_app. left. exact Hs.
      * rewrite L in L0. injection L0 as <-. congruence.
  - apply in_app_or in Hin. destruct Hin as [Hin|[<-|[]]].
    + destruct (IH Hin L0 E0) as (s' & ia' & Hs & L' & E' & IH').
      exists s', ia'. repeat split; auto.
      apply in_or_app. left. exact Hs.
    + congruence.
Qed.

Lemma sets_In (o : string) (ss : list setting) :
  sets o ss = true -> exists s, In s ss /\ setting_option s = py o.
Proof.
  unfold sets. intros H. apply existsb_exists in H.
  destruct H as (s & Hs & E). exists s. split; [exact Hs|].
  apply str_eqb_eq, E.
Qed.

Lemma seen_take_settings_from (p : parser) (ss : list setting) :
  forall st i,
    In i (seen_actions (take_settings p st ss)) ->
    In i (seen_actions st)
    \/ exists s ia, In s ss
                    /\ lookup (setting_option s) (option_string_actions p)
                       = Some ia
                    /\ fst ia = i.
Proof.
  induction ss as [|s ss IH]; intros st i; simpl; [auto|].
  intros H. apply IH in H.
  destruct H as [H|(s' & ia & Hs & L & E)]; [|right; eauto 10].
  unfold take_setting in H.
  destruct (lookup (setting_option s) (option_string_actions p))
    as [ia|] eqn:L; [|auto].
  destruct H as [H|H]; [right; eauto 10 | auto].
Qed.

(** *** [rebuild-daily] *)

Lemma rebuild_daily_settings (ucd : unicode_data) (ss : list setting) :
  forallb (accepts database_rebuild_parser) ss = true ->
  exists ns,
    database_parse_args ucd (py "rebuild-daily" :: settings_args ss) = Ok ns
    /\ rebuild_daily ns
       = Ok (Call_rebuild_daily
               (given database_rebuild_parser "config" ss VNone)
               (given database_rebuild_parser "binding" ss
                      (VStr (py "wx_binding")))
               (given database_rebuild_parser "date" ss VNone)
               (given database_rebuild_parser "from_date" ss VNone)
               (given database_rebuild_parser "to_date" ss VNone)
               (given database_rebuild_parser "dry_run" ss (VBool false))).
Proof.
  intros Hacc.
  apply (@invocation_settings ucd (py "rebuild-daily")
           database_rebuild_parser Fn_rebuild_daily);
    [simpl; auto 10 | reflexivity | discriminate | reflexivity | exact Hacc|].
  apply missing_required_false. intros ia Hin Hreq. exfalso.
  cbv in Hin.
  repeat (destruct Hin as [<-|Hin]; [discriminate Hreq|]). destruct Hin.
Qed.

(** *** [rename-column] *)

Lemma rename_column_option (o : str) (ia : iaction) :
  lookup o (option_string_actions rename_column_parser) = Some ia ->
  (stores_into "new_name" (snd ia) = true \/ fst ia = 2) ->
  o = py "--to-name".
Proof.
  intros L H. apply lookup_In in L. cbv in L.
  repeat (destruct L as [[= <- <-]|L];
          [first [reflexivity | exfalso; destruct H as [H|H]; discriminate H]|]).
  destruct L.
Qed.

Lemma rename_column_seen (ss1 ss2 : list setting) (old : str) :
  missing_required rename_column_parser
    (seen_actions
       (take_settings rename_column_parser
          (take_names
             (take_settings rename_column_parser
                (initial_state rename_column_parser) ss1)
             (1, positional "column_name" NargsNone) [old]) ss2))
  = negb (sets "--to-name" (ss1 ++ ss2)).
Proof.
  destruct (sets "--to-name" (ss1 ++ ss2)) eqn:E; cbn [negb].
  - apply missing_required_false. intros ia Hin Hreq.
    cbv in Hin.
    repeat (destruct Hin as [<-|Hin]; [try discriminate Hreq|]);
      [| |destruct Hin].
    + apply seen_take_settings. left. reflexivity.
    + unfold sets in E. rewrite existsb_app in E.
      apply orb_true_iff in E. destruct E as [E|E].
      * apply seen_take_settings. right.
        apply (@seen_take_settings_sets rename_column_parser "--to-name"
                 (2, _) ss1 eq_refl E).
      * apply (@seen_take_settings_sets rename_column_parser "--to-name"
                 (2, _) ss2 eq_refl E).
  - apply (@missing_required_true rename_column_parser _
             (2, nth 2 (actions rename_column_parser)
                     (positional "" NargsNone)));
      [cbv; auto 10 | reflexivity|].
    cbn [fst]. intros H.
    assert (Hno : forall ss st,
               In 2 (seen_actions (take_settings rename_column_parser st ss)) ->
               sets "--to-name" ss = false ->
               In 2 (seen_actions st)).
    { intros ss st Hs Hn.
      apply seen_take_settings_from in Hs.
      destruct Hs as [Hs|(s & ia & Hs & L & E2)]; [exact Hs|].
      exfalso. apply rename_column_option in L; [|right; exact E2].
      unfold sets in Hn.
      assert (existsb (fun s => str_eqb (setting_option s) (py "--to-name")) ss
              = true); [|congruence].
      apply existsb_exists. exists s. split; [exact Hs|].
      apply str_eqb_eq, L. }
    unfold sets in E. rewrite existsb_app in E.
    apply orb_false_iff in E. destruct E as [E1 E2].
    apply Hno in H; [|exact E2].
    destruct H as [H|H]; [discriminate H|].
    apply Hno in H; [|exact E1]. destruct H.
Qed.

Lemma rename_column_settings (ucd : unicode_data) (ss1 ss2 : list setting)
      (old : str) :
  forallb (accepts rename_column_parser) ss1 = true ->
  forallb (accepts rename_column_parser) ss2 = true ->
  plain old = true ->
  if sets "--to-name" (ss1 ++ ss2)
  then exists ns,
      database_parse_args ucd
        (py "rename-column" :: settings_args ss1 ++ old :: settings_args ss2)
      = Ok ns
      /\ rename_column ns
         = Ok (Call_rename_column
                 (given rename_column_parser "config" (ss1 ++ ss2) VNone)
                 (given rename_column_parser "binding" (ss1 ++ ss2)
                        (VStr (py "wx_binding")))
                 (VStr old)
                 (given rename_column_parser "new_name" (ss1 ++ ss2) VNone)
                 (given rename_column_parser "dry_run" (ss1 ++ ss2)
                        (VBool false)))
  else database_parse_args ucd
         (py "rename-column" :: settings_args ss1 ++ old :: settings_args ss2)
       = Raise (UsageError RequiredArguments).
Proof.
  intros H1 H2 Ho.
  assert (Hin : In (py "rename-column", rename_column_parser) action_parsers)
    by (simpl; auto 10).
  assert (Hp : forallb plain [old] = true)
    by (cbn [forallb]; rewrite Ho; reflexivity).
  pose proof (rename_column_seen ss1 ss2 old) as Hseen.
  destruct (sets "--to-name" (ss1 ++ ss2)) eqn:E; cbn [negb] in Hseen.
  - apply (@invocation_settings_names ucd (py "rename-column")
             rename_column_parser Fn_rename_column Hin eq_refl
             ltac:(discriminate)
             (1, positional "column_name" NargsNone) "column_name"
             ss1 ss2 [old] eq_refl eq_refl eq_refl H1 H2 eq_refl Hp Hseen).
  - rewrite (@database_parse_args_action ucd (py "rename-column")
               rename_column_parser _ Hin).
    change (old :: settings_args ss2) with ([old] ++ settings_args ss2).
    rewrite (@parse_settings_names ucd (py "rename-column")
               rename_column_parser Hin
               (1, positional "column_name" NargsNone) ss1 ss2 [old]
               eq_refl H1 H2 eq_refl Hp).
    rewrite Hseen. reflexivity.
Qed.

(** The new name forwarded is the value of a [--to-name] of the
    invocation. *)
Lemma rename_column_new_name (ss : list setting) :
  forallb (accepts rename_column_parser) ss = true ->
  sets "--to-name" ss = true ->
  exists v,
    given rename_column_parser "new_name" ss VNone = VStr v
    /\ (In (Assigned (py "--to-name") v) ss
        \/ In (Followed (py "--to-name") v) ss).
Proof.
  intros Hacc Hsets.
  apply sets_In in Hsets. destruct Hsets as (s0 & Hs0 & Ho).
  destruct (@given_of_some_setting rename_column_parser "new_name" ss VNone
              s0 (2, nth 2 (actions rename_column_parser)
                         (positional "" NargsNone)) Hs0)
    as (s & ia & Hs & L & E & Hg); [rewrite Ho; reflexivity | reflexivity|].
  pose proof (@rename_column_option _ _ L (or_introl E)) as Ho'.
  rewrite forallb_forall in Hacc. specialize (Hacc _ Hs).
  unfold accepts in Hacc. rewrite L in Hacc.
  rewrite Ho' in L. cbv in L. injection L as <-.
  rewrite Hg.
  destruct s as [o v|o v|o]; cbn [setting_option] in Ho'; subst o.
  - exists v. split; [reflexivity|]. left. exact Hs.
  - exists v. split; [reflexivity|]. right. exact Hs.
  - exfalso. cbv in Hacc. discriminate Hacc.
Qed.

(** Whatever [rename-column] parses, the column to rename is an argument
    string of the invocation. *)
Lemma rename_column_argument (ucd : unicode_data) (rest : list str)
      (ns : namespace) :
  database_parse_args ucd (py "rename-column" :: rest) = Ok ns ->
  exists s,
    In s rest
    /\ rename_column ns
       = Ok (Call_rename_column (field_of ns "config")
               (field_of ns "binding") (VStr s) (field_of ns "new_name")
               (field_of ns "dry_run")).
Proof.
  intros Hparse.
  assert (Hin : In (py "rename-column", rename_column_parser) action_parsers)
    by (simpl; auto 10).
  destruct (@action_getattr ucd _ _ rest ns Hin Hparse "column_name" eq_refl)
    as (subns & Hsub & Hns).
  destruct (@leaf_argument ucd rename_column_parser "column_name"
              (1, positional "column_name" NargsNone) rest eq_refl
              ltac:(simpl; auto) eq_refl subns [] eq_refl Hsub)
    as (s & Hs & Hcol).
  rewrite <- Hns in Hcol.
  exists s. split; [exact Hs|].
  pose proof (@parsed_fields ucd _ _ Fn_rename_column rest ns Hin eq_refl
                Hparse) as Hf.
  pose proof (@dispatch_forwards ucd Fn_rename_column ns (field_of ns))
    as Hcall.
  simpl in Hcall. rewrite Hcall; [|discriminate|exact Hf].
  unfold field_of at 3. rewrite Hcol. reflexivity.
Qed.

(** *** [drop-columns] *)

Lemma drop_columns_given (ucd : unicode_data) (rest : list str)
      (ns : namespace) :
  database_parse_args ucd (py "drop-columns" :: rest) = Ok ns ->
  exists l,
    l <> []
    /\ (forall x, In x l -> In x rest)
    /\ getattr ns "column_names" = Some (VList l)
    /\ drop_columns ns
       = Ok (Call_drop_columns (field_of ns "config") (field_of ns "binding")
               (VList l) (field_of ns "dry_run")).
Proof.
  intros Hparse.
  assert (Hin : In (py "drop-columns", drop_columns_parser) action_parsers)
    by (simpl; auto 10).
  destruct (@action_getattr ucd _ _ rest ns Hin Hparse "column_names" eq_refl)
    as (subns & Hsub & Hns).
  destruct (@leaf_names_given ucd drop_columns_parser "column_names"
              (1, positional "column_names" ONE_OR_MORE) rest eq_refl
              ltac:(simpl; auto) eq_refl subns [] eq_refl Hsub)
    as (l & Hne & Hl & Hcol).
  rewrite <- Hns in Hcol.
  exists l. split; [exact Hne|]. split; [exact Hl|]. split; [exact Hcol|].
  pose proof (@parsed_fields ucd _ _ Fn_drop_columns rest ns Hin eq_refl
                Hparse) as Hf.
  pose proof (@dispatch_forwards ucd Fn_drop_columns ns (field_of ns))
    as Hcall.
  simpl in Hcall. rewrite Hcall; [|discriminate|exact Hf].
  unfold field_of at 3. rewrite Hcol. reflexivity.
Qed.

Lemma drop_columns_seen (ss1 ss2 : list setting) (names : list str) :
  missing_required drop_columns_parser
    (seen_actions
       (take_settings drop_columns_parser
          (take_names
             (take_settings drop_columns_parser
                (initial_state drop_columns_parser) ss1)
             (1, positional "column_names" ONE_OR_MORE) names) ss2))
  = false.
Proof.
  apply missing_required_false. intros ia Hin Hreq.
  cbv in Hin.
  repeat (destruct Hin as [<-|Hin]; [try discriminate Hreq|]);
    [|destruct Hin].
  apply seen_take_settings. left. reflexivity.
Qed.

Lemma takes_one_or_more (names : list str) :
  names <> [] ->
  takes_names (positional "column_names" ONE_OR_MORE) names = true.
Proof. destruct names; [contradiction | reflexivity]. Qed.

(** Options, names, options: the names are forwarded as they stand. *)
Lemma drop_columns_settings (ucd : unicode_data) (ss1 ss2 : list setting)
      (names : list str) :
  forallb (accepts drop_columns_parser) ss1 = true ->
  forallb (accepts drop_columns_parser) ss2 = true ->
  names <> [] ->
  forallb plain names = true ->
  exists ns,
    database_parse_args ucd
      (py "drop-columns" :: settings_args ss1 ++ names ++ settings_args ss2)
    = Ok ns
    /\ drop_columns ns
       = Ok (Call_drop_columns
               (given drop_columns_parser "config" (ss1 ++ ss2) VNone)
               (given drop_columns_parser "binding" (ss1 ++ ss2)
                      (VStr (py "wx_binding")))
               (VList names)
               (given drop_columns_parser "dry_run" (ss1 ++ ss2)
                      (VBool false))).
Proof.
  intros H1 H2 Hne Hp.
  apply (@invocation_settings_names ucd (py "drop-columns")
           drop_columns_parser Fn_drop_columns
           ltac:(simpl; auto 10) eq_refl ltac:(discriminate)
           (1, positional "column_names" ONE_OR_MORE) "column_names"
           ss1 ss2 names eq_refl eq_refl eq_refl H1 H2
           (takes_one_or_more Hne) Hp (drop_columns_seen ss1 ss2 names)).
Qed.

(** Options only: the names are missing. *)
Lemma drop_columns_no_name (ucd : unicode_data) (ss : list setting) :
  forallb (accepts drop_columns_parser) ss = true ->
  database_parse_args ucd (py "drop-columns" :: settings_args ss)
  = Raise (UsageError RequiredArguments).
Proof.
  intros Hacc.
  rewrite (@database_parse_args_action ucd (py "drop-columns")
             drop_columns_parser) by (simpl; auto 10).
  rewrite (@parse_settings ucd drop_columns_parser eq_refl ss Hacc)
    by (intros ia [= <-]; discriminate).
  rewrite (@missing_required_true drop_columns_parser _
             (1, positional "column_names" ONE_OR_MORE));
    [reflexivity | right; left; reflexivity | reflexivity|].
  cbn [fst]. intros H. apply seen_take_settings_from in H.
  destruct H as [[]|(s & ia & _ & L & E)].
  apply lookup_In in L. cbv in L.
  repeat (destruct L as [[= _ <-]|L]; [discriminate E|]). destruct L.
Qed.

(** Names, options, names again: the second names are not recognized. *)
Lemma drop_columns_names_apart (ucd : unicode_data)
      (ss1 ss2 : list setting) (names more : list str) :
  forallb (accepts drop_columns_parser) ss1 = true ->
  forallb (accepts drop_columns_parser) ss2 = true ->
  ss2 <> [] ->
  names <> [] -> forallb plain names = true ->
  more <> [] -> forallb plain more = true ->
  database_parse_args ucd
    (py "drop-columns"
        :: settings_args ss1 ++ names ++ settings_args ss2 ++ more)
  = Raise (UsageError UnrecognizedArguments).
Proof.
  intros H1 H2 Hs Hn Hp Hm Hpm.
  apply (@invocation_names_apart ucd (py "drop-columns")
           drop_columns_parser ltac:(simpl; auto 10)
           (1, positional "column_names" ONE_OR_MORE)
           ss1 ss2 names more eq_refl H1 H2 Hs (takes_one_or_more Hn)
           Hp Hpm Hm (drop_columns_seen ss1 ss2 names)).
Qed.

(** *** [add-column] *)

Lemma add_column_type_dashes (ucd : unicode_data) (name : str) :
  plain name = true ->
  exists ns,
    database_parse_args ucd [py "add-column"; name; py "--type=--"] = Ok ns
    /\ getattr ns "column_type" = Some (VList [])
    /\ add_column ucd ns = Raise AttributeError.
Proof.
  intros Hn.
  rewrite (@database_parse_args_action ucd (py "add-column")
             add_column_parser) by (simpl; auto 10).
  unfold parse_known_args.
  rewrite (@classify_cons ucd add_column_parser name _ None
             [(py "--type=--",
               PO (OptionTuple
                     (Some (2, store "--type" "column_type" (VStr (py "REAL"))
                                     (Some column_type_choices) false))
                     (py "--type") (Some (py "--"))))]);
    [ | apply plain_not_dashes, Hn | apply parse_optional_plain, Hn
      | reflexivity ].
  cbn [bind]. unfold consume_all. cbn.
  (erewrite take_action_store;
   [ | reflexivity
     | rewrite get_values_one by (auto using plain_not_dashes);
       reflexivity ]).
  cbn. eexists. split; [reflexivity|]. repeat split.
Qed.

(** [add-column NAME --type TYPE] with a type that starts with a dash
    ends in a usage error: argparse takes the string for an option and
    [--type] is left without its argument, or for an argument that is no
    choice, or cannot tell which option it abbreviates. *)
Lemma add_column_type_dash_error (ucd : unicode_data) (name v : str) :
  plain name = true ->
  plain v = false ->
  exists e,
    database_parse_args ucd [py "add-column"; name; py "--type"; v]
    = Raise (UsageError e)
    /\ (e = ExpectedOneArgument \/ e = InvalidChoice
        \/ e = AmbiguousOption).
Proof.
  intros Hn Hv.
  rewrite (@database_parse_args_action ucd (py "add-column")
             add_column_parser) by (simpl; auto 10).
  unfold parse_known_args.
  assert (Hchoice : str_in v column_type_choices = false)
    by (apply dash_not_a_choice, Hv).
  assert (Hcl : (exists pat,
                    classify ucd add_column_parser [v] = Ok [(v, pat)])
                \/ classify ucd add_column_parser [v]
                   = Raise (UsageError AmbiguousOption)).
  { cbn [classify]. destruct (str_eqb v (py "--")); [left; exists PDash; auto|].
    destruct (parse_optional ucd add_column_parser v) as [[t|]|e] eqn:P;
      cbn [bind].
    - left. exists (PO t). auto.
    - left. exists PA. auto.
    - right. apply parse_optional_ambiguous in P. subst e. reflexivity. }
  destruct Hcl as [(pat & Hcl)|Hcl].
  - rewrite (@classify_cons ucd add_column_parser name _ None
               [(py "--type",
                 PO (OptionTuple
                       (Some (2, store "--type" "column_type"
                                       (VStr (py "REAL"))
                                       (Some column_type_choices) false))
                       (py "--type") None));
                (v, pat)]);
      [ | apply plain_not_dashes, Hn | apply parse_optional_plain, Hn
        | rewrite (@classify_cons ucd add_column_parser (py "--type") [v]
                    (Some (OptionTuple
                        (Some (2, store "--type" "column_type"
                                        (VStr (py "REAL"))
                                        (Some column_type_choices) false))
                        (py "--type") None))
                    [(v, pat)]);
          [reflexivity | reflexivity | reflexivity | exact Hcl] ].
    cbn [bind]. unfold consume_all.
    destruct pat; cbn;
      (erewrite take_action_store;
       [ | reflexivity
         | rewrite get_values_one by (auto using plain_not_dashes);
           reflexivity ]);
      cbn; try (eexists; split; [reflexivity|auto]).
    unfold take_action. cbn [snd].
    destruct (str_eqb v (py "--")) eqn:Ed.
    + apply str_eqb_eq in Ed. subst v. cbn in Hcl. discriminate Hcl.
    + rewrite get_values_one by auto.
      unfold check_value. cbn [choices store].
      rewrite Hchoice. eexists; split; [reflexivity|auto].
  - rewrite (@classify_cons_raise ucd add_column_parser name _ None
               (UsageError AmbiguousOption));
      [ eexists; split; [reflexivity|auto] | apply plain_not_dashes, Hn
        | apply parse_optional_plain, Hn | ].
    eapply classify_cons_raise; [reflexivity | reflexivity | exact Hcl].
Qed.

(** * The specification of the command group *)

(** C1.  [add_column] upper-cases the column type of the namespace and
    then turns [INT] into [INTEGER]; every other field goes to the
    collaborator as it is.  So [integer] in any letter case is forwarded as
    [INTEGER], [real] in any letter case as [REAL], and [int] in any letter
    case as [INTEGER], never as [INT]. *)
Theorem C1_column_type_normalized (ucd : unicode_data) (ns : namespace)
        (config binding column_name dry_run : value) (s : str) :
  getattr ns "config" = Some config ->
  getattr ns "binding" = Some binding ->
  getattr ns "column_name" = Some column_name ->
  getattr ns "column_type" = Some (VStr s) ->
  getattr ns "dry_run" = Some dry_run ->
  let forwards t :=
    add_column ucd ns
    = Ok (Call_add_column config binding column_name (VStr t) dry_run) in
  forwards (if str_eqb (upper ucd s) (py "INT") then py "INTEGER"
            else upper ucd s)
  /\ (eq_ignoring_case s (py "integer") = true -> forwards (py "INTEGER"))
  /\ (eq_ignoring_case s (py "real") = true -> forwards (py "REAL"))
  /\ (eq_ignoring_case s (py "int") = true -> forwards (py "INTEGER")).
Proof.
  intros Hc Hb Hn Ht Hd forwards.
  assert (H : forwards (if str_eqb (upper ucd s) (py "INT") then py "INTEGER"
                        else upper ucd s)).
  { unfold forwards, add_column, attr.
    rewrite Ht. cbn [bind upper_method]. 
    rewrite Hc, Hb, Hn, Hd. cbn [bind].
    destruct (str_eqb (upper ucd s) (py "INT")); reflexivity. }
  split; [exact H|].
  repeat split; intros E;
    apply (upper_ignoring_case ucd) in E; try reflexivity;
    unfold forwards in *; rewrite E in H; exact H.
Qed.

(** C2.  The dispatch function of every action but [add-column] makes the
    collaborator call of the table: each parameter is the namespace
    attribute of the table, unchanged, and nothing but the attributes the
    function reads enters the call.  [create_database] and [drop_daily]
    forward (config, binding, dry_run), [rebuild_daily] (config, binding,
    date, from_date, to_date, dry_run), [rename_column] (config, binding,
    column_name, new_name, dry_run) and [drop_columns] (config, binding,
    column_names, dry_run). *)
Theorem C2_namespace_forwarded (ucd : unicode_data) (f : dispatch)
        (ns : namespace) (field : string -> value) :
  f <> Fn_add_column ->
  (forall k, In k (reads f) -> getattr ns k = Some (field k)) ->
  call ucd f ns = Ok (forwarded_call f field)
  /\ (forall ns', (forall k, In k (reads f) -> getattr ns' k = getattr ns k) ->
                  call ucd f ns' = call ucd f ns).
Proof.
  intros Hf H. split.
  - apply dispatch_forwards; assumption.
  - intros ns' H'.
    rewrite (@dispatch_forwards ucd f ns field Hf H).
    apply dispatch_forwards; [assumption|].
    intros k Hk. rewrite (H' k Hk). apply H, Hk.
Qed.

(** C3, as the code has it.  The parser of [rebuild-daily] declares
    [--date], [--from] and [--to] as three independent options, in no
    exclusive group.  Give [rebuild-daily] any options that its parser
    accepts, in any order and any number of times, each written in full
    as [--option=VALUE] ([VALUE] any string but [--]), as
    [--option VALUE] ([VALUE] not starting with a dash) or as the flag
    [--dry-run]: the invocation parses, and [rebuild_daily] forwards as
    [date], [from_date] and [to_date] the value of the last [--date],
    [--from] and [--to], and [None] where there is none, so a date and an
    interval go to the collaborator together when both are given.  And
    whatever [rebuild-daily] parses, [rebuild_daily] forwards the six
    attributes of the namespace as they are. *)
Theorem C3_dates_forwarded_as_given (ucd : unicode_data) :
  (forall ss,
      forallb (accepts database_rebuild_parser) ss = true ->
      exists ns,
        database_parse_args ucd (py "rebuild-daily" :: settings_args ss)
        = Ok ns
        /\ rebuild_daily ns
           = Ok (Call_rebuild_daily
                   (given database_rebuild_parser "config" ss VNone)
                   (given database_rebuild_parser "binding" ss
                          (VStr (py "wx_binding")))
                   (given database_rebuild_parser "date" ss VNone)
                   (given database_rebuild_parser "from_date" ss VNone)
                   (given database_rebuild_parser "to_date" ss VNone)
                   (given database_rebuild_parser "dry_run" ss
                          (VBool false))))
  /\ (forall rest ns,
         database_parse_args ucd (py "rebuild-daily" :: rest) = Ok ns ->
         rebuild_daily ns
         = Ok (Call_rebuild_daily (field_of ns "config")
                 (field_of ns "binding") (field_of ns "date")
                 (field_of ns "from_date") (field_of ns "to_date")
                 (field_of ns "dry_run"))).
Proof.
  split.
  - intros ss Hacc. apply rebuild_daily_settings, Hacc.
  - intros rest ns H.
    apply (@dispatch_forwards ucd Fn_rebuild_daily ns (field_of ns));
      [discriminate|].
    apply (@parsed_fields ucd (py "rebuild-daily") database_rebuild_parser
             Fn_rebuild_daily rest ns); [simpl; auto 10 | reflexivity | exact H].
Qed.


(** C5, as the code has it.  A successful parse of the command group
    selects at most one action: either the invocation has no argument
    string, the attribute [action] is [None] and no dispatch function is
    bound, or it starts with the name of one of the six actions, [action]
    is that name and [func] is the one function that [set_defaults] binds
    in the parser of that action. *)
Theorem C5_at_most_one_action (ucd : unicode_data) (args : list str)
        (ns : namespace) :
  database_parse_args ucd args = Ok ns ->
  (args = []
   /\ getattr ns "action" = Some VNone
   /\ getattr ns "func" = None)
  \/ (exists a p f rest,
         args = a :: rest
         /\ In (a, p) action_parsers
         /\ defaults p = func f
         /\ getattr ns "action" = Some (VStr a)
         /\ getattr ns "func" = Some (VFunc f)).
Proof.
  intros H. pose proof H as Hinv. apply database_parse_args_inv in Hinv.
  destruct Hinv as [[-> ->]|(a & p & rest & subns & -> & Hin & _ & _)].
  - left. repeat split; reflexivity.
  - right.
    destruct (@action_and_func ucd a p rest ns Hin H) as (Ha & f & Hd & Hf).
    exists a, p, f, rest. repeat split; assumption.
Qed.



(** C8, as the code has it.  [drop-columns] takes one or more column
    names.  Whatever it parses has in [column_names] a list that is not
    empty and is made of argument strings of the invocation, which
    [drop_columns] forwards as it is.  Give [drop-columns] options that
    its parser accepts, each written in full as [--option=VALUE] ([VALUE]
    any string but [--]), as [--option VALUE] ([VALUE] not starting with a
    dash) or as the flag [--dry-run]: with no name the parse fails with
    the error for a missing required argument; with names that do not
    start with a dash in one run, options before and after them, the
    invocation parses and [drop_columns] forwards exactly these names, in
    their order; with names in two runs and an option between them, the
    second run is refused as unrecognized arguments. *)
Theorem C8_column_names_nonempty (ucd : unicode_data) :
  (forall rest ns,
      database_parse_args ucd (py "drop-columns" :: rest) = Ok ns ->
      exists l,
        l <> []
        /\ (forall x, In x l -> In x rest)
        /\ getattr ns "column_names" = Some (VList l)
        /\ drop_columns ns
           = Ok (Call_drop_columns (field_of ns "config")
                   (field_of ns "binding") (VList l)
                   (field_of ns "dry_run")))
  /\ (forall ss,
         forallb (accepts drop_columns_parser) ss = true ->
         database_parse_args ucd (py "drop-columns" :: settings_args ss)
         = Raise (UsageError RequiredArguments))
  /\ (forall ss1 ss2 names,
         forallb (accepts drop_columns_parser) ss1 = true ->
         forallb (accepts drop_columns_parser) ss2 = true ->
         names <> [] -> forallb plain names = true ->
         exists ns,
           database_parse_args ucd
             (py "drop-columns"
                 :: settings_args ss1 ++ names ++ settings_args ss2) = Ok ns
           /\ drop_columns ns
              = Ok (Call_drop_columns
                      (given drop_columns_parser "config" (ss1 ++ ss2) VNone)
                      (given drop_columns_parser "binding" (ss1 ++ ss2)
                             (VStr (py "wx_binding")))
                      (VList names)
                      (given drop_columns_parser "dry_run" (ss1 ++ ss2)
                             (VBool false))))
  /\ (forall ss1 ss2 names more,
         forallb (accepts drop_columns_parser) ss1 = true ->
         forallb (accepts drop_columns_parser) ss2 = true ->
         ss2 <> [] ->
         names <> [] -> forallb plain names = true ->
         more <> [] -> forallb plain more = true ->
         database_parse_args ucd
           (py "drop-columns"
               :: settings_args ss1 ++ names ++ settings_args ss2 ++ more)
         = Raise (UsageError UnrecognizedArguments)).
Proof.
  split; [|split; [|split]].
  - intros rest ns. apply drop_columns_given.
  - intros ss. apply drop_columns_no_name.
  - intros ss1 ss2 names. apply drop_columns_settings.
  - intros ss1 ss2 names more. apply drop_columns_names_apart.
Qed.

(** C9.  For each of the six actions the attribute [dry_run] of the
    parsed namespace is a boolean: [False] when no argument string spells
    [--dry-run], [True] when [--dry-run] is among the argument strings
    before any [--]; the dispatch function passes that boolean as
    [dry_run].  The one invocation where no call is made is an
    [add-column] whose column type argparse left as a list. *)
Theorem C9_dry_run_boolean (ucd : unicode_data) (a : str) (p : parser)
        (f : dispatch) (rest : list str) (ns : namespace) :
  In (a, p) action_parsers ->
  defaults p = func f ->
  database_parse_args ucd (a :: rest) = Ok ns ->
  exists b,
    getattr ns "dry_run" = Some (VBool b)
    /\ (mentions "--dry-run" rest = false -> b = false)
    /\ (In (py "--dry-run") (options_zone rest) -> b = true)
    /\ ((exists c, call ucd f ns = Ok c /\ call_dry_run c = VBool b)
        \/ (f = Fn_add_column
            /\ (exists l, getattr ns "column_type" = Some (VList l))
            /\ call ucd f ns = Raise AttributeError)).
Proof.
  intros Hin Hdef Hparse.
  destruct (@action_dry_run ucd a p rest ns Hin Hparse) as (b & Hd & H0 & H1).
  exists b. repeat (split; [assumption|]).
  pose proof Hin as Hfacts. apply action_parser_facts in Hfacts.
  destruct Hfacts as (_ & _ & _ & _ & _ & _ & Hib & _).
  assert (Hb : hasattr ns "binding" = true).
  { eapply action_hasattr; [eassumption | eassumption |].
    unfold hasattr. rewrite Hib. reflexivity. }
  unfold hasattr in Hb. destruct (getattr ns "binding") as [v|] eqn:Hv;
    [|discriminate].
  destruct (@action_call ucd a p f rest ns _ _ Hin Hdef Hparse Hv Hd)
    as [(c & Hc & _ & Hcd)|H]; [left; eauto | right; exact H].
Qed.


(** * Instances *)

(** [add_column] on the namespace of [add-column inTemp2 --type int]. *)
Lemma C1_int_forwarded_as_INTEGER :
  add_column ascii_only (add_column_namespace (py "inTemp2") (py "int"))
  = Ok (Call_add_column VNone (VStr (py "wx_binding")) (VStr (py "inTemp2"))
          (VStr (py "INTEGER")) (VBool false)).
Proof.
  refine (proj2 (proj2 (proj2
    (@C1_column_type_normalized ascii_only
       (add_column_namespace (py "inTemp2") (py "int"))
       VNone (VStr (py "wx_binding")) (VStr (py "inTemp2")) (VBool false)
       (py "int") _ _ _ _ _))) _); reflexivity.
Defined.

(** [rename_column] on the namespace of
    [rename-column a --to-name b --dry-run]. *)
Lemma C2_rename_column_forwarded :
  call ascii_only Fn_rename_column
       [("action", VStr (py "rename-column"));
        ("column_name", VStr (py "a"));
        ("new_name", VStr (py "b"));
        ("config", VNone);
        ("binding", VStr (py "wx_binding"));
        ("dry_run", VBool true);
        ("func", VFunc Fn_rename_column)]%string
  = Ok (Call_rename_column VNone (VStr (py "wx_binding")) (VStr (py "a"))
          (VStr (py "b")) (VBool true)).
Proof.
  match goal with
  | |- call _ _ ?ns = _ =>
      refine (proj1 (@C2_namespace_forwarded ascii_only Fn_rename_column
                       ns (field_of ns) _ _))
  end.
  - discriminate.
  - intros k Hk. simpl in Hk.
    repeat (destruct Hk as [<-|Hk]; [reflexivity|]). destruct Hk.
Defined.

(** [rebuild-daily --date=2023-01-01 --from 2023-01-02 --dry-run]: both
    values are forwarded. *)
Lemma C3_date_and_from_together :
  exists ns,
    database_parse_args ascii_only
      (map py ["rebuild-daily"; "--date=2023-01-01"; "--from"; "2023-01-02";
               "--dry-run"]%string)
    = Ok ns
    /\ rebuild_daily ns
       = Ok (Call_rebuild_daily VNone (VStr (py "wx_binding"))
               (VStr (py "2023-01-01")) (VStr (py "2023-01-02")) VNone
               (VBool true)).
Proof.
  exact (proj1 (C3_dates_forwarded_as_given ascii_only)
           [Assigned (py "--date") (py "2023-01-01");
            Followed (py "--from") (py "2023-01-02");
            Switched (py "--dry-run")] eq_refl).
Defined.

(** [rebuild-daily --date 2023-01-01 --from 2023-01-02] parses, and
    [rebuild_daily] calls the collaborator with a date and a start of an
    interval at once. *)
Lemma C3_date_with_interval_accepted :
  exists ns,
    database_parse_args ascii_only
      (map py ["rebuild-daily"; "--date"; "2023-01-01";
               "--from"; "2023-01-02"]%string)
    = Ok ns
    /\ getattr ns "date" = Some (VStr (py "2023-01-01"))
    /\ getattr ns "from_date" = Some (VStr (py "2023-01-02"))
    /\ rebuild_daily ns
       = Ok (Call_rebuild_daily VNone (VStr (py "wx_binding"))
               (VStr (py "2023-01-01")) (VStr (py "2023-01-02")) VNone
               (VBool false)).
Proof. eexists. repeat split; vm_compute; reflexivity. Qed.



(** The command group with no action parses: the namespace has
    [action = None] and no dispatch function. *)
Lemma C5_no_action_parses :
  database_parse_args ascii_only [] = Ok [("action"%string, VNone)]
  /\ getattr [("action"%string, VNone)] "func" = None.
Proof. split; vm_compute; reflexivity. Qed.

Lemma C5_create_selected :
  (map py ["create"; "--dry-run"]%string = []
   /\ getattr [("action", VStr (py "create")); ("config", VNone);
               ("binding", VStr (py "wx_binding")); ("dry_run", VBool true);
               ("func", VFunc Fn_create_database)]%string "action"
      = Some VNone
   /\ getattr [("action", VStr (py "create")); ("config", VNone);
               ("binding", VStr (py "wx_binding")); ("dry_run", VBool true);
               ("func", VFunc Fn_create_database)]%string "func" = None)
  \/ (exists a p f rest,
         map py ["create"; "--dry-run"]%string = a :: rest
         /\ In (a, p) action_parsers
         /\ defaults p = func f
         /\ getattr [("action", VStr (py "create")); ("config", VNone);
                     ("binding", VStr (py "wx_binding"));
                     ("dry_run", VBool true);
                     ("func", VFunc Fn_create_database)]%string "action"
            = Some (VStr a)
         /\ getattr [("action", VStr (py "create")); ("config", VNone);
                     ("binding", VStr (py "wx_binding"));
                     ("dry_run", VBool true);
                     ("func", VFunc Fn_create_database)]%string "func"
            = Some (VFunc f)).
Proof.
  apply (@C5_at_most_one_action ascii_only
           (map py ["create"; "--dry-run"]%string)).
  vm_compute. reflexivity.
Defined.





(** [drop-columns --config=w.conf a b --dry-run]. *)
Lemma C8_drop_a_and_b :
  exists ns,
    database_parse_args ascii_only
      (map py ["drop-columns"; "--config=w.conf"; "a"; "b"; "--dry-run"]%string)
    = Ok ns
    /\ drop_columns ns
       = Ok (Call_drop_columns (VStr (py "w.conf")) (VStr (py "wx_binding"))
               (VList [py "a"; py "b"]) (VBool true)).
Proof.
  refine (proj1 (proj2 (proj2 (C8_column_names_nonempty ascii_only)))
            [Assigned (py "--config") (py "w.conf")]
            [Switched (py "--dry-run")] [py "a"; py "b"]
            eq_refl eq_refl _ eq_refl).
  discriminate.
Defined.

(** [drop-columns a --dry-run b] has two names and fails to parse. *)
Lemma C8_names_apart_refused :
  database_parse_args ascii_only
    (map py ["drop-columns"; "a"; "--dry-run"; "b"]%string)
  = Raise (UsageError UnrecognizedArguments).
Proof. vm_compute. reflexivity. Qed.

(** [create --dry-run]: the flag is [True] and is forwarded. *)
Lemma C9_create_dry_run :
  exists b,
    getattr [("action", VStr (py "create")); ("config", VNone);
             ("binding", VStr (py "wx_binding")); ("dry_run", VBool true);
             ("func", VFunc Fn_create_database)]%string "dry_run"
    = Some (VBool b)
    /\ (mentions "--dry-run" [py "--dry-run"] = false -> b = false)
    /\ (In (py "--dry-run") (options_zone [py "--dry-run"]) -> b = true)
    /\ ((exists c,
            call ascii_only Fn_create_database
                 [("action", VStr (py "create")); ("config", VNone);
                  ("binding", VStr (py "wx_binding")); ("dry_run", VBool true);
                  ("func", VFunc Fn_create_database)]%string = Ok c
            /\ call_dry_run c = VBool b)
        \/ (Fn_create_database = Fn_add_column
            /\ (exists l,
                   getattr [("action", VStr (py "create")); ("config", VNone);
                            ("binding", VStr (py "wx_binding"));
                            ("dry_run", VBool true);
                            ("func", VFunc Fn_create_database)]%string
                           "column_type"
                   = Some (VList l))
            /\ call ascii_only Fn_create_database
                    [("action", VStr (py "create")); ("config", VNone);
                     ("binding", VStr (py "wx_binding"));
                     ("dry_run", VBool true);
                     ("func", VFunc Fn_create_database)]%string
               = Raise AttributeError)).
Proof.
  apply (@C9_dry_run_boolean ascii_only (py "create")
           database_create_parser Fn_create_database [py "--dry-run"]).
  - simpl. auto.
  - reflexivity.
  - vm_compute. reflexivity.
Defined.


